(** * se-risk: the design game, its agents and the round-robin tournament

    A shallow embedding of [hunt/game.py], [hunt/tournament.py],
    [hunt/player.py] and [players_new.py].

    - Python integers are [Z]; Python and numpy floats are binary64 values,
      Rocq's primitive [float]s, whose operations are the IEEE 754 ones the
      interpreter runs.  A payoff given as a small Python integer (below
      2^53) is the float of the same value.
    - A raised exception is the [Raise] branch of [outcome]; an object with
      mutable attributes is a value threaded through the calls made on it.
    - numpy's [exp] and [log] and its random stream are outside the
      repository: the first two are section variables, the stream is the
      sequence of its draws. *)

From Stdlib Require Import ZArith List String Floats Lia.
From stdpp Require Import gmap strings list fin_maps.

Open Scope Z_scope.

(** ** Python values *)

(** The exceptions the modelled code can raise besides [InvalidDecisionError]
    (all of them subclasses of [Exception]). *)
Inductive exn : Set :=
| IndexError
| ValueError
| ZeroDivisionError
| TypeError
| UnboundLocalError
| RuntimeError (msg : string).

Inductive outcome (E A : Type) : Type :=
| Ok (a : A)
| Raise (e : E).
Arguments Ok {E A} a.
Arguments Raise {E A} e.

Definition outcome_bind {E A B} (o : outcome E A) (k : A -> outcome E B) : outcome E B :=
  match o with
  | Ok a => k a
  | Raise e => Raise e
  end.

Definition is_ok {E A} (o : outcome E A) : bool :=
  match o with
  | Ok _ => true
  | Raise _ => false
  end.

(** [l[i]] on a Python list: a negative index counts from the end, an index
    outside [-len, len) raises [IndexError]. *)
Definition py_index {A} (l : list A) (i : Z) : outcome exn A :=
  let n := Z.of_nat (length l) in
  let k := if i <? 0 then n + i else i in
  if (0 <=? k) && (k <? n) then
    match l !! Z.to_nat k with
    | Some x => Ok x
    | None => Raise IndexError
    end
  else Raise IndexError.

(** The arithmetic the scheduler performs on scores: Python's [+], [*] and
    true division [/], the literals [0], [1] and [0.5], and the conversion of
    an [int] operand.  [float_Number] is what the interpreter computes. *)
Class Number (R : Type) := {
  nzero : R;
  nunit : R;
  nhalf : R;
  nadd : R -> R -> R;
  nmul : R -> R -> R;
  ndiv : R -> R -> R;
  of_int : Z -> R
}.

(** [float(z)]: the binary64 value nearest to [z], ties to even. *)
Definition float_of_Z (z : Z) : float :=
  SF2Prim (binary_normalize prec emax z 0 false).

#[export] Instance float_Number : Number float := {
  nzero := 0%float;
  nunit := 1%float;
  nhalf := 0.5%float;
  nadd := PrimFloat.add;
  nmul := PrimFloat.mul;
  ndiv := PrimFloat.div;
  of_int := float_of_Z
}.

(** ** hunt/game.py *)

Module Game.

(** [class Decision]: [strategy] and [design], both defaulting to 0. *)
Record Decision : Set := mkDecision { strategy : Z; design : Z }.

Definition Decision_default : Decision := mkDecision 0 0.

Section WithNumber.
Context {R : Type}.

(** [class Result]. *)
Record Result : Type := mkResult {
  my_decision : Decision;
  my_payoff : R;
  their_decision : Decision;
  their_payoff : R
}.

(** An agent object: its [name], the rest of its attributes ([state]) and
    its two methods.  A method call may change the attributes and may raise;
    the attributes it leaves behind stay with the object either way. *)
Record Player : Type := mkPlayer {
  player_state : Type;
  name : string;
  state : player_state;
  get_decision_method : player_state -> player_state * outcome exn Decision;
  report_result_method : player_state -> Result -> player_state * outcome exn unit
}.

Definition with_state (p : Player) (s : player_state p) : Player :=
  mkPlayer (player_state p) (name p) s (get_decision_method p) (report_result_method p).

Definition get_decision (p : Player) : Player * outcome exn Decision :=
  let '(s, o) := get_decision_method p (state p) in (with_state p s, o).

Definition report_result (p : Player) (r : Result) : Player * outcome exn unit :=
  let '(s, o) := report_result_method p (state p) r in (with_state p s, o).

(** [class DesignGame]: one 2x2 payoff matrix per design. *)
Record DesignGame : Type := mkDesignGame { designs : list (list (list R)) }.

(** [class Player]: always [Decision()], results ignored.  The [game]
    attribute is never read. *)
Definition Player_init (game : DesignGame) (name : string) : Player :=
  mkPlayer unit name tt (fun s => (s, Ok Decision_default)) (fun s _ => (s, Ok tt)).

(** [raise InvalidDecisionError(player, decision)], or any other exception
    leaving [play]. *)
Inductive play_error : Type :=
| InvalidDecisionError (player : Player) (decision : Decision)
| Exception (e : exn).

(** [DesignGame.get_payoff]. *)
Definition get_payoff (self : DesignGame) (my_decision their_decision : Decision)
  : outcome exn R :=
  outcome_bind (py_index (designs self) (design my_decision)) (fun matrix =>
  outcome_bind (py_index matrix (strategy my_decision)) (fun row =>
  py_index row (strategy their_decision))).

(** [d.strategy not in [0, 1] or d.design not in range(len(self.designs))]. *)
Definition invalid_decision (self : DesignGame) (d : Decision) : bool :=
  negb ((strategy d =? 0) || (strategy d =? 1))
  || negb ((0 <=? design d) && (design d <? Z.of_nat (length (designs self)))).

(** *** play

    [play] runs on the two agent objects it is given; the log of the method
    calls it makes is kept beside them. *)
Inductive side : Set := First | Second.

Inductive call : Type :=
| CallGetDecision (who : side)
| CallReportResult (who : side) (r : Result).

Record world : Type := mkWorld {
  player_1 : Player;
  player_2 : Player;
  calls : list call
}.

Definition agent (who : side) (w : world) : Player :=
  match who with
  | First => player_1 w
  | Second => player_2 w
  end.

Definition set_agent (who : side) (p : Player) (w : world) : world :=
  match who with
  | First => mkWorld p (player_2 w) (calls w)
  | Second => mkWorld (player_1 w) p (calls w)
  end.

Definition logged (c : call) (w : world) : world :=
  mkWorld (player_1 w) (player_2 w) (calls w ++ [c]).

(** Computations of [play]: the world is updated, a value is returned or an
    exception leaves. *)
Definition M (A : Type) : Type := world -> world * outcome play_error A.

Definition M_ret {A} (a : A) : M A := fun w => (w, Ok a).

Definition M_bind {A B} (c : M A) (k : A -> M B) : M B :=
  fun w =>
    match c w with
    | (w', Ok a) => k a w'
    | (w', Raise e) => (w', Raise e)
    end.

Definition M_raise {A} (e : play_error) : M A := fun w => (w, Raise e).

Definition M_lift {A} (o : outcome exn A) : M A :=
  fun w =>
    match o with
    | Ok a => (w, Ok a)
    | Raise e => (w, Raise (Exception e))
    end.

Definition call_get_decision (who : side) : M Decision :=
  fun w =>
    let '(p, o) := get_decision (agent who w) in
    M_lift o (logged (CallGetDecision who) (set_agent who p w)).

Definition call_report_result (who : side) (r : Result) : M unit :=
  fun w =>
    let '(p, o) := report_result (agent who w) r in
    M_lift o (logged (CallReportResult who r) (set_agent who p w)).

Definition check_decision (self : DesignGame) (who : side) (d : Decision) : M unit :=
  fun w =>
    if invalid_decision self d
    then (w, Raise (InvalidDecisionError (agent who w) d))
    else (w, Ok tt).

(** A decision in its declared domain: what the two tests of [play] accept. *)
Definition valid_decision (self : DesignGame) (d : Decision) : Prop :=
  (strategy d = 0 \/ strategy d = 1) /\ 0 <= design d < Z.of_nat (length (designs self)).

(** Every design is a 2x2 table. *)
Definition well_formed (self : DesignGame) : Prop :=
  Forall (fun matrix =>
            length matrix = 2%nat /\
            Forall (fun row : list R => length row = 2%nat) matrix)
    (designs self).

Definition is_report (c : call) : bool :=
  match c with
  | CallReportResult _ _ => true
  | CallGetDecision _ => false
  end.

End WithNumber.

Arguments Result R : clear implicits.
Arguments Player R : clear implicits.
Arguments DesignGame R : clear implicits.
Arguments play_error R : clear implicits.
Arguments call R : clear implicits.
Arguments world R : clear implicits.
Arguments M R A : clear implicits.

Notation "x <- c ;; k" := (M_bind c (fun x => k))
  (at level 100, c at next level, right associativity).

(** [DesignGame.play]. *)
Definition play_m {R} (self : DesignGame R) : M R (Result R) :=
  decision_1 <- call_get_decision First ;;
  _ <- check_decision self First decision_1 ;;
  decision_2 <- call_get_decision Second ;;
  _ <- check_decision self Second decision_2 ;;
  payoff_1 <- M_lift (get_payoff self decision_1 decision_2) ;;
  payoff_2 <- M_lift (get_payoff self decision_2 decision_1) ;;
  _ <- call_report_result First (mkResult decision_1 payoff_1 decision_2 payoff_2) ;;
  _ <- call_report_result Second (mkResult decision_2 payoff_2 decision_1 payoff_1) ;;
  M_ret (mkResult decision_1 payoff_1 decision_2 payoff_2).

Definition play {R} (self : DesignGame R) (player_1 player_2 : Player R)
  : world R * outcome (play_error R) (Result R) :=
  play_m self (mkWorld player_1 player_2 []).

Abbreviation G1 := (CallGetDecision First).
Abbreviation G2 := (CallGetDecision Second).

(** Every way [play] can go, by the outcomes of the calls it makes in turn
    ([play_runs] below shows there is no other). *)
Inductive play_run {R} (self : DesignGame R) (p1 p2 : Player R)
  : world R * outcome (play_error R) (Result R) -> Prop :=
| run_first_raises p1a e :
    get_decision p1 = (p1a, Raise e) ->
    play_run self p1 p2 (mkWorld p1a p2 [G1], Raise (Exception e))
| run_first_invalid p1a d1 :
    get_decision p1 = (p1a, Ok d1) -> invalid_decision self d1 = true ->
    play_run self p1 p2 (mkWorld p1a p2 [G1], Raise (InvalidDecisionError p1a d1))
| run_second_raises p1a d1 p2a e :
    get_decision p1 = (p1a, Ok d1) -> invalid_decision self d1 = false ->
    get_decision p2 = (p2a, Raise e) ->
    play_run self p1 p2 (mkWorld p1a p2a [G1; G2], Raise (Exception e))
| run_second_invalid p1a d1 p2a d2 :
    get_decision p1 = (p1a, Ok d1) -> invalid_decision self d1 = false ->
    get_decision p2 = (p2a, Ok d2) -> invalid_decision self d2 = true ->
    play_run self p1 p2 (mkWorld p1a p2a [G1; G2], Raise (InvalidDecisionError p2a d2))
| run_payoff_raises p1a d1 p2a d2 e :
    get_decision p1 = (p1a, Ok d1) -> invalid_decision self d1 = false ->
    get_decision p2 = (p2a, Ok d2) -> invalid_decision self d2 = false ->
    (get_payoff self d1 d2 = Raise e \/
     (exists v1, get_payoff self d1 d2 = Ok v1) /\ get_payoff self d2 d1 = Raise e) ->
    play_run self p1 p2 (mkWorld p1a p2a [G1; G2], Raise (Exception e))
| run_first_report_raises p1a d1 p2a d2 v1 v2 p1b e :
    get_decision p1 = (p1a, Ok d1) -> invalid_decision self d1 = false ->
    get_decision p2 = (p2a, Ok d2) -> invalid_decision self d2 = false ->
    get_payoff self d1 d2 = Ok v1 -> get_payoff self d2 d1 = Ok v2 ->
    report_result p1a (mkResult d1 v1 d2 v2) = (p1b, Raise e) ->
    play_run self p1 p2
      (mkWorld p1b p2a [G1; G2; CallReportResult First (mkResult d1 v1 d2 v2)],
       Raise (Exception e))
| run_second_report_raises p1a d1 p2a d2 v1 v2 p1b p2b e :
    get_decision p1 = (p1a, Ok d1) -> invalid_decision self d1 = false ->
    get_decision p2 = (p2a, Ok d2) -> invalid_decision self d2 = false ->
    get_payoff self d1 d2 = Ok v1 -> get_payoff self d2 d1 = Ok v2 ->
    report_result p1a (mkResult d1 v1 d2 v2) = (p1b, Ok tt) ->
    report_result p2a (mkResult d2 v2 d1 v1) = (p2b, Raise e) ->
    play_run self p1 p2
      (mkWorld p1b p2b
         [G1; G2; CallReportResult First (mkResult d1 v1 d2 v2);
          CallReportResult Second (mkResult d2 v2 d1 v1)],
       Raise (Exception e))
| run_returns p1a d1 p2a d2 v1 v2 p1b p2b :
    get_decision p1 = (p1a, Ok d1) -> invalid_decision self d1 = false ->
    get_decision p2 = (p2a, Ok d2) -> invalid_decision self d2 = false ->
    get_payoff self d1 d2 = Ok v1 -> get_payoff self d2 d1 = Ok v2 ->
    report_result p1a (mkResult d1 v1 d2 v2) = (p1b, Ok tt) ->
    report_result p2a (mkResult d2 v2 d1 v1) = (p2b, Ok tt) ->
    play_run self p1 p2
      (mkWorld p1b p2b
         [G1; G2; CallReportResult First (mkResult d1 v1 d2 v2);
          CallReportResult Second (mkResult d2 v2 d1 v1)],
       Ok (mkResult d1 v1 d2 v2)).

End Game.

(** ** hunt/tournament.py *)

Module Tournament.
Import Game.

(** [itertools.combinations_with_replacement(l, 2)]. *)
Fixpoint combinations_with_replacement_2 {A} (l : list A) : list (A * A) :=
  match l with
  | [] => []
  | x :: t => map (pair x) (x :: t) ++ combinations_with_replacement_2 t
  end.

(** A [for] loop whose body may raise: the exception ends the loop and the
    state reached so far stays. *)
Fixpoint for_loop {S A} (body : A -> S -> S * outcome exn unit) (l : list A) (s : S)
  : S * outcome exn unit :=
  match l with
  | [] => (s, Ok tt)
  | a :: t =>
      match body a s with
      | (s', Ok _) => for_loop body t s'
      | (s', Raise e) => (s', Raise e)
      end
  end.

Section WithNumber.
Context {R : Type} `{Number R}.

(** The constructor arguments.  [players] are the agent constructors, each
    called with a game.  [geometric k] is what the [k]-th call of
    [self.rng.geometric(self.p_rep)] gives: a draw, or the exception numpy
    raises for a [p_rep] it refuses. *)
Record Tournament : Type := mkTournament {
  players : list (DesignGame R -> Player R);
  games : list (DesignGame R);
  num_reps : option Z;
  geometric : nat -> outcome exn Z
}.

Record player_entry : Type := mkPlayerEntry {
  entry_name : string;
  entry_design : Z;
  entry_strategy : Z;
  entry_payoff : R
}.

Record rep_entry : Type := mkRepEntry {
  rep_game : nat;
  rep_rep : nat;
  rep_player_1 : player_entry;
  rep_player_2 : player_entry
}.

(** The two shapes of an [error_results] entry. *)
Inductive error_entry : Type :=
| InvalidEntry (game rep : nat) (player : string) (design strategy : Z)
    (error : play_error R)
| FailureEntry (game rep : nat) (player_1 player_2 : string) (error : exn).

Record game_entry : Type := mkGameEntry {
  game_game : nat;
  game_reps : Z;
  game_players : (string * R) * (string * R)
}.

Record match_entry : Type := mkMatchEntry {
  match_players : (string * R) * (string * R)
}.

(** The attributes [run] reads and writes; [rng_calls] is how far
    [self.rng] has been consumed. *)
Record attrs : Type := mkAttrs {
  rng_calls : nat;
  error_results : list error_entry;
  rep_results : list rep_entry;
  game_results : list game_entry;
  match_results : list match_entry;
  results : gmap string R
}.

Definition Tournament_init : attrs := mkAttrs 0 [] [] [] [] ∅.

Definition append_error (e : error_entry) (s : attrs) : attrs :=
  mkAttrs (rng_calls s) (error_results s ++ [e]) (rep_results s) (game_results s)
    (match_results s) (results s).

Definition append_rep (e : rep_entry) (s : attrs) : attrs :=
  mkAttrs (rng_calls s) (error_results s) (rep_results s ++ [e]) (game_results s)
    (match_results s) (results s).

Definition append_game (e : game_entry) (s : attrs) : attrs :=
  mkAttrs (rng_calls s) (error_results s) (rep_results s) (game_results s ++ [e])
    (match_results s) (results s).

Definition append_match (e : match_entry) (s : attrs) : attrs :=
  mkAttrs (rng_calls s) (error_results s) (rep_results s) (game_results s)
    (match_results s ++ [e]) (results s).

Definition set_results (m : gmap string R) (s : attrs) : attrs :=
  mkAttrs (rng_calls s) (error_results s) (rep_results s) (game_results s)
    (match_results s) m.

Definition next_draw (s : attrs) : attrs :=
  mkAttrs (S (rng_calls s)) (error_results s) (rep_results s) (game_results s)
    (match_results s) (results s).

(** What one game of a match carries from replicate to replicate. *)
Record game_vars : Type := mkGameVars {
  game_player_1 : Player R;
  game_player_2 : Player R;
  p1_game_score : R;
  p2_game_score : R
}.

(** The body of [for rep in range(num_reps)]: the [try] with its two
    handlers. *)
Definition run_rep (game : DesignGame R) (g : nat) (num_reps : Z) (rep : nat)
  (sv : attrs * game_vars) : attrs * game_vars :=
  let '(s, v) := sv in
  match play game (game_player_1 v) (game_player_2 v) with
  | (w, Ok res) =>
      (append_rep
         (mkRepEntry g rep
            (mkPlayerEntry (name (player_1 w)) (design (my_decision res))
               (strategy (my_decision res)) (my_payoff res))
            (mkPlayerEntry (name (player_2 w)) (design (their_decision res))
               (strategy (their_decision res)) (their_payoff res)))
         s,
       mkGameVars (player_1 w) (player_2 w)
         (nadd (p1_game_score v) (ndiv (my_payoff res) (of_int num_reps)))
         (nadd (p2_game_score v) (ndiv (their_payoff res) (of_int num_reps))))
  | (w, Raise (InvalidDecisionError player decision)) =>
      (append_error
         (InvalidEntry g rep (name player) (design decision) (strategy decision)
            (InvalidDecisionError player decision))
         s,
       mkGameVars (player_1 w) (player_2 w) (p1_game_score v) (p2_game_score v))
  | (w, Raise (Exception e)) =>
      (append_error (FailureEntry g rep (name (player_1 w)) (name (player_2 w)) e) s,
       mkGameVars (player_1 w) (player_2 w) (p1_game_score v) (p2_game_score v))
  end.

(** The local variables of [run] that outlive a game: [player_1] and
    [player_2] (unbound until a first game has run) and the match scores. *)
Record match_vars : Type := mkMatchVars {
  bound_players : option (Player R * Player R);
  p1_match_score : R;
  p2_match_score : R
}.

(** The body of [for g, game in enumerate(self.games)]. *)
Definition run_game (self : Tournament)
  (pair : (DesignGame R -> Player R) * (DesignGame R -> Player R))
  (g_game : nat * DesignGame R) (sv : attrs * match_vars)
  : (attrs * match_vars) * outcome exn unit :=
  let '(s, mv) := sv in
  let '(g, game) := g_game in
  let player_1 := fst pair (mkDesignGame (designs game)) in
  let player_2 := snd pair (mkDesignGame (designs game)) in
  let mv := mkMatchVars (Some (player_1, player_2)) (p1_match_score mv) (p2_match_score mv) in
  let '(s, drawn) :=
    match num_reps self with
    | None => (next_draw s, geometric self (rng_calls s))
    | Some n => (s, Ok n)
    end in
  match drawn with
  | Raise e => ((s, mv), Raise e)
  | Ok num_reps =>
      let '(s, v) :=
        fold_left (fun sv rep => run_rep game g num_reps rep sv)
          (seq 0 (Z.to_nat num_reps))
          (s, mkGameVars player_1 player_2 nzero nzero) in
      let s :=
        append_game
          (mkGameEntry g num_reps
             ((name (game_player_1 v), p1_game_score v),
              (name (game_player_2 v), p2_game_score v)))
          s in
      let n_games := of_int (Z.of_nat (length (games self))) in
      ((s,
        mkMatchVars (Some (game_player_1 v, game_player_2 v))
          (nadd (p1_match_score mv) (ndiv (p1_game_score v) n_games))
          (nadd (p2_match_score mv) (ndiv (p2_game_score v) n_games))),
       Ok tt)
  end.

(** [0.5 if player_1.name == player_2.name else 1]. *)
Definition match_factor (player_1 player_2 : Player R) : R :=
  if decide (name player_1 = name player_2) then nhalf else nunit.

(** [results[name] = results.get(name, 0) + score * factor / len(players)]. *)
Definition credit (n_players : nat) (name : string) (score factor : R)
  (results : gmap string R) : gmap string R :=
  <[name := nadd (default nzero (results !! name))
              (ndiv (nmul score factor) (of_int (Z.of_nat n_players)))]> results.

Definition enumerate {A} (l : list A) : list (nat * A) :=
  combine (seq 0 (length l)) l.

(** The body of [for match in matches].  [player_1] and [player_2] keep the
    binding of the last game run so far, of this match or of an earlier one;
    with none the match log raises [UnboundLocalError]. *)
Definition run_match (self : Tournament)
  (pair : (DesignGame R -> Player R) * (DesignGame R -> Player R))
  (sb : attrs * option (Player R * Player R))
  : (attrs * option (Player R * Player R)) * outcome exn unit :=
  let '(s, bound) := sb in
  match for_loop (run_game self pair) (enumerate (games self))
          (s, mkMatchVars bound nzero nzero) with
  | ((s, mv), Raise e) => ((s, bound_players mv), Raise e)
  | ((s, mv), Ok _) =>
      match bound_players mv with
      | None => ((s, None), Raise UnboundLocalError)
      | Some (player_1, player_2) =>
          let s :=
            append_match
              (mkMatchEntry
                 ((name player_1, p1_match_score mv), (name player_2, p2_match_score mv)))
              s in
          let factor := match_factor player_1 player_2 in
          let n := length (players self) in
          let r := credit n (name player_1) (p1_match_score mv) factor (results s) in
          let r := credit n (name player_2) (p2_match_score mv) factor r in
          ((set_results r s, Some (player_1, player_2)), Ok tt)
      end
  end.

(** [Tournament.run]: the attributes it leaves, and the map it returns or
    the exception that leaves it. *)
Definition run (self : Tournament) (s : attrs) : attrs * outcome exn (gmap string R) :=
  let s := mkAttrs (rng_calls s) [] [] [] [] ∅ in
  let matches := combinations_with_replacement_2 (players self) in
  match for_loop (run_match self) matches (s, None) with
  | ((s, _), Ok _) => (s, Ok (results s))
  | ((s, _), Raise e) => (s, Raise e)
  end.

(** What an [error_results] entry records. *)
Definition error_game (e : error_entry) : nat :=
  match e with
  | InvalidEntry g _ _ _ _ _ => g
  | FailureEntry g _ _ _ _ => g
  end.

Definition error_rep (e : error_entry) : nat :=
  match e with
  | InvalidEntry _ rep _ _ _ _ => rep
  | FailureEntry _ rep _ _ _ => rep
  end.

Definition error_names (e : error_entry) : list string :=
  match e with
  | InvalidEntry _ _ player _ _ _ => [player]
  | FailureEntry _ _ player_1 player_2 _ => [player_1; player_2]
  end.

(** A replicate count can be had for every game: [num_reps] is given, or
    every draw from the random stream succeeds. *)
Definition replication_usable (self : Tournament) : Prop :=
  is_Some (num_reps self) \/ forall k, is_ok (geometric self k) = true.

(** The sum of [payoff / num_reps] over logged replicates, from [start]. *)
Definition credited (side : rep_entry -> player_entry) (num_reps : Z)
  (entries : list rep_entry) (start : R) : R :=
  fold_left (fun score e => nadd score (ndiv (entry_payoff (side e)) (of_int num_reps)))
    entries start.

(** *** Fixtures

    The tournament of the null-agent property: [n_players] agents of class
    [Player], all under one display name, one game with designs
    [[[[3, 0], [5, 1]]]] and a fixed replicate count. *)
Definition null_player (name : string) : DesignGame R -> Player R :=
  fun game => Player_init game name.

Definition designs_3051 : list (list (list R)) :=
  [[[of_int 3; of_int 0]; [of_int 5; of_int 1]]].

Definition null_tournament (n_players : nat) (num_reps : Z) (name : string) : Tournament :=
  mkTournament (repeat (null_player name) n_players) [mkDesignGame designs_3051]
    (Some num_reps) (fun _ => Raise TypeError).

(** An agent that returns the same decision every time and ignores results
    ([Player] is the one for [Decision()]). *)
Definition constant_player (d : Decision) (name : string) : DesignGame R -> Player R :=
  fun game => mkPlayer unit name tt (fun s => (s, Ok d)) (fun s _ => (s, Ok tt)).

End WithNumber.

Arguments Tournament R : clear implicits.
Arguments attrs R : clear implicits.
Arguments error_entry R : clear implicits.
Arguments rep_entry R : clear implicits.
Arguments player_entry R : clear implicits.
Arguments game_entry R : clear implicits.
Arguments match_entry R : clear implicits.
Arguments game_vars R : clear implicits.
Arguments match_vars R : clear implicits.

End Tournament.

(** ** players_new.py *)

Module PlayersNew.
Import Game.

Open Scope float_scope.

(** *** numpy on lists of floats *)

Definition is_nan (x : float) : bool := negb (x =? x).

(** The scan of [np.argmax] from position [i], [best] holding the running
    maximum [mp]: a later entry wins when [entry <= mp] fails, and the scan
    stops at a NaN, which counts as the maximum. *)
Fixpoint argmax_scan (mp : float) (best i : nat) (l : list float) : nat :=
  match l with
  | [] => best
  | x :: t =>
      if negb (x <=? mp)
      then (if is_nan x then i else argmax_scan x i (S i) t)
      else argmax_scan mp best (S i) t
  end.

(** [np.argmax]: the first index of the maximum, the first NaN when there
    is one; [ValueError] on an empty sequence. *)
Definition argmax (l : list float) : outcome exn nat :=
  match l with
  | [] => Raise ValueError
  | x :: t => Ok (if is_nan x then 0%nat else argmax_scan x 0 1 t)
  end.

(** [np.nanargmax]: NaN entries replaced by [-inf], then [np.argmax];
    [ValueError] when every entry is NaN or there is none. *)
Definition nanargmax (l : list float) : outcome exn nat :=
  if forallb is_nan l then Raise ValueError
  else argmax (map (fun x => if is_nan x then neg_infinity else x) l).

(** [np.fmin]. *)
Definition fmin (x y : float) : float :=
  if (x <=? y) || is_nan y then x else y.

(** [np.nanmin]: [np.fmin.reduce]; NaN when every entry is NaN (a warning,
    not an exception), [ValueError] on an empty array. *)
Definition nanmin (l : list float) : outcome exn float :=
  match l with
  | [] => Raise ValueError
  | x :: t => Ok (fold_left fmin t x)
  end.

(** [values * mask] for a list of floats and a boolean array. *)
Definition times_mask (values : list float) (mask : list bool) : list float :=
  zip_with (fun v (b : bool) => v * (if b then 1 else 0)) values mask.

(** [[f(design) for design in range(n)]], [f] possibly raising. *)
Fixpoint for_designs {A} (f : Z -> outcome exn A) (ds : list Z) : outcome exn (list A) :=
  match ds with
  | [] => Ok []
  | d :: t =>
      outcome_bind (f d) (fun a =>
      outcome_bind (for_designs f t) (fun r => Ok (a :: r)))
  end.

Definition range (n : nat) : list Z := map Z.of_nat (seq 0 n).

(** [scipy.stats.beta(a, b).mean()] on int64 shape parameters: [a / (a + b)],
    NaN outside the distribution's domain. *)
Definition wrap64 (z : Z) : Z := ((z + 2 ^ 63) mod 2 ^ 64 - 2 ^ 63)%Z.

Definition beta_mean (a b : Z) : float :=
  if ((0 <? a) && (0 <? b))%Z
  then float_of_Z a / float_of_Z (wrap64 (a + b))
  else nan.

Section Numpy.
(** [np.exp] and [np.log]. *)
Variables exp ln : float -> float.

(** [get_utility], the same in both classes. *)
Definition get_utility (risk_aversion value : float) : float :=
  if risk_aversion =? 0 then value
  else (1 - exp (- risk_aversion * value)) / risk_aversion.

(** [x / y] on two utilities.  With [risk_aversion == 0] they are the
    payoffs themselves, Python floats, and a zero divisor raises; otherwise
    they are numpy floats and the quotient is the IEEE one. *)
Definition utility_div (risk_aversion x y : float) : outcome exn float :=
  if (risk_aversion =? 0) && (y =? 0) then Raise ZeroDivisionError else Ok (x / y).

(** **** RiskAwareRDplayer *)

Record RD_attrs : Type := mkRD {
  rd_game : DesignGame float;
  rd_risk_aversion : float;
  their_prior_decision : option Decision
}.

Definition RD_report_result (self : RD_attrs) (result : Result float) : RD_attrs :=
  mkRD (rd_game self) (rd_risk_aversion self) (Some (their_decision result)).

(** One [np.log((u(..) - u(..)) / (u(..) - u(..)))] of [get_risk_dominance],
    [their_design] being the design the partner is taken to play. *)
Definition log_ratio (self : RD_attrs) (their_design independent_design : Z)
  : outcome exn float :=
  let u := get_utility (rd_risk_aversion self) in
  let payoff := get_payoff (rd_game self) in
  outcome_bind (payoff (mkDecision 0 independent_design) (mkDecision 0 0)) (fun i0 =>
  outcome_bind (payoff (mkDecision 1 their_design) (mkDecision 0 0)) (fun c0 =>
  outcome_bind (payoff (mkDecision 1 their_design) (mkDecision 1 0)) (fun c1 =>
  outcome_bind (payoff (mkDecision 0 independent_design) (mkDecision 1 0)) (fun i1 =>
  outcome_bind (utility_div (rd_risk_aversion self) (u i0 - u c0) (u c1 - u i1)) (fun q =>
  Ok (ln q)))))).

(** [get_risk_dominance], the branch that is live ([if False] is not). *)
Definition get_risk_dominance (self : RD_attrs) (design independent_design : Z)
  : outcome exn float :=
  let prior_design :=
    match their_prior_decision self with
    | Some d => Game.design d
    | None => design
    end in
  outcome_bind (log_ratio self design independent_design) (fun a =>
  outcome_bind (log_ratio self prior_design independent_design) (fun b =>
  Ok (0.5 * a + 0.5 * b))).

Definition RD_get_decision (self : RD_attrs) : outcome exn Decision :=
  let u := get_utility (rd_risk_aversion self) in
  let payoff := get_payoff (rd_game self) in
  let ds := range (length (designs (rd_game self))) in
  outcome_bind (for_designs (fun design =>
      outcome_bind (payoff (mkDecision 0 design) (mkDecision 0 0)) (fun v => Ok (u v))) ds)
    (fun independent_value =>
  outcome_bind (nanargmax independent_value) (fun independent_design =>
  outcome_bind (for_designs (fun design =>
      get_risk_dominance self design (Z.of_nat independent_design)) ds)
    (fun risk_dominance =>
  outcome_bind (for_designs (fun design =>
      outcome_bind (payoff (mkDecision 1 design) (mkDecision 1 0)) (fun v => Ok (u v))) ds)
    (fun collaborative_value =>
  outcome_bind (argmax (times_mask collaborative_value
                          (map (fun r => r <? 0) risk_dominance)))
    (fun collaborative_design =>
  outcome_bind (nanmin risk_dominance) (fun lowest =>
  if lowest <? 0
  then Ok (mkDecision 1 (Z.of_nat collaborative_design))
  else Ok (mkDecision 0 (Z.of_nat independent_design)))))))).

(** A [RiskAwareRDplayer] object whose attributes are [self]. *)
Definition RD_object (name : string) (self : RD_attrs) : Player float :=
  mkPlayer RD_attrs name self
    (fun self => (self, RD_get_decision self))
    (fun self result => (RD_report_result self result, Ok tt)).

(** [RiskAwareRDplayer.__init__]. *)
Definition RiskAwareRDplayer (game : DesignGame float) (name : string)
  (risk_aversion : float) : Player float :=
  RD_object name (mkRD game risk_aversion None).

Definition RiskAwareRDplayer_neutral (game : DesignGame float) : Player float :=
  RiskAwareRDplayer game "RD_neutral" 0.

(** **** RiskAwareEUplayer *)

(** [strategy_prior] is the int64 array [[prior_no_collab, prior_collab]]. *)
Record EU_attrs : Type := mkEU {
  eu_game : DesignGame float;
  eu_risk_aversion : float;
  strategy_prior : Z * Z
}.

(** [self.strategy_prior[result.their_decision.strategy] += 1]: numpy
    indexing of a length-2 array, int64 addition. *)
Definition EU_report_result (self : EU_attrs) (result : Result float)
  : EU_attrs * outcome exn unit :=
  let i := strategy (their_decision result) in
  let '(no_collab, collab) := strategy_prior self in
  if ((i =? 0) || (i =? -2))%Z then
    (mkEU (eu_game self) (eu_risk_aversion self) (wrap64 (no_collab + 1), collab), Ok tt)
  else if ((i =? 1) || (i =? -1))%Z then
    (mkEU (eu_game self) (eu_risk_aversion self) (no_collab, wrap64 (collab + 1)), Ok tt)
  else (self, Raise IndexError).

Definition p_collab (self : EU_attrs) : float :=
  beta_mean (snd (strategy_prior self)) (fst (strategy_prior self)).

(** The expected utility of playing [strategy] with [design]. *)
Definition expected_value (self : EU_attrs) (strategy design : Z) : outcome exn float :=
  let u := get_utility (eu_risk_aversion self) in
  let payoff := get_payoff (eu_game self) in
  outcome_bind (payoff (mkDecision strategy design) (mkDecision 1 0)) (fun v1 =>
  outcome_bind (payoff (mkDecision strategy design) (mkDecision 0 0)) (fun v0 =>
  Ok (u v1 * p_collab self + u v0 * (1 - p_collab self)))).

Definition EU_get_decision (self : EU_attrs) : outcome exn Decision :=
  let ds := range (length (designs (eu_game self))) in
  outcome_bind (for_designs (expected_value self 0) ds) (fun independent_expected_value =>
  outcome_bind (nanargmax independent_expected_value) (fun independent_design =>
  outcome_bind (for_designs (expected_value self 1) ds) (fun collab_expected_value =>
  outcome_bind (argmax collab_expected_value) (fun collaborative_design =>
  outcome_bind (py_index independent_expected_value (Z.of_nat independent_design))
    (fun best =>
  if forallb (fun c => c <? best) collab_expected_value
  then Ok (mkDecision 0 (Z.of_nat independent_design))
  else Ok (mkDecision 1 (Z.of_nat collaborative_design))))))).

(** A [RiskAwareEUplayer] object whose attributes are [self]. *)
Definition EU_object (name : string) (self : EU_attrs) : Player float :=
  mkPlayer EU_attrs name self
    (fun self => (self, EU_get_decision self))
    (fun self result => EU_report_result self result).

(** [RiskAwareEUplayer.__init__]. *)
Definition RiskAwareEUplayer (game : DesignGame float) (name : string)
  (risk_aversion : float) (prior_collab prior_no_collab : Z) : Player float :=
  EU_object name (mkEU game risk_aversion (prior_no_collab, prior_collab)).

Definition RiskAwareEUplayer_neutral (game : DesignGame float) : Player float :=
  RiskAwareEUplayer game "EU_neutral" 0 1 1.

(** The agents that learn from reported results. *)
Inductive learning_agent : Player float -> Prop :=
| learning_RD name self : learning_agent (RD_object name self)
| learning_EU name self : learning_agent (EU_object name self).

End Numpy.

(** *** Vocabulary of the properties *)

(** The attributes of an Expected-Utility agent after the results [rs] have
    been reported to it in turn. *)
Definition EU_after (self : EU_attrs) (rs : list (Result float)) : EU_attrs :=
  fold_left (fun self r => fst (EU_report_result self r)) rs self.

(** How many of the reported results have the opponent collaborating
    (strategy 1), and how many not (strategy 0). *)
Definition collaborations (rs : list (Result float)) : Z :=
  Z.of_nat (length (filter (fun r => strategy (their_decision r) = 1%Z) rs)).

Definition defections (rs : list (Result float)) : Z :=
  Z.of_nat (length (filter (fun r => strategy (their_decision r) = 0%Z) rs)).

(** The arg-max of [values] over the positions whose risk-dominance index is
    negative, as the claim words it: a later qualifying entry wins when it is
    greater, and the index is 0 when no position qualifies. *)
Fixpoint restricted_scan (best : option (nat * float)) (i : nat)
  (values risk_dominance : list float) : option (nat * float) :=
  match values, risk_dominance with
  | v :: vs, r :: rs =>
      let best' :=
        if r <? 0 then
          match best with
          | None => Some (i, v)
          | Some (_, b) => if negb (v <=? b) then Some (i, v) else best
          end
        else best in
      restricted_scan best' (S i) vs rs
  | _, _ => best
  end.

Definition restricted_argmax (values risk_dominance : list float) : nat :=
  match restricted_scan None 0 values risk_dominance with
  | Some (i, _) => i
  | None => 0%nat
  end.

(** The values of [np.log] and [np.exp] that IEEE 754 fixes; the fixtures
    below call them nowhere else. *)
Definition ln_special (x : float) : float :=
  if x =? 0 then neg_infinity
  else if x =? 1 then 0
  else if x =? infinity then infinity
  else nan.

Definition exp_special (x : float) : float :=
  if x =? 0 then 1
  else if x =? neg_infinity then 0
  else if x =? infinity then infinity
  else nan.

End PlayersNew.

(** ** hunt/player.py *)

Module Players.
Import Game.

(** A [numpy.random.Generator]: [draw k low high] is what its [k]-th call
    gives when that call is [integers(low, high)] (high exclusive), and
    [drawn] counts the calls made so far.  Every object seeds a generator of
    its own. *)
Record Generator : Type := mkGenerator {
  draw : nat -> Z -> Z -> Z;
  drawn : nat
}.

Definition integers (rng : Generator) (low high : Z) : Generator * Z :=
  (mkGenerator (draw rng) (S (drawn rng)), draw rng (drawn rng) low high).

(** What numpy promises of [integers]: a value in [low, high). *)
Definition in_bounds (rng : Generator) : Prop :=
  forall k low high, low < high -> low <= draw rng k low high < high.

Section WithNumber.
Context {R : Type}.

(** [Decision(strategy=rng.integers(0, 1, endpoint=True),
              design=rng.integers(0, num_designs) if num_designs > 1 else 0)]:
    the strategy is drawn first; no design is drawn for fewer than two
    designs. *)
Definition random_decision (game : DesignGame R) (rng : Generator)
  : Generator * Decision :=
  let num_designs := Z.of_nat (length (designs game)) in
  let '(rng, strategy) := integers rng 0 2 in
  let '(rng, design) :=
    if 1 <? num_designs then integers rng 0 num_designs else (rng, 0) in
  (rng, mkDecision strategy design).

(** *** RandomPlayer *)

Record Random_attrs : Type := mkRandom {
  random_game : DesignGame R;
  random_rng : Generator
}.

Definition Random_get_decision (self : Random_attrs) : Random_attrs * Decision :=
  let '(rng, d) := random_decision (random_game self) (random_rng self) in
  (mkRandom (random_game self) rng, d).

(** A [RandomPlayer] object whose attributes are [self]; [report_result] is
    the inherited one. *)
Definition Random_object (name : string) (self : Random_attrs) : Player R :=
  mkPlayer Random_attrs name self
    (fun self => let '(self, d) := Random_get_decision self in (self, Ok d))
    (fun self _ => (self, Ok tt)).

(** [RandomPlayer.__init__], [rng] being the generator the seed gives. *)
Definition RandomPlayer (rng : Generator) (game : DesignGame R) (name : string)
  : Player R :=
  Random_object name (mkRandom game rng).

(** *** MirrorPlayer *)

Record Mirror_attrs : Type := mkMirror {
  mirror_game : DesignGame R;
  mirror_rng : Generator;
  next_decision : Decision
}.

Definition Mirror_report_result (self : Mirror_attrs) (result : Result R) : Mirror_attrs :=
  mkMirror (mirror_game self) (mirror_rng self) (their_decision result).

(** A [MirrorPlayer] object whose attributes are [self]. *)
Definition Mirror_object (name : string) (self : Mirror_attrs) : Player R :=
  mkPlayer Mirror_attrs name self
    (fun self => (self, Ok (next_decision self)))
    (fun self result => (Mirror_report_result self result, Ok tt)).

(** [MirrorPlayer.__init__]: the first decision is a random one. *)
Definition MirrorPlayer (rng : Generator) (game : DesignGame R) (name : string)
  : Player R :=
  let '(rng, d) := random_decision game rng in
  Mirror_object name (mkMirror game rng d).

End WithNumber.

Arguments Random_attrs R : clear implicits.
Arguments Mirror_attrs R : clear implicits.

(** A generator that always gives the lowest value. *)
Definition lowest_draws : Generator := mkGenerator (fun _ low _ => low) 0.

(** A generator that always gives the highest value. *)
Definition highest_draws : Generator := mkGenerator (fun _ _ high => high - 1) 0.

End Players.

(** * Properties of hunt/game.py *)

Section GameFacts.
Import Game.
Context {R : Type}.
Implicit Types (self : DesignGame R) (p : Player R) (d : Decision).

Lemma invalid_decision_false self d :
  invalid_decision self d = false <-> valid_decision self d.
Proof.
  unfold invalid_decision, valid_decision.
  rewrite orb_false_iff, !negb_false_iff, orb_true_iff, andb_true_iff.
  rewrite !Z.eqb_eq, Z.leb_le, Z.ltb_lt. tauto.
Qed.

Lemma invalid_decision_true self d :
  invalid_decision self d = true <-> ~ valid_decision self d.
Proof.
  rewrite <- invalid_decision_false.
  destruct (invalid_decision self d); split; congruence.
Qed.

Lemma py_index_in_range {A} (l : list A) (i : Z) :
  0 <= i < Z.of_nat (length l) ->
  exists x, l !! Z.to_nat i = Some x /\ py_index l i = Ok x.
Proof.
  intros Hi. unfold py_index.
  destruct (i <? 0) eqn:Hneg; [apply Z.ltb_lt in Hneg; lia|].
  destruct (lookup_lt_is_Some_2 l (Z.to_nat i)) as [x Hx]; [lia|].
  exists x. split; [exact Hx|].
  rewrite Hx.
  replace ((0 <=? i) && (i <? Z.of_nat (length l))) with true; [reflexivity|].
  symmetry. apply andb_true_iff. split; [apply Z.leb_le|apply Z.ltb_lt]; lia.
Qed.

Lemma get_payoff_valid self mine theirs :
  well_formed self -> valid_decision self mine -> valid_decision self theirs ->
  exists matrix row v,
    designs self !! Z.to_nat (design mine) = Some matrix /\
    matrix !! Z.to_nat (strategy mine) = Some row /\
    row !! Z.to_nat (strategy theirs) = Some v /\
    get_payoff self mine theirs = Ok v.
Proof.
  intros Hwf [Hs Hd] [Hs' _].
  destruct (py_index_in_range (designs self) (design mine) Hd) as (matrix & Hm & Hpm).
  assert (Hmwf : length matrix = 2%nat /\
                 Forall (fun row : list R => length row = 2%nat) matrix).
  { eapply (proj1 (Forall_lookup _ _) Hwf); exact Hm. }
  destruct Hmwf as [Hlen Hrows].
  destruct (py_index_in_range matrix (strategy mine)) as (row & Hr & Hpr); [lia|].
  assert (Hrl : length row = 2%nat).
  { eapply (proj1 (Forall_lookup _ _) Hrows); exact Hr. }
  destruct (py_index_in_range row (strategy theirs)) as (v & Hv & Hpv); [lia|].
  exists matrix, row, v. repeat split; try assumption.
  unfold get_payoff. rewrite Hpm. simpl. rewrite Hpr. simpl. exact Hpv.
Qed.

(** C1.  On a payoff model whose designs are 2x2 tables, [get_payoff] of two
    valid decisions returns the entry
    [designs[mine.design][mine.strategy][theirs.strategy]]; it returns the
    same for every opponent decision with that strategy, whatever its
    design. *)
Theorem get_payoff_own_design_their_strategy self mine theirs :
  well_formed self -> valid_decision self mine -> valid_decision self theirs ->
  exists matrix row v,
    designs self !! Z.to_nat (design mine) = Some matrix /\
    matrix !! Z.to_nat (strategy mine) = Some row /\
    row !! Z.to_nat (strategy theirs) = Some v /\
    get_payoff self mine theirs = Ok v /\
    forall theirs',
      strategy theirs' = strategy theirs -> get_payoff self mine theirs' = Ok v.
Proof.
  intros Hwf Hm Ht.
  destruct (get_payoff_valid self mine theirs Hwf Hm Ht) as (matrix & row & v & H1 & H2 & H3 & H4).
  exists matrix, row, v. repeat split; try assumption.
  intros theirs' Hsame. rewrite <- H4. unfold get_payoff. rewrite Hsame. reflexivity.
Qed.

Ltac play_cbn := cbn -[get_decision report_result get_payoff invalid_decision].

Ltac play_step H := rewrite H; play_cbn.

Ltac play_unfold :=
  unfold play, play_m, M_bind, call_get_decision, call_report_result, check_decision,
    M_lift, M_ret, logged, set_agent, agent; play_cbn.

Lemma play_first_raises self p1 p2 p1a e :
  get_decision p1 = (p1a, Raise e) ->
  play self p1 p2 = (mkWorld p1a p2 [G1], Raise (Exception e)).
Proof. intros H1. play_unfold. play_step H1. reflexivity. Qed.

Lemma play_first_invalid self p1 p2 p1a d1 :
  get_decision p1 = (p1a, Ok d1) -> invalid_decision self d1 = true ->
  play self p1 p2 = (mkWorld p1a p2 [G1], Raise (InvalidDecisionError p1a d1)).
Proof. intros H1 Hi. play_unfold. play_step H1. play_step Hi. reflexivity. Qed.

Lemma play_second_raises self p1 p2 p1a d1 p2a e :
  get_decision p1 = (p1a, Ok d1) -> invalid_decision self d1 = false ->
  get_decision p2 = (p2a, Raise e) ->
  play self p1 p2 = (mkWorld p1a p2a [G1; G2], Raise (Exception e)).
Proof.
  intros H1 Hi H2. play_unfold. play_step H1. play_step Hi. play_step H2. reflexivity.
Qed.

Lemma play_second_invalid self p1 p2 p1a d1 p2a d2 :
  get_decision p1 = (p1a, Ok d1) -> invalid_decision self d1 = false ->
  get_decision p2 = (p2a, Ok d2) -> invalid_decision self d2 = true ->
  play self p1 p2 = (mkWorld p1a p2a [G1; G2], Raise (InvalidDecisionError p2a d2)).
Proof.
  intros H1 Hi H2 Hi2. play_unfold.
  play_step H1. play_step Hi. play_step H2. play_step Hi2. reflexivity.
Qed.

Lemma play_first_payoff_raises self p1 p2 p1a d1 p2a d2 e :
  get_decision p1 = (p1a, Ok d1) -> invalid_decision self d1 = false ->
  get_decision p2 = (p2a, Ok d2) -> invalid_decision self d2 = false ->
  get_payoff self d1 d2 = Raise e ->
  play self p1 p2 = (mkWorld p1a p2a [G1; G2], Raise (Exception e)).
Proof.
  intros H1 Hi H2 Hi2 Hp. play_unfold.
  play_step H1. play_step Hi. play_step H2. play_step Hi2. play_step Hp. reflexivity.
Qed.

Lemma play_second_payoff_raises self p1 p2 p1a d1 p2a d2 v1 e :
  get_decision p1 = (p1a, Ok d1) -> invalid_decision self d1 = false ->
  get_decision p2 = (p2a, Ok d2) -> invalid_decision self d2 = false ->
  get_payoff self d1 d2 = Ok v1 -> get_payoff self d2 d1 = Raise e ->
  play self p1 p2 = (mkWorld p1a p2a [G1; G2], Raise (Exception e)).
Proof.
  intros H1 Hi H2 Hi2 Hp Hq. play_unfold.
  play_step H1. play_step Hi. play_step H2. play_step Hi2. play_step Hp. play_step Hq.
  reflexivity.
Qed.

Lemma play_first_report_raises self p1 p2 p1a d1 p2a d2 v1 v2 p1b e :
  get_decision p1 = (p1a, Ok d1) -> invalid_decision self d1 = false ->
  get_decision p2 = (p2a, Ok d2) -> invalid_decision self d2 = false ->
  get_payoff self d1 d2 = Ok v1 -> get_payoff self d2 d1 = Ok v2 ->
  report_result p1a (mkResult d1 v1 d2 v2) = (p1b, Raise e) ->
  play self p1 p2 =
    (mkWorld p1b p2a [G1; G2; CallReportResult First (mkResult d1 v1 d2 v2)],
     Raise (Exception e)).
Proof.
  intros H1 Hi H2 Hi2 Hp Hq Hr. play_unfold.
  play_step H1. play_step Hi. play_step H2. play_step Hi2. play_step Hp. play_step Hq.
  play_step Hr. reflexivity.
Qed.

Lemma play_second_report_raises self p1 p2 p1a d1 p2a d2 v1 v2 p1b p2b e :
  get_decision p1 = (p1a, Ok d1) -> invalid_decision self d1 = false ->
  get_decision p2 = (p2a, Ok d2) -> invalid_decision self d2 = false ->
  get_payoff self d1 d2 = Ok v1 -> get_payoff self d2 d1 = Ok v2 ->
  report_result p1a (mkResult d1 v1 d2 v2) = (p1b, Ok tt) ->
  report_result p2a (mkResult d2 v2 d1 v1) = (p2b, Raise e) ->
  play self p1 p2 =
    (mkWorld p1b p2b
       [G1; G2; CallReportResult First (mkResult d1 v1 d2 v2);
        CallReportResult Second (mkResult d2 v2 d1 v1)],
     Raise (Exception e)).
Proof.
  intros H1 Hi H2 Hi2 Hp Hq Hr Hs. play_unfold.
  play_step H1. play_step Hi. play_step H2. play_step Hi2. play_step Hp. play_step Hq.
  play_step Hr. play_step Hs. reflexivity.
Qed.

Lemma play_both_reported self p1 p2 p1a d1 p2a d2 v1 v2 p1b p2b :
  get_decision p1 = (p1a, Ok d1) -> invalid_decision self d1 = false ->
  get_decision p2 = (p2a, Ok d2) -> invalid_decision self d2 = false ->
  get_payoff self d1 d2 = Ok v1 -> get_payoff self d2 d1 = Ok v2 ->
  report_result p1a (mkResult d1 v1 d2 v2) = (p1b, Ok tt) ->
  report_result p2a (mkResult d2 v2 d1 v1) = (p2b, Ok tt) ->
  play self p1 p2 =
    (mkWorld p1b p2b
       [G1; G2; CallReportResult First (mkResult d1 v1 d2 v2);
        CallReportResult Second (mkResult d2 v2 d1 v1)],
     Ok (mkResult d1 v1 d2 v2)).
Proof.
  intros H1 Hi H2 Hi2 Hp Hq Hr Hs. play_unfold.
  play_step H1. play_step Hi. play_step H2. play_step Hi2. play_step Hp. play_step Hq.
  play_step Hr. play_step Hs. reflexivity.
Qed.

(** [play] goes one of the ways [play_run] lists. *)
Lemma play_runs self p1 p2 : play_run self p1 p2 (play self p1 p2).
Proof.
  destruct (get_decision p1) as [p1a [d1|e]] eqn:H1.
  2: { rewrite (play_first_raises self _ p2 _ _ H1). eapply run_first_raises; eauto. }
  destruct (invalid_decision self d1) eqn:Hi1.
  { rewrite (play_first_invalid self _ p2 _ _ H1 Hi1). eapply run_first_invalid; eauto. }
  destruct (get_decision p2) as [p2a [d2|e]] eqn:H2.
  2: { rewrite (play_second_raises self _ _ _ _ _ _ H1 Hi1 H2).
       eapply run_second_raises; eauto. }
  destruct (invalid_decision self d2) eqn:Hi2.
  { rewrite (play_second_invalid self _ _ _ _ _ _ H1 Hi1 H2 Hi2).
    eapply run_second_invalid; eauto. }
  destruct (get_payoff self d1 d2) as [v1|e] eqn:Hv1.
  2: { rewrite (play_first_payoff_raises self _ _ _ _ _ _ _ H1 Hi1 H2 Hi2 Hv1).
       eapply run_payoff_raises; eauto. }
  destruct (get_payoff self d2 d1) as [v2|e] eqn:Hv2.
  2: { rewrite (play_second_payoff_raises self _ _ _ _ _ _ _ _ H1 Hi1 H2 Hi2 Hv1 Hv2).
       eapply run_payoff_raises; eauto. }
  destruct (report_result p1a (mkResult d1 v1 d2 v2)) as [p1b [[]|e]] eqn:Hr1.
  2: { rewrite (play_first_report_raises self _ _ _ _ _ _ _ _ _ _
                  H1 Hi1 H2 Hi2 Hv1 Hv2 Hr1).
       eapply run_first_report_raises; eauto. }
  destruct (report_result p2a (mkResult d2 v2 d1 v1)) as [p2b [[]|e]] eqn:Hr2.
  2: { rewrite (play_second_report_raises self _ _ _ _ _ _ _ _ _ _ _
                  H1 Hi1 H2 Hi2 Hv1 Hv2 Hr1 Hr2).
       eapply run_second_report_raises; eauto. }
  rewrite (play_both_reported self _ _ _ _ _ _ _ _ _ _ H1 Hi1 H2 Hi2 Hv1 Hv2 Hr1 Hr2).
  eapply run_returns; eauto.
Qed.

Lemma get_decision_name p : name (fst (get_decision p)) = name p.
Proof. unfold get_decision. destruct (get_decision_method p (state p)). reflexivity. Qed.

Lemma report_result_name p r : name (fst (report_result p r)) = name p.
Proof.
  unfold report_result. destruct (report_result_method p (state p) r). reflexivity.
Qed.

(** [play] never renames an agent. *)
Lemma play_names self p1 p2 :
  name (player_1 (fst (play self p1 p2))) = name p1 /\
  name (player_2 (fst (play self p1 p2))) = name p2.
Proof.
  destruct (play_runs self p1 p2);
    repeat match goal with
      | H : get_decision ?p = (?q, _) |- _ =>
          let E := fresh in
          assert (E : name q = name p)
            by (rewrite <- (get_decision_name p), H; reflexivity);
          clear H
      | H : report_result ?p ?r = (?q, _) |- _ =>
          let E := fresh in
          assert (E : name q = name p)
            by (rewrite <- (report_result_name p r), H; reflexivity);
          clear H
      end; cbn; split; congruence.
Qed.

(** Where [play] stops on an invalid decision: the offender is the agent
    the world holds on that side, under the name it was given, and the only
    calls made are the [get_decision] calls up to it. *)
Lemma play_invalid_offender self p1 p2 w player d :
  play self p1 p2 = (w, Raise (InvalidDecisionError player d)) ->
  existsb is_report (calls w) = false /\
  ((player = player_1 w /\ name player = name p1 /\ calls w = [G1]) \/
   (player = player_2 w /\ name player = name p2 /\ calls w = [G1; G2])).
Proof.
  intros Hplay.
  destruct (play_runs self p1 p2) as [ | ? ? H1 | | ? ? ? ? H1 ? H2 | | | | ];
    try discriminate; injection Hplay as <- -> ->; cbn.
  - split; [reflexivity|]. left. repeat split.
    rewrite <- (get_decision_name p1), H1. reflexivity.
  - split; [reflexivity|]. right. repeat split.
    rewrite <- (get_decision_name p2), H2. reflexivity.
Qed.

(** C2.  [play] fails with [InvalidDecisionError] exactly when the first
    agent returns a decision outside its domain, or the first returns a valid
    one and the second returns one outside its domain.  The error carries
    that agent, as its [get_decision] left it, and the decision as returned;
    no result was reported to either agent, and no [Result] was made. *)
Theorem play_invalid_decision self p1 p2 :
  (forall player d,
      snd (play self p1 p2) = Raise (InvalidDecisionError player d) <->
      (get_decision p1 = (player, Ok d) /\ ~ valid_decision self d) \/
      (exists p1a d1,
          get_decision p1 = (p1a, Ok d1) /\ valid_decision self d1 /\
          get_decision p2 = (player, Ok d) /\ ~ valid_decision self d)) /\
  (forall w player d,
      play self p1 p2 = (w, Raise (InvalidDecisionError player d)) ->
      existsb is_report (calls w) = false /\
      ((player = player_1 w /\ name player = name p1 /\ calls w = [G1]) \/
       (player = player_2 w /\ name player = name p2 /\ calls w = [G1; G2]))).
Proof.
  split.
  - intros player d. split.
    + intros Hfail.
      destruct (play_runs self p1 p2); cbn in Hfail; try discriminate;
        injection Hfail as -> ->.
      * left. split; [assumption|]. apply invalid_decision_true. assumption.
      * right. exists p1a, d1.
        split; [assumption|]. split; [apply invalid_decision_false; assumption|].
        split; [assumption|]. apply invalid_decision_true. assumption.
    + intros [[H1 Hv]|(p1a & d1 & H1 & Hv1 & H2 & Hv2)].
      * apply invalid_decision_true in Hv.
        rewrite (play_first_invalid self _ p2 _ _ H1 Hv). reflexivity.
      * apply invalid_decision_false in Hv1. apply invalid_decision_true in Hv2.
        rewrite (play_second_invalid self _ _ _ _ _ _ H1 Hv1 H2 Hv2). reflexivity.
  - intros w player d Hplay. exact (play_invalid_offender self p1 p2 w player d Hplay).
Qed.

(** C9, as the code has it.  When both agents return valid decisions, on a
    payoff model of 2x2 tables, [play] computes the two payoffs with
    [get_payoff] and calls [report_result] on the first agent with its own
    decision and payoff first and the opponent's second.  If that call
    raises, the exception leaves [play] and the second agent is not reported
    to.  Otherwise [play] calls [report_result] on the second agent with the
    same result seen from its seat; if that call raises, the exception
    leaves [play]; otherwise [play] returns the first agent's [Result].
    These calls, after the two [get_decision] calls, are all [play] does to
    the agents. *)
Theorem play_valid_decisions self p1 p2 p1a p2a d1 d2 :
  well_formed self ->
  get_decision p1 = (p1a, Ok d1) -> get_decision p2 = (p2a, Ok d2) ->
  valid_decision self d1 -> valid_decision self d2 ->
  exists payoff_1 payoff_2,
    get_payoff self d1 d2 = Ok payoff_1 /\
    get_payoff self d2 d1 = Ok payoff_2 /\
    let result_1 := mkResult d1 payoff_1 d2 payoff_2 in
    let result_2 := mkResult d2 payoff_2 d1 payoff_1 in
    play self p1 p2 =
      match report_result p1a result_1 with
      | (p1b, Raise e) =>
          (mkWorld p1b p2a [G1; G2; CallReportResult First result_1],
           Raise (Exception e))
      | (p1b, Ok _) =>
          match report_result p2a result_2 with
          | (p2b, Raise e) =>
              (mkWorld p1b p2b
                 [G1; G2; CallReportResult First result_1;
                  CallReportResult Second result_2],
               Raise (Exception e))
          | (p2b, Ok _) =>
              (mkWorld p1b p2b
                 [G1; G2; CallReportResult First result_1;
                  CallReportResult Second result_2],
               Ok result_1)
          end
      end.
Proof.
  intros Hwf H1 H2 Hv1 Hv2.
  destruct (get_payoff_valid self d1 d2 Hwf Hv1 Hv2) as (? & ? & v1 & _ & _ & _ & Hp1).
  destruct (get_payoff_valid self d2 d1 Hwf Hv2 Hv1) as (? & ? & v2 & _ & _ & _ & Hp2).
  exists v1, v2. split; [assumption|]. split; [assumption|]. cbn zeta.
  apply invalid_decision_false in Hv1, Hv2.
  destruct (report_result p1a (mkResult d1 v1 d2 v2)) as [p1b [[]|e1]] eqn:E1.
  - destruct (report_result p2a (mkResult d2 v2 d1 v1)) as [p2b [[]|e2]] eqn:E2.
    + apply (play_both_reported self p1 p2 p1a d1 p2a d2 v1 v2 p1b p2b); assumption.
    + apply (play_second_report_raises self p1 p2 p1a d1 p2a d2 v1 v2 p1b p2b e2);
        assumption.
  - apply (play_first_report_raises self p1 p2 p1a d1 p2a d2 v1 v2 p1b e1); assumption.
Qed.

End GameFacts.

(** A model with two designs; the first agent collaborates on the second
    design, the other plays [Decision()]. *)
Definition two_designs : Game.DesignGame float :=
  Game.mkDesignGame [[[3; 0]; [5; 1]]; [[2; 0]; [7; 4]]]%float.

Lemma two_designs_well_formed : Game.well_formed two_designs.
Proof. repeat constructor. Qed.

Lemma get_payoff_own_design_their_strategy_witness :
  exists matrix row v,
    Game.designs two_designs !! Z.to_nat 1 = Some matrix /\
    matrix !! Z.to_nat 1 = Some row /\
    row !! Z.to_nat 0 = Some v /\
    Game.get_payoff two_designs (Game.mkDecision 1 1) (Game.mkDecision 0 0) = Ok v /\
    forall theirs',
      Game.strategy theirs' = 0 ->
      Game.get_payoff two_designs (Game.mkDecision 1 1) theirs' = Ok v.
Proof.
  apply (get_payoff_own_design_their_strategy two_designs
           (Game.mkDecision 1 1) (Game.mkDecision 0 0)).
  - exact two_designs_well_formed.
  - unfold Game.valid_decision; cbn; lia.
  - unfold Game.valid_decision; cbn; lia.
Defined.

(** An agent that plays [Decision()] and whose [report_result] raises. *)
Definition ungrateful_player : Game.Player float :=
  Game.mkPlayer unit "ungrateful" tt
    (fun s => (s, Ok Game.Decision_default))
    (fun s _ => (s, Raise (RuntimeError "unwanted"))).

(** Both decisions are valid, the first agent's [report_result] raises:
    [play] returns no [Result] and never reports to the second agent. *)
Lemma play_report_result_raises :
  snd (Game.get_decision ungrateful_player) = Ok Game.Decision_default /\
  snd (Game.get_decision (Game.Player_init two_designs "null")) =
    Ok Game.Decision_default /\
  Game.invalid_decision two_designs Game.Decision_default = false /\
  Game.play two_designs ungrateful_player (Game.Player_init two_designs "null") =
    (Game.mkWorld ungrateful_player (Game.Player_init two_designs "null")
       [Game.G1; Game.G2;
        Game.CallReportResult Game.First
          (Game.mkResult Game.Decision_default 3%float Game.Decision_default 3%float)],
     Raise (Game.Exception (RuntimeError "unwanted"))).
Proof. repeat split. Qed.

(** * Properties of hunt/tournament.py *)

Section TournamentFacts.
Import Game Tournament.
Context {R : Type} `{Number R}.
Implicit Types (self : Tournament R) (s : attrs R) (game : DesignGame R).

(** ** One replicate *)

Lemma run_rep_success game g n rep s v w res :
  play game (game_player_1 v) (game_player_2 v) = (w, Ok res) ->
  run_rep game g n rep (s, v) =
    (append_rep
       (mkRepEntry g rep
          (mkPlayerEntry (name (player_1 w)) (design (my_decision res))
             (strategy (my_decision res)) (my_payoff res))
          (mkPlayerEntry (name (player_2 w)) (design (their_decision res))
             (strategy (their_decision res)) (their_payoff res)))
       s,
     mkGameVars (player_1 w) (player_2 w)
       (nadd (p1_game_score v) (ndiv (my_payoff res) (of_int n)))
       (nadd (p2_game_score v) (ndiv (their_payoff res) (of_int n)))).
Proof. intros Hplay. unfold run_rep. rewrite Hplay. reflexivity. Qed.

Lemma run_rep_invalid game g n rep s v w player d :
  play game (game_player_1 v) (game_player_2 v) =
    (w, Raise (InvalidDecisionError player d)) ->
  run_rep game g n rep (s, v) =
    (append_error
       (InvalidEntry g rep (name player) (design d) (strategy d)
          (InvalidDecisionError player d))
       s,
     mkGameVars (player_1 w) (player_2 w) (p1_game_score v) (p2_game_score v)).
Proof. intros Hplay. unfold run_rep. rewrite Hplay. reflexivity. Qed.

Lemma run_rep_failure game g n rep s v w e :
  play game (game_player_1 v) (game_player_2 v) = (w, Raise (Exception e)) ->
  run_rep game g n rep (s, v) =
    (append_error (FailureEntry g rep (name (player_1 w)) (name (player_2 w)) e) s,
     mkGameVars (player_1 w) (player_2 w) (p1_game_score v) (p2_game_score v)).
Proof. intros Hplay. unfold run_rep. rewrite Hplay. reflexivity. Qed.

(** What a replicate adds to the logs and to the scores. *)
Inductive rep_logged game g n rep (s : attrs R) (v : game_vars R)
  : attrs R * game_vars R -> Prop :=
| rep_credited e v' :
    rep_game e = g -> rep_rep e = rep ->
    entry_name (rep_player_1 e) = name (game_player_1 v) ->
    entry_name (rep_player_2 e) = name (game_player_2 v) ->
    p1_game_score v' =
      nadd (p1_game_score v) (ndiv (entry_payoff (rep_player_1 e)) (of_int n)) ->
    p2_game_score v' =
      nadd (p2_game_score v) (ndiv (entry_payoff (rep_player_2 e)) (of_int n)) ->
    is_ok (snd (play game (game_player_1 v) (game_player_2 v))) = true ->
    rep_logged game g n rep s v (append_rep e s, v')
| rep_invalid player d v' :
    (name player = name (game_player_1 v) \/ name player = name (game_player_2 v)) ->
    snd (play game (game_player_1 v) (game_player_2 v)) =
      Raise (InvalidDecisionError player d) ->
    p1_game_score v' = p1_game_score v ->
    p2_game_score v' = p2_game_score v ->
    rep_logged game g n rep s v
      (append_error
         (InvalidEntry g rep (name player) (design d) (strategy d)
            (InvalidDecisionError player d)) s, v')
| rep_failed e v' :
    snd (play game (game_player_1 v) (game_player_2 v)) = Raise (Exception e) ->
    p1_game_score v' = p1_game_score v ->
    p2_game_score v' = p2_game_score v ->
    rep_logged game g n rep s v
      (append_error
         (FailureEntry g rep (name (game_player_1 v)) (name (game_player_2 v)) e) s, v').

Lemma run_rep_logged game g n rep s v :
  rep_logged game g n rep s v (run_rep game g n rep (s, v)) /\
  name (game_player_1 (snd (run_rep game g n rep (s, v)))) = name (game_player_1 v) /\
  name (game_player_2 (snd (run_rep game g n rep (s, v)))) = name (game_player_2 v).
Proof.
  destruct (play_names game (game_player_1 v) (game_player_2 v)) as [N1 N2].
  destruct (play game (game_player_1 v) (game_player_2 v)) as [w [res|[player d|e]]] eqn:Hplay;
    cbn in N1, N2.
  - rewrite (run_rep_success _ _ _ _ _ _ _ _ Hplay). cbn. split; [|auto].
    apply rep_credited; cbn; try reflexivity; try assumption.
    rewrite Hplay. reflexivity.
  - rewrite (run_rep_invalid _ _ _ _ _ _ _ _ _ Hplay). cbn. split; [|auto].
    apply rep_invalid; cbn; try reflexivity.
    + destruct (play_invalid_offender game (game_player_1 v) (game_player_2 v)
                  w player d Hplay) as [_ [(_ & Hn & _)|(_ & Hn & _)]]; auto.
    + rewrite Hplay. reflexivity.
  - rewrite (run_rep_failure _ _ _ _ _ _ _ _ Hplay). cbn. split; [|auto].
    rewrite N1, N2. apply rep_failed; cbn; try reflexivity.
    rewrite Hplay. reflexivity.
Qed.

(** ** The replicates of one game *)

(** The loop over the replicates [l] of a game: one log entry per replicate,
    scores summed over the replicates that returned. *)
Lemma reps_loop_logged game g n (l : list nat) s v :
  exists errs reps,
    let sv := fold_left (fun sv rep => run_rep game g n rep sv) l (s, v) in
    error_results (fst sv) = error_results s ++ errs /\
    rep_results (fst sv) = rep_results s ++ reps /\
    (length errs + length reps = length l)%nat /\
    p1_game_score (snd sv) = credited rep_player_1 n reps (p1_game_score v) /\
    p2_game_score (snd sv) = credited rep_player_2 n reps (p2_game_score v) /\
    Forall (fun e => rep_game e = g /\ In (rep_rep e) l) reps /\
    Forall (fun e =>
              error_game e = g /\ In (error_rep e) l /\
              exists who, In who (error_names e) /\
                          (who = name (game_player_1 v) \/ who = name (game_player_2 v)))
      errs /\
    results (fst sv) = results s /\
    game_results (fst sv) = game_results s /\
    match_results (fst sv) = match_results s /\
    rng_calls (fst sv) = rng_calls s /\
    name (game_player_1 (snd sv)) = name (game_player_1 v) /\
    name (game_player_2 (snd sv)) = name (game_player_2 v).
Proof.
  revert s v. induction l as [|rep l IH]; intros s v.
  - exists [], []. cbn. rewrite !app_nil_r. repeat split; constructor.
  - cbn [fold_left].
    destruct (run_rep_logged game g n rep s v) as (Hlog & N1 & N2).
    destruct (run_rep game g n rep (s, v)) as [s1 v1]. cbn [snd] in N1, N2.
    destruct (IH s1 v1) as (errs & reps & IHs). cbn zeta in IHs.
    destruct IHs as (E & P & L & S1 & S2 & FR & FE & R1 & R2 & R3 & R4 & M1 & M2).
    assert (FR' : Forall (fun e => rep_game e = g /\ In (rep_rep e) (rep :: l)) reps).
    { eapply Forall_impl; [exact FR|]. cbn. intros e [? ?]. auto. }
    assert (FE' : Forall (fun e =>
              error_game e = g /\ In (error_rep e) (rep :: l) /\
              exists who, In who (error_names e) /\
                          (who = name (game_player_1 v) \/ who = name (game_player_2 v)))
              errs).
    { eapply Forall_impl; [exact FE|]. cbn. intros e (? & ? & who & ? & Hw).
      rewrite N1, N2 in Hw. eauto 8. }
    inversion Hlog; subst; cbn zeta.
    + exists errs, (e :: reps). rewrite E, P, R1, R2, R3, R4, M1, M2, S1, S2. cbn.
      rewrite <- !app_assoc. cbn.
      repeat match goal with H : p1_game_score _ = _ |- _ => rewrite H; clear H
                        | H : p2_game_score _ = _ |- _ => rewrite H; clear H end.
      split; [reflexivity|]. split; [reflexivity|]. split; [lia|].
      split; [reflexivity|]. split; [reflexivity|].
      split; [constructor; [cbn; auto|exact FR']|].
      split; [exact FE'|]. repeat split; assumption.
    + exists (InvalidEntry g rep (name player) (design d) (strategy d)
                (InvalidDecisionError player d) :: errs), reps.
      rewrite E, P, R1, R2, R3, R4, M1, M2, S1, S2. cbn.
      rewrite <- !app_assoc. cbn.
      repeat match goal with H : p1_game_score _ = _ |- _ => rewrite H; clear H
                        | H : p2_game_score _ = _ |- _ => rewrite H; clear H end.
      split; [reflexivity|]. split; [reflexivity|]. split; [lia|].
      split; [reflexivity|]. split; [reflexivity|].
      split; [exact FR'|].
      split; [constructor; [|exact FE']|repeat split; assumption].
      cbn. split; [reflexivity|]. split; [auto|]. exists (name player). auto.
    + exists (FailureEntry g rep (name (game_player_1 v)) (name (game_player_2 v)) e
                :: errs), reps.
      rewrite E, P, R1, R2, R3, R4, M1, M2, S1, S2. cbn.
      rewrite <- !app_assoc. cbn.
      repeat match goal with H : p1_game_score _ = _ |- _ => rewrite H; clear H
                        | H : p2_game_score _ = _ |- _ => rewrite H; clear H end.
      split; [reflexivity|]. split; [reflexivity|]. split; [lia|].
      split; [reflexivity|]. split; [reflexivity|].
      split; [exact FR'|].
      split; [constructor; [|exact FE']|repeat split; assumption].
      cbn. split; [reflexivity|]. split; [auto|]. exists (name (game_player_1 v)). auto.
Qed.

(** ** One game of a match *)

Lemma run_game_drawn self pair g game s mv n :
  (num_reps self = Some n \/
   num_reps self = None /\ geometric self (rng_calls s) = Ok n) ->
  exists errs reps s' p1 p2,
    let score_1 := credited rep_player_1 n reps nzero in
    let score_2 := credited rep_player_2 n reps nzero in
    let n_games := of_int (Z.of_nat (length (games self))) in
    run_game self pair (g, game) (s, mv) =
      ((s',
        mkMatchVars (Some (p1, p2))
          (nadd (p1_match_score mv) (ndiv score_1 n_games))
          (nadd (p2_match_score mv) (ndiv score_2 n_games))),
       Ok tt) /\
    error_results s' = error_results s ++ errs /\
    rep_results s' = rep_results s ++ reps /\
    (length errs + length reps = Z.to_nat n)%nat /\
    game_results s' =
      game_results s ++ [mkGameEntry g n ((name p1, score_1), (name p2, score_2))] /\
    Forall (fun e => rep_game e = g /\ (rep_rep e < Z.to_nat n)%nat) reps /\
    Forall (fun e =>
              error_game e = g /\ (error_rep e < Z.to_nat n)%nat /\
              exists who, In who (error_names e) /\ (who = name p1 \/ who = name p2))
      errs /\
    results s' = results s /\
    match_results s' = match_results s /\
    name p1 = name (fst pair (mkDesignGame (designs game))) /\
    name p2 = name (snd pair (mkDesignGame (designs game))).
Proof.
  intros Hn.
  set (q1 := fst pair (mkDesignGame (designs game))).
  set (q2 := snd pair (mkDesignGame (designs game))).
  set (s0 := match num_reps self with None => next_draw s | Some _ => s end).
  destruct (reps_loop_logged game g n (seq 0 (Z.to_nat n)) s0 (mkGameVars q1 q2 nzero nzero))
    as (errs & reps & Hloop).
  cbn zeta in Hloop. rewrite length_seq in Hloop.
  destruct Hloop as (E & P & L & S1 & S2 & FR & FE & R1 & R2 & R3 & R4 & M1 & M2).
  cbn [game_player_1 game_player_2 p1_game_score p2_game_score] in *.
  assert (Hrun : run_game self pair (g, game) (s, mv) =
    (let '(s1, v) :=
       fold_left (fun sv rep => run_rep game g n rep sv) (seq 0 (Z.to_nat n))
         (s0, mkGameVars q1 q2 nzero nzero) in
     ((append_game
         (mkGameEntry g n
            ((name (game_player_1 v), p1_game_score v),
             (name (game_player_2 v), p2_game_score v))) s1,
       mkMatchVars (Some (game_player_1 v, game_player_2 v))
         (nadd (p1_match_score mv)
            (ndiv (p1_game_score v) (of_int (Z.of_nat (length (games self))))))
         (nadd (p2_match_score mv)
            (ndiv (p2_game_score v) (of_int (Z.of_nat (length (games self))))))),
      Ok tt))).
  { unfold run_game, s0. fold q1 q2.
    destruct Hn as [Hn|[Hn Hg]]; rewrite Hn; [|rewrite Hg]; cbn;
      destruct (fold_left _ _ _); reflexivity. }
  destruct (fold_left _ _ _) as [s1 v] eqn:Hfold. cbn [fst snd] in *.
  exists errs, reps,
    (append_game
       (mkGameEntry g n
          ((name (game_player_1 v), p1_game_score v),
           (name (game_player_2 v), p2_game_score v))) s1),
    (game_player_1 v), (game_player_2 v).
  cbn zeta. rewrite Hrun, <- S1, <- S2. cbn.
  assert (Hs0e : error_results s0 = error_results s) by (unfold s0; destruct (num_reps self); reflexivity).
  assert (Hs0p : rep_results s0 = rep_results s) by (unfold s0; destruct (num_reps self); reflexivity).
  assert (Hs0g : game_results s0 = game_results s) by (unfold s0; destruct (num_reps self); reflexivity).
  assert (Hs0r : results s0 = results s) by (unfold s0; destruct (num_reps self); reflexivity).
  assert (Hs0m : match_results s0 = match_results s) by (unfold s0; destruct (num_reps self); reflexivity).
  split; [reflexivity|]. split; [congruence|]. split; [congruence|]. split; [exact L|].
  split; [congruence|].
  split.
  { eapply Forall_impl; [exact FR|]. cbn. intros e [? Hin]. split; [assumption|].
    apply in_seq in Hin. lia. }
  split.
  { eapply Forall_impl; [exact FE|]. cbn. intros e (? & Hin & who & ? & Hw).
    split; [assumption|]. split; [apply in_seq in Hin; lia|].
    exists who. split; [assumption|]. rewrite M1, M2. exact Hw. }
  repeat split; congruence.
Qed.

Lemma replication_usable_drawn self s :
  replication_usable self ->
  exists n, num_reps self = Some n \/
            num_reps self = None /\ geometric self (rng_calls s) = Ok n.
Proof.
  intros [[n Hn]|Hg].
  - exists n. auto.
  - destruct (num_reps self) as [n|] eqn:Hn; [exists n; auto|].
    specialize (Hg (rng_calls s)). destruct (geometric self (rng_calls s)) as [n|e];
      [exists n; auto|discriminate].
Qed.

(** ** The games of a match *)

Lemma last_enumerate_from {A} (l : list A) (a : nat) :
  last (combine (seq a (length l)) l) =
    (fun x => ((a + length l - 1)%nat, x)) <$> last l.
Proof.
  revert a. induction l as [|x l IH]; intros a; [reflexivity|].
  cbn [length seq combine]. destruct l as [|y l].
  - cbn. f_equal. f_equal. lia.
  - change (last (x :: y :: l)) with (last (y :: l)).
    change (last ((a, x) :: combine (seq (S a) (length (y :: l))) (y :: l)))
      with (last (combine (seq (S a) (length (y :: l))) (y :: l))).
    rewrite IH. destruct (last (y :: l)); cbn; [|reflexivity].
    f_equal. f_equal. lia.
Qed.

Lemma games_loop_returns self pair (gl : list (nat * DesignGame R)) s mv :
  replication_usable self ->
  exists s' mv',
    for_loop (run_game self pair) gl (s, mv) = ((s', mv'), Ok tt) /\
    results s' = results s /\
    match_results s' = match_results s /\
    match last gl with
    | None => mv' = mv
    | Some (_, game) =>
        exists p1 p2,
          bound_players mv' = Some (p1, p2) /\
          name p1 = name (fst pair (mkDesignGame (designs game))) /\
          name p2 = name (snd pair (mkDesignGame (designs game)))
    end.
Proof.
  intros Hu. revert s mv. induction gl as [|[g game] gl IH]; intros s mv.
  - exists s, mv. cbn. auto.
  - destruct (replication_usable_drawn self s Hu) as [n Hn].
    destruct (run_game_drawn self pair g game s mv n Hn)
      as (errs & reps & s1 & p1 & p2 & Hg).
    cbn zeta in Hg.
    destruct Hg as (Hrun & _ & _ & _ & _ & _ & _ & Hres & Hmat & N1 & N2).
    cbn [for_loop]. rewrite Hrun.
    match goal with |- context [for_loop _ gl (s1, ?m)] => set (mv1 := m) end.
    destruct (IH s1 mv1) as (s' & mv' & Hloop & Hres' & Hmat' & Hlast).
    exists s', mv'. split; [exact Hloop|]. split; [congruence|]. split; [congruence|].
    destruct gl as [|x gl].
    + cbn in Hlast. subst mv'. cbn. exists p1, p2. auto.
    + change (last ((g, game) :: x :: gl)) with (last (x :: gl)).
      destruct (last (x :: gl)) as [[? ?]|] eqn:Hl; [exact Hlast|].
      apply last_None in Hl. discriminate.
Qed.

(** ** One match *)

Lemma credit_lookup n k score factor (r : gmap string R) :
  credit n k score factor r !! k =
    Some (nadd (default nzero (r !! k)) (ndiv (nmul score factor) (of_int (Z.of_nat n)))).
Proof. unfold credit. apply lookup_insert_eq. Qed.

Lemma credit_lookup_ne n k k' score factor (r : gmap string R) :
  k <> k' -> credit n k score factor r !! k' = r !! k'.
Proof. intros Hne. unfold credit. apply lookup_insert_ne. exact Hne. Qed.

Lemma credit_is_Some n k k' score factor (r : gmap string R) :
  k = k' \/ is_Some (r !! k') -> is_Some (credit n k score factor r !! k').
Proof.
  intros [->|Hk].
  - rewrite credit_lookup. eauto.
  - destruct (decide (k = k')) as [->|Hne].
    + rewrite credit_lookup. eauto.
    + rewrite credit_lookup_ne by exact Hne. exact Hk.
Qed.

Lemma run_match_returns self pair s bound :
  replication_usable self -> games self <> [] ->
  exists s1 p1 p2 score_1 score_2 game,
    last (games self) = Some game /\
    for_loop (run_game self pair) (enumerate (games self))
      (s, mkMatchVars bound nzero nzero) =
      ((s1, mkMatchVars (Some (p1, p2)) score_1 score_2), Ok tt) /\
    results s1 = results s /\
    name p1 = name (fst pair (mkDesignGame (designs game))) /\
    name p2 = name (snd pair (mkDesignGame (designs game))) /\
    run_match self pair (s, bound) =
      ((set_results
          (credit (length (players self)) (name p2) score_2 (match_factor p1 p2)
             (credit (length (players self)) (name p1) score_1 (match_factor p1 p2)
                (results s1)))
          (append_match (mkMatchEntry ((name p1, score_1), (name p2, score_2))) s1),
        Some (p1, p2)),
       Ok tt).
Proof.
  intros Hu Hne.
  destruct (games_loop_returns self pair (enumerate (games self)) s
              (mkMatchVars bound nzero nzero) Hu)
    as (s1 & mv' & Hloop & Hres & _ & Hlast).
  unfold enumerate in Hlast. rewrite last_enumerate_from in Hlast.
  destruct (last (games self)) as [game|] eqn:Hg.
  2: { apply last_None in Hg. contradiction. }
  cbn in Hlast. destruct Hlast as (p1 & p2 & Hb & N1 & N2).
  destruct mv' as [b sc1 sc2]. cbn in Hb. subst b.
  exists s1, p1, p2, sc1, sc2, game.
  split; [reflexivity|]. split; [exact Hloop|]. split; [exact Hres|].
  split; [exact N1|]. split; [exact N2|].
  unfold run_match. rewrite Hloop. reflexivity.
Qed.

(** ** The matches of a tournament *)

Lemma matches_loop_returns self
  (ml : list ((DesignGame R -> Player R) * (DesignGame R -> Player R))) s bound game :
  replication_usable self -> last (games self) = Some game ->
  exists s' bound',
    for_loop (run_match self) ml (s, bound) = ((s', bound'), Ok tt) /\
    (forall k, is_Some (results s !! k) -> is_Some (results s' !! k)) /\
    forall pair, In pair ml ->
      is_Some (results s' !! name (fst pair (mkDesignGame (designs game)))) /\
      is_Some (results s' !! name (snd pair (mkDesignGame (designs game)))).
Proof.
  intros Hu Hlast.
  assert (Hne : games self <> []) by (intros E; rewrite E in Hlast; discriminate).
  revert s bound. induction ml as [|pair ml IH]; intros s bound.
  - exists s, bound. cbn. split; [reflexivity|]. split; [auto|]. intros ? [].
  - destruct (run_match_returns self pair s bound Hu Hne)
      as (s1 & p1 & p2 & sc1 & sc2 & game' & Hlast' & _ & Hres & N1 & N2 & Hrun).
    assert (game' = game) by congruence. subst game'.
    cbn [for_loop]. rewrite Hrun.
    match goal with |- context [for_loop _ ml (?x, ?b)] =>
      destruct (IH x b) as (s' & bound' & Hloop & Hmono & Hin) end.
    exists s', bound'. split; [exact Hloop|].
    cbn [results set_results] in Hmono.
    split.
    + intros k Hk. apply Hmono. apply credit_is_Some. right.
      apply credit_is_Some. right. rewrite Hres. exact Hk.
    + intros pair' [<-|Hin']; [|apply Hin; exact Hin'].
      split; apply Hmono.
      * apply credit_is_Some. right. apply credit_is_Some. left. exact N1.
      * apply credit_is_Some. left. exact N2.
Qed.

Lemma combinations_with_replacement_2_diagonal {A} (l : list A) (x : A) :
  In x l -> In (x, x) (combinations_with_replacement_2 l).
Proof.
  induction l as [|y l IH]; intros Hin; [destruct Hin|].
  cbn [combinations_with_replacement_2]. apply in_or_app.
  destruct Hin as [->|Hin].
  - left. cbn. left. reflexivity.
  - right. apply IH. exact Hin.
Qed.

Lemma run_returns_names self s game :
  replication_usable self -> last (games self) = Some game ->
  exists m,
    snd (run self s) = Ok m /\ results (fst (run self s)) = m /\
    forall c, In c (players self) ->
      is_Some (m !! name (c (mkDesignGame (designs game)))).
Proof.
  intros Hu Hlast. unfold run.
  destruct (matches_loop_returns self (combinations_with_replacement_2 (players self))
              (mkAttrs (rng_calls s) [] [] [] [] ∅) None game Hu Hlast)
    as (s' & bound' & Hloop & _ & Hin).
  rewrite Hloop. cbn. exists (results s'). split; [reflexivity|]. split; [reflexivity|].
  intros c Hc.
  apply (Hin (c, c)). apply combinations_with_replacement_2_diagonal. exact Hc.
Qed.

(** C3, at a tournament with players and no game: the match log reads
    [player_1], which no game has bound, and [run] raises instead of
    returning a result map. *)
Theorem run_without_games_raises (c : DesignGame R -> Player R)
  (cs : list (DesignGame R -> Player R)) (n : option Z) (draws : nat -> outcome exn Z)
  (s : attrs R) :
  snd (run (mkTournament (c :: cs) [] n draws) s) = Raise UnboundLocalError.
Proof. reflexivity. Qed.

(** X2.  With at least one game and a replicate count for every game,
    [run] returns the result map it has built, and the map has a bucket for
    the display name of every player, however many replicates failed. *)
Theorem run_returns_complete_map self s :
  games self <> [] -> replication_usable self ->
  exists m game,
    snd (run self s) = Ok m /\ results (fst (run self s)) = m /\
    last (games self) = Some game /\
    forall c, In c (players self) ->
      is_Some (m !! name (c (mkDesignGame (designs game)))).
Proof.
  intros Hne Hu.
  destruct (last (games self)) as [game|] eqn:Hlast.
  2: { apply last_None in Hlast. contradiction. }
  destruct (run_returns_names self s game Hu Hlast) as (m & Hm & Hr & Hc).
  exists m, game. auto.
Qed.

(** The replicates of a game as [play] runs them: for each replicate index
    the world [play] leaves and how it ended, the next replicate being
    played by the agents the last one left. *)
Fixpoint replicates (game : DesignGame R) (reps : list nat) (p1 p2 : Player R)
  : list (nat * world R * outcome (play_error R) (Result R)) :=
  match reps with
  | [] => []
  | rep :: t =>
      (rep, fst (play game p1 p2), snd (play game p1 p2))
        :: replicates game t (player_1 (fst (play game p1 p2)))
             (player_2 (fst (play game p1 p2)))
  end.

(** The [rep_results] entry of a replicate that returned: the two names and
    the decisions and payoffs of the [Result]. *)
Definition logged_rep (g : nat) (name_1 name_2 : string)
  (x : nat * world R * outcome (play_error R) (Result R)) : option (rep_entry R) :=
  match x with
  | (rep, _, Ok res) =>
      Some (mkRepEntry g rep
              (mkPlayerEntry name_1 (design (my_decision res))
                 (strategy (my_decision res)) (my_payoff res))
              (mkPlayerEntry name_2 (design (their_decision res))
                 (strategy (their_decision res)) (their_payoff res)))
  | (_, _, Raise _) => None
  end.

(** The [error_results] entry of a replicate that raised. *)
Definition logged_error (g : nat) (name_1 name_2 : string)
  (x : nat * world R * outcome (play_error R) (Result R)) : option (error_entry R) :=
  match x with
  | (_, _, Ok _) => None
  | (rep, _, Raise (InvalidDecisionError player decision)) =>
      Some (InvalidEntry g rep (name player) (design decision) (strategy decision)
              (InvalidDecisionError player decision))
  | (rep, _, Raise (Exception e)) => Some (FailureEntry g rep name_1 name_2 e)
  end.

Lemma reps_loop_replicates game g n (l : list nat) s v :
  let sv := fold_left (fun sv rep => run_rep game g n rep sv) l (s, v) in
  let plays := replicates game l (game_player_1 v) (game_player_2 v) in
  error_results (fst sv) =
    error_results s ++
    omap (logged_error g (name (game_player_1 v)) (name (game_player_2 v))) plays /\
  rep_results (fst sv) =
    rep_results s ++
    omap (logged_rep g (name (game_player_1 v)) (name (game_player_2 v))) plays.
Proof.
  cbn zeta. revert s v. induction l as [|rep l IH]; intros s v.
  - cbn. rewrite !app_nil_r. split; reflexivity.
  - cbn [fold_left replicates].
    destruct (play_names game (game_player_1 v) (game_player_2 v)) as [N1 N2].
    destruct (play game (game_player_1 v) (game_player_2 v))
      as [w [res|[player d|e]]] eqn:Hplay; cbn [fst snd] in *.
    + rewrite (run_rep_success _ _ _ _ _ _ _ _ Hplay). rewrite ?N1, ?N2.
      match goal with |- context [fold_left _ l (?s1, ?v1)] =>
        destruct (IH s1 v1) as [E P] end.
      cbn [game_player_1 game_player_2 error_results rep_results append_rep] in E, P.
      rewrite ?N1, ?N2 in E, P. rewrite E, P. cbn [omap logged_error logged_rep].
      rewrite <- !app_assoc. split; reflexivity.
    + rewrite (run_rep_invalid _ _ _ _ _ _ _ _ _ Hplay). rewrite ?N1, ?N2.
      match goal with |- context [fold_left _ l (?s1, ?v1)] =>
        destruct (IH s1 v1) as [E P] end.
      cbn [game_player_1 game_player_2 error_results rep_results append_error] in E, P.
      rewrite ?N1, ?N2 in E, P. rewrite E, P. cbn [omap logged_error logged_rep].
      rewrite <- !app_assoc. split; reflexivity.
    + rewrite (run_rep_failure _ _ _ _ _ _ _ _ Hplay). rewrite ?N1, ?N2.
      match goal with |- context [fold_left _ l (?s1, ?v1)] =>
        destruct (IH s1 v1) as [E P] end.
      cbn [game_player_1 game_player_2 error_results rep_results append_error] in E, P.
      rewrite ?N1, ?N2 in E, P. rewrite E, P. cbn [omap logged_error logged_rep].
      rewrite <- !app_assoc. split; reflexivity.
Qed.

Lemma run_game_replicates self pair g game s mv n :
  (num_reps self = Some n \/
   num_reps self = None /\ geometric self (rng_calls s) = Ok n) ->
  let p1 := fst pair (mkDesignGame (designs game)) in
  let p2 := snd pair (mkDesignGame (designs game)) in
  let plays := replicates game (seq 0 (Z.to_nat n)) p1 p2 in
  error_results (fst (fst (run_game self pair (g, game) (s, mv)))) =
    error_results s ++ omap (logged_error g (name p1) (name p2)) plays /\
  rep_results (fst (fst (run_game self pair (g, game) (s, mv)))) =
    rep_results s ++ omap (logged_rep g (name p1) (name p2)) plays.
Proof.
  intros Hn. cbn zeta.
  set (q1 := fst pair (mkDesignGame (designs game))).
  set (q2 := snd pair (mkDesignGame (designs game))).
  set (s0 := match num_reps self with None => next_draw s | Some _ => s end).
  destruct (reps_loop_replicates game g n (seq 0 (Z.to_nat n)) s0
              (mkGameVars q1 q2 nzero nzero)) as [E P].
  cbn [game_player_1 game_player_2] in E, P.
  assert (Hs0e : error_results s0 = error_results s)
    by (unfold s0; destruct (num_reps self); reflexivity).
  assert (Hs0p : rep_results s0 = rep_results s)
    by (unfold s0; destruct (num_reps self); reflexivity).
  rewrite Hs0e in E. rewrite Hs0p in P.
  assert (Hrun : fst (fst (run_game self pair (g, game) (s, mv))) =
    (let '(s1, v) :=
       fold_left (fun sv rep => run_rep game g n rep sv) (seq 0 (Z.to_nat n))
         (s0, mkGameVars q1 q2 nzero nzero) in
     append_game
       (mkGameEntry g n
          ((name (game_player_1 v), p1_game_score v),
           (name (game_player_2 v), p2_game_score v))) s1)).
  { clear E P Hs0e Hs0p. unfold run_game, s0. fold q1 q2.
    destruct Hn as [Hn|[Hn Hg]]; rewrite Hn; [|rewrite Hg]; cbn;
      destruct (fold_left _ _ _); reflexivity. }
  rewrite Hrun. destruct (fold_left _ _ _) as [s1 v]. cbn [fst] in E, P.
  cbn [error_results rep_results append_game]. split; assumption.
Qed.

(** X1.  One game of a match, with [n] replicates drawn.  [play] is run
    once per replicate, on the agents the last replicate left, and every
    replicate adds exactly one entry: to [rep_results], with the decisions
    and payoffs of the [Result], when [play] returned, and to
    [error_results], with the exception, when it raised, whatever was
    raised.  An error entry carries the game index, the replicate index and
    the name of an agent of the match; each game score is the sum of
    [payoff / n] over the replicates that returned, so a failed replicate
    credits neither side and the divisor stays [n]; and the game goes on to
    its log entry and to the match scores. *)
Theorem game_replicates_isolated self pair g game s mv n :
  (num_reps self = Some n \/
   num_reps self = None /\ geometric self (rng_calls s) = Ok n) ->
  exists errs reps s' mv',
    run_game self pair (g, game) (s, mv) = ((s', mv'), Ok tt) /\
    error_results s' = error_results s ++ errs /\
    rep_results s' = rep_results s ++ reps /\
    (let p1 := fst pair (mkDesignGame (designs game)) in
     let p2 := snd pair (mkDesignGame (designs game)) in
     let plays := replicates game (seq 0 (Z.to_nat n)) p1 p2 in
     errs = omap (logged_error g (name p1) (name p2)) plays /\
     reps = omap (logged_rep g (name p1) (name p2)) plays) /\
    (length errs + length reps = Z.to_nat n)%nat /\
    Forall (fun e => rep_game e = g /\ (rep_rep e < Z.to_nat n)%nat) reps /\
    Forall (fun e =>
              error_game e = g /\ (error_rep e < Z.to_nat n)%nat /\
              exists who, In who (error_names e) /\
                (who = name (fst pair (mkDesignGame (designs game))) \/
                 who = name (snd pair (mkDesignGame (designs game)))))
      errs /\
    p1_match_score mv' =
      nadd (p1_match_score mv)
        (ndiv (credited rep_player_1 n reps nzero)
           (of_int (Z.of_nat (length (games self))))) /\
    p2_match_score mv' =
      nadd (p2_match_score mv)
        (ndiv (credited rep_player_2 n reps nzero)
           (of_int (Z.of_nat (length (games self))))) /\
    results s' = results s.
Proof.
  intros Hn.
  destruct (run_game_drawn self pair g game s mv n Hn)
    as (errs & reps & s' & p1 & p2 & Hg).
  cbn zeta in Hg.
  destruct Hg as (Hrun & E & P & L & _ & FR & FE & Hres & _ & N1 & N2).
  destruct (run_game_replicates self pair g game s mv n Hn) as [E' P'].
  cbn zeta in E', P'. rewrite Hrun in E', P'. cbn [fst] in E', P'.
  eexists errs, reps, s', _. split; [exact Hrun|].
  split; [exact E|]. split; [exact P|].
  split.
  { cbn zeta. split.
    - rewrite E in E'. apply app_inv_head in E'. exact E'.
    - rewrite P in P'. apply app_inv_head in P'. exact P'. }
  split; [exact L|]. split; [exact FR|].
  split; [|cbn; auto].
  eapply Forall_impl; [exact FE|]. cbn. intros e (? & ? & who & ? & Hw).
  rewrite N1, N2 in Hw. eauto 8.
Qed.

(** ** The credit of a match *)

(** C7, as the code has it.  After the games of a match, each side's match
    score, divided by the player count, is added to the bucket of that
    side's display name; both contributions are halved exactly when the two
    display names are equal.  A self-pair has equal names and is halved, and
    so is any other pair whose agents share a name; contributions under one
    name add up in one bucket, and no other bucket changes. *)
Theorem match_credited_by_name self pair s bound :
  replication_usable self -> games self <> [] ->
  exists s1 p1 p2 score_1 score_2,
    for_loop (run_game self pair) (enumerate (games self))
      (s, mkMatchVars bound nzero nzero) =
      ((s1, mkMatchVars (Some (p1, p2)) score_1 score_2), Ok tt) /\
    let n := of_int (Z.of_nat (length (players self))) in
    let before := results s in
    let after := results (fst (fst (run_match self pair (s, bound)))) in
    (name p1 <> name p2 ->
       after !! name p1 =
         Some (nadd (default nzero (before !! name p1)) (ndiv (nmul score_1 nunit) n)) /\
       after !! name p2 =
         Some (nadd (default nzero (before !! name p2)) (ndiv (nmul score_2 nunit) n))) /\
    (name p1 = name p2 ->
       after !! name p1 =
         Some (nadd
                 (nadd (default nzero (before !! name p1)) (ndiv (nmul score_1 nhalf) n))
                 (ndiv (nmul score_2 nhalf) n))) /\
    (forall k, k <> name p1 -> k <> name p2 -> after !! k = before !! k) /\
    (fst pair = snd pair -> name p1 = name p2).
Proof.
  intros Hu Hne.
  destruct (run_match_returns self pair s bound Hu Hne)
    as (s1 & p1 & p2 & sc1 & sc2 & game & _ & Hloop & Hres & N1 & N2 & Hrun).
  exists s1, p1, p2, sc1, sc2. split; [exact Hloop|].
  cbn zeta. rewrite Hrun. cbn [fst results set_results]. rewrite Hres.
  unfold match_factor.
  split; [|split; [|split]].
  - intros Hd. destruct (decide (name p1 = name p2)) as [E|_]; [contradiction|].
    split.
    + rewrite credit_lookup_ne by (intros E; apply Hd; symmetry; exact E).
      apply credit_lookup.
    + rewrite credit_lookup. rewrite credit_lookup_ne by exact Hd. reflexivity.
  - intros E. destruct (decide (name p1 = name p2)) as [_|Hd]; [|contradiction].
    rewrite E. rewrite credit_lookup. rewrite credit_lookup. reflexivity.
  - intros k H1 H2.
    rewrite credit_lookup_ne by (intros E; apply H2; symmetry; exact E).
    apply credit_lookup_ne. intros E; apply H1; symmetry; exact E.
  - intros E. rewrite N1, N2, E. reflexivity.
Qed.
End TournamentFacts.

(** Two agent configurations under one display name: the null agent and an
    agent that always collaborates on design 0. *)
Definition shared_name_tournament : Tournament.Tournament float :=
  Tournament.mkTournament
    [Tournament.null_player "x";
     Tournament.constant_player (Game.mkDecision 1 0) "x"]
    [Game.mkDesignGame Tournament.designs_3051]
    (Some 1) (fun _ => Raise TypeError).

Lemma shared_name_tournament_usable :
  Tournament.replication_usable shared_name_tournament.
Proof. left. cbn. eauto. Qed.

Lemma match_credited_by_name_witness :
  exists s1 p1 p2 score_1 score_2,
    Tournament.for_loop
      (Tournament.run_game shared_name_tournament
         (Tournament.null_player "x",
          Tournament.constant_player (Game.mkDecision 1 0) "x"))
      (Tournament.enumerate (Tournament.games shared_name_tournament))
      (Tournament.Tournament_init, Tournament.mkMatchVars None nzero nzero) =
      ((s1, Tournament.mkMatchVars (Some (p1, p2)) score_1 score_2), Ok tt) /\
    let n := of_int (Z.of_nat (length (Tournament.players shared_name_tournament))) in
    let before := Tournament.results (R := float) Tournament.Tournament_init in
    let after :=
      Tournament.results
        (fst (fst (Tournament.run_match shared_name_tournament
                     (Tournament.null_player "x",
                      Tournament.constant_player (Game.mkDecision 1 0) "x")
                     (Tournament.Tournament_init, None)))) in
    (Game.name p1 <> Game.name p2 ->
       after !! Game.name p1 =
         Some (nadd (default nzero (before !! Game.name p1))
                 (ndiv (nmul score_1 nunit) n)) /\
       after !! Game.name p2 =
         Some (nadd (default nzero (before !! Game.name p2))
                 (ndiv (nmul score_2 nunit) n))) /\
    (Game.name p1 = Game.name p2 ->
       after !! Game.name p1 =
         Some (nadd
                 (nadd (default nzero (before !! Game.name p1))
                    (ndiv (nmul score_1 nhalf) n))
                 (ndiv (nmul score_2 nhalf) n))) /\
    (forall k, k <> Game.name p1 -> k <> Game.name p2 -> after !! k = before !! k) /\
    (fst (Tournament.null_player (R := float) "x",
          Tournament.constant_player (R := float) (Game.mkDecision 1 0) "x") =
     snd (Tournament.null_player (R := float) "x",
          Tournament.constant_player (R := float) (Game.mkDecision 1 0) "x") ->
     Game.name p1 = Game.name p2).
Proof.
  apply (match_credited_by_name shared_name_tournament
           (Tournament.null_player "x",
            Tournament.constant_player (Game.mkDecision 1 0) "x")
           Tournament.Tournament_init None).
  - exact shared_name_tournament_usable.
  - discriminate.
Defined.

(** C7 as stated fails: the second match of [shared_name_tournament] pairs
    two different agents (position 0 with position 1, deciding differently)
    and its contribution is halved all the same, since both are named "x":
    the bucket ends at 3.25, not at the 4.5 an unhalved mixed match gives. *)
Lemma halved_without_self_pair :
  Tournament.combinations_with_replacement_2 [0; 1]%nat = [(0, 0); (0, 1); (1, 1)]%nat /\
  Nat.eqb 0 1 = false /\
  snd (Game.get_decision
         (Tournament.null_player (R := float) "x"
            (Game.mkDesignGame Tournament.designs_3051))) =
    Ok (Game.mkDecision 0 0) /\
  snd (Game.get_decision
         (Tournament.constant_player (R := float) (Game.mkDecision 1 0) "x"
            (Game.mkDesignGame Tournament.designs_3051))) =
    Ok (Game.mkDecision 1 0) /\
  Tournament.match_factor
    (Tournament.null_player (R := float) "x" (Game.mkDesignGame Tournament.designs_3051))
    (Tournament.constant_player (R := float) (Game.mkDecision 1 0) "x"
       (Game.mkDesignGame Tournament.designs_3051)) = 0.5%float /\
  outcome_bind (snd (Tournament.run shared_name_tournament Tournament.Tournament_init))
    (fun m => Ok (m !! "x")) = Ok (Some 3.25%float).
Proof. repeat split; vm_compute; reflexivity. Qed.

Lemma run_returns_complete_map_witness :
  exists m game,
    snd (Tournament.run shared_name_tournament Tournament.Tournament_init) = Ok m /\
    Tournament.results
      (fst (Tournament.run shared_name_tournament Tournament.Tournament_init)) = m /\
    last (Tournament.games shared_name_tournament) = Some game /\
    forall c, In c (Tournament.players shared_name_tournament) ->
      is_Some (m !! Game.name (c (Game.mkDesignGame (Game.designs game)))).
Proof.
  apply (run_returns_complete_map shared_name_tournament Tournament.Tournament_init).
  - discriminate.
  - exact shared_name_tournament_usable.
Defined.

Lemma game_replicates_isolated_witness :
  exists errs reps s' mv',
    Tournament.run_game shared_name_tournament
      (Tournament.null_player "x", Tournament.constant_player (Game.mkDecision 1 0) "x")
      (0%nat, Game.mkDesignGame Tournament.designs_3051)
      (Tournament.Tournament_init, Tournament.mkMatchVars None nzero nzero) =
      ((s', mv'), Ok tt) /\
    Tournament.error_results s' =
      Tournament.error_results (R := float) Tournament.Tournament_init ++ errs /\
    Tournament.rep_results s' =
      Tournament.rep_results (R := float) Tournament.Tournament_init ++ reps /\
    (let p1 :=
       fst (Tournament.null_player (R := float) "x",
            Tournament.constant_player (R := float) (Game.mkDecision 1 0) "x")
         (Game.mkDesignGame (Game.designs (Game.mkDesignGame Tournament.designs_3051))) in
     let p2 :=
       snd (Tournament.null_player (R := float) "x",
            Tournament.constant_player (R := float) (Game.mkDecision 1 0) "x")
         (Game.mkDesignGame (Game.designs (Game.mkDesignGame Tournament.designs_3051))) in
     let plays :=
       replicates (Game.mkDesignGame Tournament.designs_3051) (seq 0 (Z.to_nat 1)) p1 p2 in
     errs = omap (logged_error 0%nat (Game.name p1) (Game.name p2)) plays /\
     reps = omap (logged_rep 0%nat (Game.name p1) (Game.name p2)) plays) /\
    (length errs + length reps = Z.to_nat 1)%nat /\
    Forall (fun e => Tournament.rep_game e = 0%nat /\
                     (Tournament.rep_rep e < Z.to_nat 1)%nat) reps /\
    Forall (fun e =>
              Tournament.error_game e = 0%nat /\
              (Tournament.error_rep e < Z.to_nat 1)%nat /\
              exists who, In who (Tournament.error_names e) /\
                (who = Game.name
                         (fst (Tournament.null_player (R := float) "x",
                               Tournament.constant_player (R := float)
                                 (Game.mkDecision 1 0) "x")
                            (Game.mkDesignGame
                               (Game.designs (Game.mkDesignGame Tournament.designs_3051)))) \/
                 who = Game.name
                         (snd (Tournament.null_player (R := float) "x",
                               Tournament.constant_player (R := float)
                                 (Game.mkDecision 1 0) "x")
                            (Game.mkDesignGame
                               (Game.designs (Game.mkDesignGame Tournament.designs_3051))))))
      errs /\
    Tournament.p1_match_score mv' =
      nadd (Tournament.p1_match_score (Tournament.mkMatchVars None nzero nzero))
        (ndiv (Tournament.credited Tournament.rep_player_1 1 reps nzero)
           (of_int (Z.of_nat (length (Tournament.games shared_name_tournament))))) /\
    Tournament.p2_match_score mv' =
      nadd (Tournament.p2_match_score (Tournament.mkMatchVars None nzero nzero))
        (ndiv (Tournament.credited Tournament.rep_player_2 1 reps nzero)
           (of_int (Z.of_nat (length (Tournament.games shared_name_tournament))))) /\
    Tournament.results s' = Tournament.results (R := float) Tournament.Tournament_init.
Proof.
  apply (game_replicates_isolated shared_name_tournament
           (Tournament.null_player "x", Tournament.constant_player (Game.mkDecision 1 0) "x")
           0%nat (Game.mkDesignGame Tournament.designs_3051)
           Tournament.Tournament_init (Tournament.mkMatchVars None nzero nzero) 1).
  left. reflexivity.
Defined.

(** * The null-agent tournament *)

Section NullTournament.
Import Game Tournament.
Context {R : Type} `{Number R}.
Variables (name : string) (n : Z) (n_players : nat).

Let game : DesignGame R := mkDesignGame designs_3051.
Let p : Player R := null_player name game.
Let self : Tournament R := null_tournament n_players n name.

(** What a replicate adds to a game score, a game to a match score, and a
    match to the bucket of [name]. *)
Let add_rep (score : R) : R := nadd score (ndiv (of_int 3) (of_int n)).
Let game_score : R := Nat.iter (Z.to_nat n) add_rep nzero.
Let match_score : R := nadd nzero (ndiv game_score (of_int 1)).
Let share : R := ndiv (nmul match_score nhalf) (of_int (Z.of_nat n_players)).
Let add_match (bucket : R) : R := nadd (nadd bucket share) share.

Lemma null_play :
  play game p p =
    (mkWorld p p
       [G1; G2;
        CallReportResult First
          (mkResult Decision_default (of_int 3) Decision_default (of_int 3));
        CallReportResult Second
          (mkResult Decision_default (of_int 3) Decision_default (of_int 3))],
     Ok (mkResult Decision_default (of_int 3) Decision_default (of_int 3))).
Proof. reflexivity. Qed.

Lemma null_reps (l : list nat) g s a b :
  exists s',
    fold_left (fun sv rep => run_rep game g n rep sv) l (s, mkGameVars p p a b) =
      (s', mkGameVars p p (Nat.iter (length l) add_rep a) (Nat.iter (length l) add_rep b)) /\
    results s' = results s.
Proof.
  revert s a b. induction l as [|rep l IH]; intros s a b.
  - exists s. split; reflexivity.
  - cbn [fold_left length].
    rewrite (run_rep_success game g n rep s (mkGameVars p p a b) _ _ null_play).
    cbn [player_1 player_2 p1_game_score p2_game_score my_payoff their_payoff].
    match goal with |- context [fold_left _ l (?x, _)] =>
      destruct (IH x (add_rep a) (add_rep b)) as (s' & Hfold & Hres) end.
    exists s'. rewrite !Nat.iter_succ_r. split; [exact Hfold|exact Hres].
Qed.

Lemma null_game g s mv :
  exists s',
    run_game self (null_player name, null_player name) (g, game) (s, mv) =
      ((s',
        mkMatchVars (Some (p, p))
          (nadd (p1_match_score mv) (ndiv game_score (of_int 1)))
          (nadd (p2_match_score mv) (ndiv game_score (of_int 1)))),
       Ok tt) /\
    results s' = results s.
Proof.
  destruct (null_reps (seq 0 (Z.to_nat n)) g s nzero nzero) as (s' & Hfold & Hres).
  rewrite length_seq in Hfold.
  eexists. unfold run_game. cbn -[fold_left seq Z.to_nat run_rep].
  fold game. fold p. rewrite Hfold.
  cbn -[Z.to_nat]. split; [reflexivity|exact Hres].
Qed.

Lemma null_match s bound :
  exists s',
    run_match self (null_player name, null_player name) (s, bound) =
      ((s', Some (p, p)), Ok tt) /\
    results s' =
      credit n_players name match_score nhalf
        (credit n_players name match_score nhalf (results s)).
Proof.
  destruct (null_game 0%nat s (mkMatchVars bound nzero nzero)) as (s' & Hgame & Hres).
  eexists. unfold run_match.
  change (enumerate (games self)) with [(0%nat, game)].
  cbn [for_loop]. rewrite Hgame.
  cbn [bound_players p1_match_score p2_match_score].
  unfold match_factor. cbn [Game.name p null_player Player_init].
  destruct (decide (name = name)) as [_|Hd]; [|contradiction].
  split; [reflexivity|].
  cbn [results set_results append_match]. rewrite Hres.
  unfold self, null_tournament. cbn [players]. rewrite repeat_length.
  reflexivity.
Qed.

Lemma null_matches (k : nat) s bound :
  exists s' bound',
    for_loop (run_match self) (repeat (null_player name, null_player name) k) (s, bound) =
      ((s', bound'), Ok tt) /\
    results s' =
      Nat.iter k
        (fun r => credit n_players name match_score nhalf
                    (credit n_players name match_score nhalf r))
        (results s).
Proof.
  revert s bound. induction k as [|k IH]; intros s bound.
  - exists s, bound. split; reflexivity.
  - destruct (null_match s bound) as (s1 & Hmatch & Hres).
    cbn [repeat for_loop]. rewrite Hmatch.
    destruct (IH s1 (Some (p, p))) as (s' & bound' & Hloop & Hres').
    exists s', bound'. split; [exact Hloop|].
    rewrite Hres', Hres, Nat.iter_succ_r. reflexivity.
Qed.

Lemma bucket_after_match (r : gmap string R) :
  credit n_players name match_score nhalf
    (credit n_players name match_score nhalf r) =
  <[name := add_match (default nzero (r !! name))]> r.
Proof.
  unfold credit at 1. rewrite credit_lookup. unfold credit. cbn [default].
  rewrite insert_insert_eq. reflexivity.
Qed.

Lemma bucket_after_matches (k : nat) :
  Nat.iter (S k)
    (fun r => credit n_players name match_score nhalf
                (credit n_players name match_score nhalf r)) ∅ =
  {[name := Nat.iter (S k) add_match nzero]}.
Proof.
  induction k as [|k IH].
  - cbn [Nat.iter nat_rect]. rewrite bucket_after_match, lookup_empty. cbn [default].
    apply insert_empty.
  - rewrite (Nat.iter_succ (S k) _ ∅), IH, bucket_after_match, lookup_singleton_eq.
    cbn [default]. rewrite insert_singleton_eq.
    rewrite (Nat.iter_succ (S k) add_match). reflexivity.
Qed.
End NullTournament.

Lemma combinations_with_replacement_2_repeat {A} (x : A) (k : nat) :
  Tournament.combinations_with_replacement_2 (repeat x k) =
    repeat (x, x) (k * (k + 1) / 2).
Proof.
  induction k as [|k IH]; [reflexivity|].
  cbn [repeat Tournament.combinations_with_replacement_2]. rewrite IH.
  replace (S k * (S k + 1))%nat with (k * (k + 1) + S k * 2)%nat by lia.
  rewrite Nat.div_add by lia.
  replace (k * (k + 1) / 2 + S k)%nat with (S k + k * (k + 1) / 2)%nat by lia.
  rewrite repeat_app. f_equal.
  cbn [map repeat]. f_equal.
  clear IH. induction k as [|k IH]; [reflexivity|]. cbn [repeat map]. rewrite <- IH at 1.
  reflexivity.
Qed.

Lemma combinations_with_replacement_2_map {A B} (f : A -> B) (l : list A) :
  Tournament.combinations_with_replacement_2 (map f l) =
    map (fun ij => (f (fst ij), f (snd ij))) (Tournament.combinations_with_replacement_2 l).
Proof.
  induction l as [|x l IH]; [reflexivity|].
  cbn [map Tournament.combinations_with_replacement_2]. rewrite map_app, IH. f_equal.
  cbn [map fst snd]. f_equal. rewrite !map_map. reflexivity.
Qed.

(** In the enumeration of [n] positions every self-pair comes exactly once. *)
Lemma self_pair_once (n i : nat) :
  (i < n)%nat ->
  count_occ (fun x y : nat * nat => decide (x = y))
    (Tournament.combinations_with_replacement_2 (seq 0 n)) (i, i) = 1%nat.
Proof.
  assert (Hgen : forall a,
    (a <= i < a + n)%nat ->
    count_occ (fun x y : nat * nat => decide (x = y))
      (Tournament.combinations_with_replacement_2 (seq a n)) (i, i) = 1%nat).
  2: { intros Hi. apply Hgen. lia. }
  assert (Hnone : forall m a, (i < a)%nat ->
    count_occ (fun x y : nat * nat => decide (x = y))
      (Tournament.combinations_with_replacement_2 (seq a m)) (i, i) = 0%nat).
  { intros m. induction m as [|m IH]; intros a Ha; [reflexivity|].
    cbn [seq Tournament.combinations_with_replacement_2].
    rewrite count_occ_app, IH by lia.
    rewrite Nat.add_0_r. apply count_occ_not_In. intros Hin.
    apply in_map_iff in Hin. destruct Hin as (j & E & _). injection E as E1 _. lia. }
  induction n as [|n IH]; intros a Ha; [lia|].
  cbn [seq Tournament.combinations_with_replacement_2].
  rewrite count_occ_app.
  destruct (Nat.eq_dec a i) as [->|Hne].
  - rewrite Hnone by lia. rewrite Nat.add_0_r.
    cbn [map]. rewrite count_occ_cons_eq by reflexivity. f_equal.
    apply count_occ_not_In. intros Hin.
    apply in_map_iff in Hin. destruct Hin as (j & E & Hj). injection E as ->.
    apply in_seq in Hj. lia.
  - rewrite IH by lia.
    replace (count_occ _ _ _) with 0%nat; [reflexivity|].
    symmetry. apply count_occ_not_In. intros Hin.
    change (In (i, i) (map (pair a) (a :: seq (S a) n))) in Hin.
    apply in_map_iff in Hin. destruct Hin as (j & E & _). injection E as E1 _.
    congruence.
Qed.

Section NullRun.
Import Game Tournament.
Context {R : Type} `{Number R}.

(** The result of the null-agent tournament, whatever the arithmetic: the
    one bucket holds the sum, over the [n (n + 1) / 2] matches, of the two
    halved shares of each. *)
Lemma null_run (name : string) (num_reps : Z) (n_players : nat) (s : attrs R) :
  let game_score :=
    Nat.iter (Z.to_nat num_reps)
      (fun score => nadd score (ndiv (of_int 3) (of_int num_reps))) nzero in
  let share :=
    ndiv (nmul (nadd nzero (ndiv game_score (of_int 1))) nhalf)
      (of_int (Z.of_nat n_players)) in
  snd (run (null_tournament n_players num_reps name) s) =
    Ok (match (n_players * (n_players + 1) / 2)%nat with
        | O => ∅
        | S k => {[name := Nat.iter (S k) (fun bucket => nadd (nadd bucket share) share) nzero]}
        end).
Proof.
  cbn zeta. unfold run.
  change (players (null_tournament n_players num_reps name))
    with (repeat (null_player (R := R) name) n_players).
  rewrite combinations_with_replacement_2_repeat.
  destruct (null_matches name num_reps n_players (n_players * (n_players + 1) / 2)
              (mkAttrs (rng_calls s) [] [] [] [] ∅) None)
    as (s' & bound' & Hloop & Hres).
  rewrite Hloop. cbn [snd]. f_equal. rewrite Hres. cbn [results].
  destruct (n_players * (n_players + 1) / 2)%nat as [|k]; [reflexivity|].
  apply bucket_after_matches.
Qed.
End NullRun.

(** * The null-agent tournament in binary64 *)

Section NullScore.
Import Game Tournament.

Lemma twice_triangle (k : nat) : (2 * (k * (k + 1) / 2) = k * (k + 1))%nat.
Proof.
  symmetry. apply Nat.Div0.div_exact.
  induction k as [|k IH]; [reflexivity|].
  replace (S k * (S k + 1))%nat with (k * (k + 1) + S k * 2)%nat by lia.
  rewrite Nat.Div0.mod_add. exact IH.
Qed.

Lemma iter_twice {A} (f : A -> A) (k : nat) (x : A) :
  Nat.iter k (fun a => f (f a)) x = Nat.iter (2 * k) f x.
Proof.
  induction k as [|k IH]; [reflexivity|].
  replace (2 * S k)%nat with (S (S (2 * k))) by lia.
  rewrite !Nat.iter_succ, IH. reflexivity.
Qed.

(** C8, as the code has it.  For [n_players >= 1] null agents under one
    name, the game with designs [[[[3, 0], [5, 1]]]] and a fixed replicate
    count [num_reps >= 1]: the enumeration has every self-pair exactly once,
    among the pairs of positions [i <= j]; every match is between agents of
    that one name and is halved; and [run] returns the map whose one bucket
    holds the binary64 sum of [n_players (n_players + 1)] equal shares, two
    for each match.  A share is [game_score * 0.5 / n_players], and
    [game_score] is the binary64 sum of [num_reps] quotients
    [3 / num_reps].  Without rounding that is [3 (n_players + 1) / 2], not
    3. *)
Theorem null_agents_shared_name_score (n_players : nat) (num_reps : Z) (name : string)
  (s : attrs float) :
  (1 <= n_players)%nat -> 1 <= num_reps ->
  (forall i, (i < n_players)%nat ->
     count_occ (fun x y : nat * nat => decide (x = y))
       (combinations_with_replacement_2 (seq 0 n_players)) (i, i) = 1%nat) /\
  combinations_with_replacement_2 (players (null_tournament n_players num_reps name)) =
    map (fun _ => (null_player (R := float) name, null_player (R := float) name))
      (combinations_with_replacement_2 (seq 0 n_players)) /\
  let game_score :=
    Nat.iter (Z.to_nat num_reps)
      (fun score => (score + 3 / float_of_Z num_reps)%float) 0%float in
  let share :=
    ((0 + game_score / 1) * 0.5 / float_of_Z (Z.of_nat n_players))%float in
  snd (run (null_tournament n_players num_reps name) s) =
    Ok {[name := Nat.iter (n_players * (n_players + 1))
                   (fun bucket => (bucket + share)%float) 0%float]}.
Proof.
  intros HN Hn. split; [|split].
  - intros i Hi. apply self_pair_once. exact Hi.
  - change (players (null_tournament n_players num_reps name))
      with (repeat (null_player (R := float) name) n_players).
    replace (repeat (null_player (R := float) name) n_players)
      with (map (fun _ : nat => null_player (R := float) name) (seq 0 n_players)).
    + apply combinations_with_replacement_2_map.
    + clear HN. generalize 0%nat.
      induction n_players as [|k IH]; intros a; [reflexivity|].
      cbn [seq map repeat]. f_equal. apply IH.
  - cbn zeta. rewrite null_run. cbn zeta. f_equal.
    pose proof (twice_triangle n_players) as Ht.
    destruct (n_players * (n_players + 1) / 2)%nat as [|k] eqn:Hk.
    { exfalso. destruct n_players; [lia|]. cbn in Ht. lia. }
    f_equal. rewrite <- Ht.
    rewrite <- (iter_twice (fun bucket => (bucket + _)%float)).
    reflexivity.
Qed.
End NullScore.

Lemma null_agents_shared_name_score_witness :
  (forall i, (i < 2)%nat ->
     count_occ (fun x y : nat * nat => decide (x = y))
       (Tournament.combinations_with_replacement_2 (seq 0 2)) (i, i) = 1%nat) /\
  Tournament.combinations_with_replacement_2
    (Tournament.players (Tournament.null_tournament (R := float) 2 3 "null")) =
    map (fun _ => (Tournament.null_player (R := float) "null",
                   Tournament.null_player (R := float) "null"))
      (Tournament.combinations_with_replacement_2 (seq 0 2)) /\
  let game_score :=
    Nat.iter (Z.to_nat 3) (fun score => (score + 3 / float_of_Z 3)%float) 0%float in
  let share := ((0 + game_score / 1) * 0.5 / float_of_Z (Z.of_nat 2))%float in
  snd (Tournament.run (Tournament.null_tournament 2 3 "null") Tournament.Tournament_init) =
    Ok {["null" := Nat.iter (2 * (2 + 1)) (fun bucket => (bucket + share)%float) 0%float]}.
Proof.
  apply (null_agents_shared_name_score 2 3 "null" Tournament.Tournament_init); lia.
Defined.

(** C8 as stated fails: two null agents under one name, one replicate,
    score 4.5. *)
Lemma two_null_agents_score :
  outcome_bind
    (snd (Tournament.run (Tournament.null_tournament (R := float) 2 1 "null")
            Tournament.Tournament_init))
    (fun m => Ok (m !! "null")) = Ok (Some 4.5%float) /\
  PrimFloat.eqb 4.5 3 = false.
Proof. split; vm_compute; reflexivity. Qed.

(** One null agent, ten replicates: the ten quotients [3 / 10] do not sum to
    3 in binary64. *)
Example one_null_agent_ten_replicates :
  outcome_bind
    (snd (Tournament.run (Tournament.null_tournament (R := float) 1 10 "null")
            Tournament.Tournament_init))
    (fun m => Ok (m !! "null")) = Ok (Some 0x1.7ffffffffffffp+1%float).
Proof. vm_compute. reflexivity. Qed.

(** Seven null agents, one replicate: the 56 shares [1.5 / 7] do not sum to
    12 in binary64. *)
Example seven_null_agents_score :
  outcome_bind
    (snd (Tournament.run (Tournament.null_tournament (R := float) 7 1 "null")
            Tournament.Tournament_init))
    (fun m => Ok (m !! "null")) = Ok (Some 0x1.7fffffffffffap+3%float) /\
  PrimFloat.eqb 0x1.7fffffffffffap+3 12 = false.
Proof. split; vm_compute; reflexivity. Qed.

(** * The order of binary64 values

    [<=?] and [<?] on primitive floats are IEEE 754 comparisons: false as
    soon as one side is NaN, and a total order on the other values (with
    [-0.0] and [0.0] equal).  The facts the scans of [np.argmax] and
    [np.fmin] rest on are proved from the specification of the comparisons
    on [spec_float]. *)

(** A key whose lexicographic order is the order of the values that are
    not NaN. *)
Definition order_key (x : spec_float) : option (Z * Z * Z) :=
  match x with
  | S754_nan => None
  | S754_infinity true => Some (-2, 0, 0)
  | S754_infinity false => Some (2, 0, 0)
  | S754_zero _ => Some (0, 0, 0)
  | S754_finite true m e => Some (-1, - e, Z.neg m)
  | S754_finite false m e => Some (1, e, Z.pos m)
  end.

Definition key_compare (a b : Z * Z * Z) : comparison :=
  let '(a1, a2, a3) := a in
  let '(b1, b2, b3) := b in
  match a1 ?= b1 with
  | Eq => match a2 ?= b2 with
          | Eq => a3 ?= b3
          | c => c
          end
  | c => c
  end.

Definition key_lt (a b : Z * Z * Z) : Prop :=
  let '(a1, a2, a3) := a in
  let '(b1, b2, b3) := b in
  a1 < b1 \/ (a1 = b1 /\ (a2 < b2 \/ (a2 = b2 /\ a3 < b3))).

Section FloatOrder.
Import PlayersNew.
Local Open Scope Z_scope.

Lemma SFcompare_key (x y : spec_float) :
  SFcompare x y =
    match order_key x, order_key y with
    | Some a, Some b => Some (key_compare a b)
    | _, _ => None
    end.
Proof.
  destruct x as [[|]|[|]| |[|] m1 e1], y as [[|]|[|]| |[|] m2 e2]; try reflexivity.
  cbn. rewrite Z.compare_opp, (Z.compare_antisym e1 e2).
  destruct (e1 ?= e2); reflexivity.
Qed.

Lemma key_compare_Lt (a b : Z * Z * Z) : key_compare a b = Lt <-> key_lt a b.
Proof.
  destruct a as [[a1 a2] a3], b as [[b1 b2] b3]. unfold key_compare, key_lt.
  destruct (Z.compare_spec a1 b1); [|split; [lia|reflexivity]|split; [discriminate|lia]].
  destruct (Z.compare_spec a2 b2); [|split; [lia|reflexivity]|split; [discriminate|lia]].
  destruct (Z.compare_spec a3 b3); split; try discriminate; try reflexivity; lia.
Qed.

Lemma key_compare_Eq (a b : Z * Z * Z) : key_compare a b = Eq <-> a = b.
Proof.
  destruct a as [[a1 a2] a3], b as [[b1 b2] b3]. unfold key_compare.
  destruct (Z.compare_spec a1 b1); [|split; [discriminate|intros E; injection E; lia]..].
  destruct (Z.compare_spec a2 b2); [|split; [discriminate|intros E; injection E; lia]..].
  destruct (Z.compare_spec a3 b3); split; try discriminate; try reflexivity;
    try (intros E; injection E; lia).
  intros _. congruence.
Qed.

(** The key of a float, when it is not NaN. *)
Definition float_key (x : float) : option (Z * Z * Z) := order_key (Prim2SF x).

Lemma ltb_key (x y : float) :
  (x <? y)%float = true <->
  exists a b, float_key x = Some a /\ float_key y = Some b /\ key_lt a b.
Proof.
  rewrite FloatAxioms.ltb_spec. unfold SFltb, float_key. rewrite SFcompare_key.
  destruct (order_key (Prim2SF x)) as [a|], (order_key (Prim2SF y)) as [b|].
  - split.
    + intros Hc. exists a, b. split; [reflexivity|]. split; [reflexivity|].
      apply key_compare_Lt. destruct (key_compare a b); try discriminate. reflexivity.
    + intros (a' & b' & Ea & Eb & Hc). injection Ea as <-. injection Eb as <-.
      apply key_compare_Lt in Hc. rewrite Hc. reflexivity.
  - split; [discriminate|]. intros (? & ? & _ & ? & _). discriminate.
  - split; [discriminate|]. intros (? & ? & ? & _). discriminate.
  - split; [discriminate|]. intros (? & ? & ? & _). discriminate.
Qed.

Lemma leb_key (x y : float) :
  (x <=? y)%float = true <->
  exists a b, float_key x = Some a /\ float_key y = Some b /\ (key_lt a b \/ a = b).
Proof.
  rewrite FloatAxioms.leb_spec. unfold SFleb, float_key. rewrite SFcompare_key.
  destruct (order_key (Prim2SF x)) as [a|], (order_key (Prim2SF y)) as [b|].
  - split.
    + intros Hc. exists a, b. split; [reflexivity|]. split; [reflexivity|].
      destruct (key_compare a b) eqn:E; try discriminate.
      * right. apply key_compare_Eq. exact E.
      * left. apply key_compare_Lt. exact E.
    + intros (a' & b' & Ea & Eb & Hc). injection Ea as <-. injection Eb as <-.
      destruct Hc as [Hc|Hc].
      * apply key_compare_Lt in Hc. rewrite Hc. reflexivity.
      * apply key_compare_Eq in Hc. rewrite Hc. reflexivity.
  - split; [discriminate|]. intros (? & ? & _ & ? & _). discriminate.
  - split; [discriminate|]. intros (? & ? & ? & _). discriminate.
  - split; [discriminate|]. intros (? & ? & ? & _). discriminate.
Qed.

Lemma is_nan_key (x : float) :
  is_nan x = false <-> exists a, float_key x = Some a.
Proof.
  unfold is_nan. rewrite FloatAxioms.eqb_spec. unfold SFeqb, float_key.
  rewrite SFcompare_key. destruct (order_key (Prim2SF x)) as [a|].
  - rewrite (proj2 (key_compare_Eq a a) eq_refl). cbn [negb].
    split; [eauto|reflexivity].
  - cbn [negb]. split; [discriminate|]. intros [? ?]. discriminate.
Qed.

Lemma key_lt_trans a b c : key_lt a b -> key_lt b c -> key_lt a c.
Proof.
  destruct a as [[a1 a2] a3], b as [[b1 b2] b3], c as [[c1 c2] c3].
  unfold key_lt. lia.
Qed.

Lemma key_lt_irrefl a : ~ key_lt a a.
Proof. destruct a as [[a1 a2] a3]. unfold key_lt. lia. Qed.

Lemma key_total a b : key_lt a b \/ a = b \/ key_lt b a.
Proof.
  destruct a as [[a1 a2] a3], b as [[b1 b2] b3]. unfold key_lt.
  destruct (Z.lt_total a1 b1) as [?|[?|?]]; [lia| |lia].
  destruct (Z.lt_total a2 b2) as [?|[?|?]]; [lia| |lia].
  destruct (Z.lt_total a3 b3) as [?|[?|?]]; [lia| |lia].
  right. left. congruence.
Qed.

Ltac float_keys :=
  repeat match goal with
    | H : (_ <? _)%float = true |- _ =>
        apply ltb_key in H; destruct H as (? & ? & ? & ? & ?)
    | H : (_ <=? _)%float = true |- _ =>
        apply leb_key in H; destruct H as (? & ? & ? & ? & ?)
    | H : is_nan _ = false |- _ =>
        apply is_nan_key in H; destruct H as (? & ?)
    end;
  repeat match goal with
    | H : float_key ?x = Some ?a, H' : float_key ?x = Some ?b |- _ =>
        assert (a = b) by congruence; subst b; clear H'
    end.

Lemma leb_refl (x : float) : is_nan x = false -> (x <=? x)%float = true.
Proof. intros H. float_keys. apply leb_key. eauto 6. Qed.

Lemma ltb_leb (x y : float) : (x <? y)%float = true -> (x <=? y)%float = true.
Proof. intros H. float_keys. apply leb_key. eauto 6. Qed.

Lemma leb_trans (x y z : float) :
  (x <=? y)%float = true -> (y <=? z)%float = true -> (x <=? z)%float = true.
Proof.
  intros H1 H2. float_keys. apply leb_key. do 2 eexists.
  split; [eassumption|]. split; [eassumption|].
  repeat match goal with H : _ \/ _ |- _ => destruct H end; subst; auto.
  left. eapply key_lt_trans; eassumption.
Qed.

Lemma leb_ltb_trans (x y z : float) :
  (x <=? y)%float = true -> (y <? z)%float = true -> (x <? z)%float = true.
Proof.
  intros H1 H2. float_keys. apply ltb_key. do 2 eexists.
  split; [eassumption|]. split; [eassumption|].
  repeat match goal with H : _ \/ _ |- _ => destruct H end; subst; auto.
  eapply key_lt_trans; eassumption.
Qed.

Lemma ltb_leb_trans (x y z : float) :
  (x <? y)%float = true -> (y <=? z)%float = true -> (x <? z)%float = true.
Proof.
  intros H1 H2. float_keys. apply ltb_key. do 2 eexists.
  split; [eassumption|]. split; [eassumption|].
  repeat match goal with H : _ \/ _ |- _ => destruct H end; subst; auto.
  eapply key_lt_trans; eassumption.
Qed.

Lemma ltb_trans (x y z : float) :
  (x <? y)%float = true -> (y <? z)%float = true -> (x <? z)%float = true.
Proof. intros H1 H2. eapply ltb_leb_trans; [exact H1|apply ltb_leb; exact H2]. Qed.

Lemma ltb_irrefl (x : float) : (x <? x)%float = false.
Proof.
  destruct (x <? x)%float eqn:H; [|reflexivity]. float_keys.
  exfalso. eapply key_lt_irrefl. eassumption.
Qed.

Lemma ltb_not_leb (x y : float) : (x <? y)%float = true -> (y <=? x)%float = false.
Proof.
  intros H. destruct (y <=? x)%float eqn:H'; [|reflexivity]. float_keys.
  exfalso. match goal with H : _ \/ _ |- _ => destruct H end.
  - eapply key_lt_irrefl. eapply key_lt_trans; eassumption.
  - subst. eapply key_lt_irrefl. eassumption.
Qed.

(** Two values that are not NaN are comparable. *)
Lemma not_leb_ltb (x y : float) :
  is_nan x = false -> is_nan y = false ->
  (x <=? y)%float = false -> (y <? x)%float = true.
Proof.
  intros Hx Hy Hle. float_keys.
  match goal with
  | Hx : float_key x = Some ?a, Hy : float_key y = Some ?b |- _ =>
      destruct (key_total a b) as [Hlt|[Heq|Hgt]]
  end.
  - assert ((x <=? y)%float = true) by (apply leb_key; eauto 6). congruence.
  - assert ((x <=? y)%float = true) by (apply leb_key; eauto 6). congruence.
  - apply ltb_key. eauto 6.
Qed.

Lemma ltb_not_nan (x y : float) :
  (x <? y)%float = true -> is_nan x = false /\ is_nan y = false.
Proof. intros H. float_keys. split; apply is_nan_key; eauto. Qed.

Lemma leb_not_nan (x y : float) :
  (x <=? y)%float = true -> is_nan x = false /\ is_nan y = false.
Proof. intros H. float_keys. split; apply is_nan_key; eauto. Qed.

End FloatOrder.

(** * What [np.argmax], [np.nanargmax] and [np.nanmin] select *)

(** The first position of a greatest value of [l]: no value is greater
    than the one at [i], and every earlier value is smaller. *)
Definition first_greatest (l : list float) (i : nat) : Prop :=
  exists v, l !! i = Some v /\
    (forall j w, l !! j = Some w -> (w <=? v)%float = true) /\
    (forall j w, (j < i)%nat -> l !! j = Some w -> (w <? v)%float = true).

(** The first position of a NaN in [l]. *)
Definition first_nan (l : list float) (i : nat) : Prop :=
  exists v, l !! i = Some v /\ PlayersNew.is_nan v = true /\
    forall j w, (j < i)%nat -> l !! j = Some w -> PlayersNew.is_nan w = false.

(** The plain arg-max: a NaN counts as the maximum, so the position is that
    of the first NaN when there is one, and of the first greatest value
    otherwise. *)
Definition plain_argmax (l : list float) (i : nat) : Prop :=
  if existsb PlayersNew.is_nan l then first_nan l i else first_greatest l i.

(** A value with NaN read as [-inf]. *)
Definition nan_as_lowest (x : float) : float :=
  if PlayersNew.is_nan x then neg_infinity else x.

(** The NaN-tolerant arg-max: the first position of a greatest value once
    every NaN is read as [-inf].  No value that is not NaN is greater than
    the one chosen, and the earlier ones are smaller. *)
Definition nan_tolerant_argmax (l : list float) (i : nat) : Prop :=
  exists v, l !! i = Some v /\
    (forall j w, l !! j = Some w -> PlayersNew.is_nan w = false ->
       (w <=? nan_as_lowest v)%float = true) /\
    (forall j w, (j < i)%nat -> l !! j = Some w ->
       (nan_as_lowest w <? nan_as_lowest v)%float = true).

Section ArgMax.
Import PlayersNew.
Local Open Scope Z_scope.

Lemma argmax_scan_selects (l pre : list float) (mp : float) (best : nat) :
  pre !! best = Some mp -> is_nan mp = false ->
  existsb is_nan pre = false ->
  (forall j w, pre !! j = Some w -> (w <=? mp)%float = true) ->
  (forall j w, (j < best)%nat -> pre !! j = Some w -> (w <? mp)%float = true) ->
  plain_argmax (pre ++ l) (argmax_scan mp best (length pre) l).
Proof.
  revert pre mp best. induction l as [|x t IH]; intros pre mp best Hbest Hmp Hpre Hle Hlt.
  - cbn [argmax_scan]. rewrite app_nil_r. unfold plain_argmax. rewrite Hpre.
    exists mp. split; [exact Hbest|]. split; assumption.
  - cbn [argmax_scan].
    assert (Hmid : (pre ++ x :: t) !! length pre = Some x)
      by (apply list_lookup_middle; reflexivity).
    assert (Hsnoc : forall j w, (pre ++ [x]) !! j = Some w ->
              pre !! j = Some w \/ (j = length pre /\ w = x)).
    { intros j w Hj. apply lookup_app_Some in Hj. destruct Hj as [Hj|[Hge Hj]]; [auto|].
      right. destruct (j - length pre)%nat as [|k] eqn:Hk; cbn in Hj; [|discriminate].
      injection Hj as <-. split; [lia|reflexivity]. }
    assert (Hlen : length (pre ++ [x]) = S (length pre))
      by (rewrite length_app; cbn [length]; lia).
    assert (Happ : pre ++ x :: t = (pre ++ [x]) ++ t)
      by (rewrite <- app_assoc; reflexivity).
    destruct (x <=? mp)%float eqn:Hx; cbn [negb].
    + destruct (leb_not_nan _ _ Hx) as [Hxn _].
      rewrite Happ, <- Hlen. apply IH.
      * apply lookup_app_l_Some. exact Hbest.
      * exact Hmp.
      * rewrite existsb_app. cbn [existsb]. rewrite Hpre, Hxn. reflexivity.
      * intros j w Hj. destruct (Hsnoc j w Hj) as [Hj'|[_ ->]]; [eauto|exact Hx].
      * intros j w Hjb Hj. destruct (Hsnoc j w Hj) as [Hj'|[-> _]]; [eauto|].
        apply lookup_lt_Some in Hbest. lia.
    + destruct (is_nan x) eqn:Hxn.
      * unfold plain_argmax. rewrite existsb_app. cbn [existsb]. rewrite Hxn, orb_true_r.
        exists x. split; [exact Hmid|]. split; [exact Hxn|].
        intros j w Hj Hw. rewrite lookup_app_l in Hw by exact Hj.
        destruct (is_nan w) eqn:E; [|reflexivity].
        assert (existsb is_nan pre = true); [|congruence].
        apply existsb_exists. exists w. split; [|exact E].
        eapply list_elem_of_In, list_elem_of_lookup_2. exact Hw.
      * pose proof (not_leb_ltb x mp Hxn Hmp Hx) as Hgt.
        rewrite Happ, <- Hlen. apply IH.
        -- apply list_lookup_middle. reflexivity.
        -- exact Hxn.
        -- rewrite existsb_app. cbn [existsb]. rewrite Hpre, Hxn. reflexivity.
        -- intros j w Hj. destruct (Hsnoc j w Hj) as [Hj'|[_ ->]].
           ++ apply ltb_leb. eapply leb_ltb_trans; [eapply Hle; exact Hj'|exact Hgt].
           ++ apply leb_refl. exact Hxn.
        -- intros j w Hjb Hj. destruct (Hsnoc j w Hj) as [Hj'|[-> _]]; [|lia].
           eapply leb_ltb_trans; [eapply Hle; exact Hj'|exact Hgt].
Qed.

(** [np.argmax] returns the plain arg-max. *)
Lemma argmax_selects (l : list float) (i : nat) :
  argmax l = Ok i -> plain_argmax l i.
Proof.
  destruct l as [|x t]; [discriminate|]. cbn [argmax]. intros E. injection E as <-.
  destruct (is_nan x) eqn:Hx.
  - unfold plain_argmax. cbn [existsb]. rewrite Hx. cbn [orb].
    exists x. split; [reflexivity|]. split; [exact Hx|]. intros j w Hj. lia.
  - apply (argmax_scan_selects t [x] x 0).
    + reflexivity.
    + exact Hx.
    + cbn [existsb]. rewrite Hx. reflexivity.
    + intros [|j] w Hj; cbn in Hj; [|discriminate]. injection Hj as <-.
      apply leb_refl. exact Hx.
    + intros j w Hj. lia.
Qed.

Lemma nan_as_lowest_not_nan (x : float) : is_nan (nan_as_lowest x) = false.
Proof. unfold nan_as_lowest. destruct (is_nan x) eqn:E; [reflexivity|exact E]. Qed.

(** [np.nanargmax] returns the NaN-tolerant arg-max, and only when some
    value is not NaN. *)
Lemma nanargmax_selects (l : list float) (i : nat) :
  nanargmax l = Ok i -> nan_tolerant_argmax l i /\ forallb is_nan l = false.
Proof.
  unfold nanargmax. destruct (forallb is_nan l) eqn:Hall; [discriminate|].
  intros Hi. split; [|reflexivity].
  apply argmax_selects in Hi. unfold plain_argmax in Hi.
  change (fun x : float => if is_nan x then neg_infinity else x) with nan_as_lowest in Hi.
  assert (Hnone : existsb is_nan (map nan_as_lowest l) = false).
  { clear. induction l as [|x l IH]; [reflexivity|].
    cbn [map existsb]. rewrite nan_as_lowest_not_nan, IH. reflexivity. }
  rewrite Hnone in Hi. destruct Hi as (v' & Hv' & Hle & Hlt).
  rewrite list_lookup_fmap in Hv'.
  destruct (l !! i) as [v|] eqn:Hv; [|discriminate]. cbn in Hv'. injection Hv' as <-.
  exists v. split; [exact Hv|]. split.
  - intros j w Hw Hwn.
    specialize (Hle j (nan_as_lowest w)). rewrite list_lookup_fmap, Hw in Hle.
    specialize (Hle eq_refl). unfold nan_as_lowest in Hle at 1. rewrite Hwn in Hle.
    exact Hle.
  - intros j w Hj Hw.
    apply (Hlt j (nan_as_lowest w) Hj). rewrite list_lookup_fmap, Hw. reflexivity.
Qed.

(** The position is determined: a list has one first greatest value. *)
Lemma first_greatest_unique (l : list float) (i j : nat) :
  first_greatest l i -> first_greatest l j -> i = j.
Proof.
  intros (v & Hv & Hle & Hlt) (w & Hw & Hle' & Hlt').
  destruct (Nat.lt_total i j) as [H|[H|H]]; [|exact H|].
  - pose proof (Hlt' i v H Hv) as H1. pose proof (Hle j w Hw) as H2.
    rewrite (ltb_not_leb _ _ H1) in H2. discriminate.
  - pose proof (Hlt j w H Hw) as H1. pose proof (Hle' i v Hv) as H2.
    rewrite (ltb_not_leb _ _ H1) in H2. discriminate.
Qed.

(** ** [np.nanmin] against zero *)

Lemma fmin_negative (x y : float) :
  (fmin x y <? 0)%float = ((x <? 0)%float || (y <? 0)%float)%bool.
Proof.
  unfold fmin.
  destruct (x <=? y)%float eqn:Hle; cbn [orb].
  - destruct (y <? 0)%float eqn:Hy; [|rewrite orb_false_r; reflexivity].
    rewrite (leb_ltb_trans _ _ _ Hle Hy). reflexivity.
  - destruct (is_nan y) eqn:Hyn.
    + destruct (y <? 0)%float eqn:Hy; [|rewrite orb_false_r; reflexivity].
      destruct (ltb_not_nan _ _ Hy). congruence.
    + destruct (x <? 0)%float eqn:Hx; [|reflexivity].
      destruct (ltb_not_nan _ _ Hx) as [Hxn _].
      pose proof (not_leb_ltb x y Hxn Hyn Hle) as Hyx.
      rewrite (ltb_trans _ _ _ Hyx Hx). reflexivity.
Qed.

(** The NaN-aware minimum is negative exactly when some value is. *)
Lemma nanmin_negative (l : list float) (lowest : float) :
  nanmin l = Ok lowest ->
  (lowest <? 0)%float = existsb (fun r => (r <? 0)%float) l.
Proof.
  destruct l as [|x t]; [discriminate|]. cbn [nanmin existsb]. intros E. injection E as <-.
  revert x. induction t as [|y t IH]; intros x; cbn [fold_left existsb].
  - rewrite orb_false_r. reflexivity.
  - rewrite IH, fmin_negative, orb_assoc. reflexivity.
Qed.

End ArgMax.

(** * Properties of players_new.py *)

Section PlayerFacts.
Import Game PlayersNew.
Variables exp ln : float -> float.
Local Open Scope Z_scope.

(** ** Failed plays and the learning state *)

Lemma learning_agent_get_decision p :
  learning_agent exp ln p -> fst (get_decision p) = p.
Proof. intros [name self|name self]; reflexivity. Qed.

(** C10.  When the first agent's decision is invalid, [play] raises after
    the one call [get_decision] on the first agent: the second agent is not
    called and is as it was.  Whenever [play] raises [InvalidDecisionError],
    no [report_result] was called, and an agent that learns from results (a
    Risk-Dominance or an Expected-Utility agent) has the attributes it had
    before the call: last-seen opponent decision, Beta pseudo-counts. *)
Theorem play_failure_keeps_learning_state (self : DesignGame float) (p1 p2 : Player float) :
  (forall p1a d1,
      get_decision p1 = (p1a, Ok d1) -> ~ valid_decision self d1 ->
      play self p1 p2 = (mkWorld p1a p2 [G1], Raise (InvalidDecisionError p1a d1))) /\
  (forall w player d,
      play self p1 p2 = (w, Raise (InvalidDecisionError player d)) ->
      existsb is_report (calls w) = false /\
      (learning_agent exp ln p1 -> player_1 w = p1) /\
      (learning_agent exp ln p2 -> player_2 w = p2)).
Proof.
  split.
  - intros p1a d1 H1 Hinv. apply invalid_decision_true in Hinv.
    apply play_first_invalid; assumption.
  - intros w player d Hplay.
    destruct (play_runs self p1 p2) as [ | ? ? H1 | | ? ? ? ? H1 ? H2 | | | | ];
      try discriminate; injection Hplay as <- -> ->; cbn.
    + split; [reflexivity|]. split; [|reflexivity].
      intros L1. rewrite <- (learning_agent_get_decision p1 L1), H1. reflexivity.
    + split; [reflexivity|]. split.
      * intros L1. rewrite <- (learning_agent_get_decision p1 L1), H1. reflexivity.
      * intros L2. rewrite <- (learning_agent_get_decision p2 L2), H2. reflexivity.
Qed.

(** ** The Expected-Utility agent's belief *)

Lemma wrap64_small z : - 2 ^ 63 <= z < 2 ^ 63 -> wrap64 z = z.
Proof.
  intros Hz. unfold wrap64. rewrite Z.mod_small by lia. lia.
Qed.

Lemma EU_report_result_defection game risk_aversion a b (r : Result float) :
  strategy (their_decision r) = 0 ->
  EU_report_result (mkEU game risk_aversion (a, b)) r =
    (mkEU game risk_aversion (wrap64 (a + 1), b), Ok tt).
Proof. intros Hr. unfold EU_report_result. cbn. rewrite Hr. reflexivity. Qed.

Lemma EU_report_result_collaboration game risk_aversion a b (r : Result float) :
  strategy (their_decision r) = 1 ->
  EU_report_result (mkEU game risk_aversion (a, b)) r =
    (mkEU game risk_aversion (a, wrap64 (b + 1)), Ok tt).
Proof. intros Hr. unfold EU_report_result. cbn. rewrite Hr. reflexivity. Qed.

Lemma EU_after_counts (rs : list (Result float)) game risk_aversion a b :
  Forall (fun r => strategy (their_decision r) = 0 \/ strategy (their_decision r) = 1) rs ->
  0 <= a -> 0 <= b -> a + b + Z.of_nat (length rs) < 2 ^ 63 ->
  EU_after (mkEU game risk_aversion (a, b)) rs =
    mkEU game risk_aversion (a + defections rs, b + collaborations rs).
Proof.
  intros Hrs. revert a b.
  induction Hrs as [|r rs Hr Hrs IH]; intros a b Ha Hb Hlen.
  - unfold EU_after, defections, collaborations. cbn. rewrite !Z.add_0_r. reflexivity.
  - cbn [length] in Hlen. unfold EU_after in *. cbn [fold_left].
    unfold defections, collaborations in *.
    destruct Hr as [Hr|Hr].
    + rewrite (EU_report_result_defection _ _ _ _ _ Hr). cbn [fst].
      rewrite wrap64_small by lia. rewrite IH by lia.
      rewrite (filter_cons_True (fun r => strategy (their_decision r) = 0)) by exact Hr.
      rewrite (filter_cons_False (fun r => strategy (their_decision r) = 1))
        by (rewrite Hr; discriminate).
      cbn [length]. f_equal. f_equal; lia.
    + rewrite (EU_report_result_collaboration _ _ _ _ _ Hr). cbn [fst].
      rewrite wrap64_small by lia. rewrite IH by lia.
      rewrite (filter_cons_True (fun r => strategy (their_decision r) = 1)) by exact Hr.
      rewrite (filter_cons_False (fun r => strategy (their_decision r) = 0))
        by (rewrite Hr; discriminate).
      cbn [length]. f_equal. f_equal; lia.
Qed.

Lemma counts_bounded (rs : list (Result float)) :
  0 <= collaborations rs /\ 0 <= defections rs /\
  collaborations rs + defections rs <= Z.of_nat (length rs).
Proof.
  unfold collaborations, defections. split; [lia|]. split; [lia|].
  induction rs as [|r rs IH]; [cbn; lia|].
  destruct (decide (strategy (their_decision r) = 1)) as [E1|N1];
    destruct (decide (strategy (their_decision r) = 0)) as [E0|N0];
    try congruence.
  - rewrite (filter_cons_True (fun r => strategy (their_decision r) = 1)) by exact E1.
    rewrite (filter_cons_False (fun r => strategy (their_decision r) = 0)) by exact N0.
    cbn [length]. lia.
  - rewrite (filter_cons_False (fun r => strategy (their_decision r) = 1)) by exact N1.
    rewrite (filter_cons_True (fun r => strategy (their_decision r) = 0)) by exact E0.
    cbn [length]. lia.
  - rewrite (filter_cons_False (fun r => strategy (their_decision r) = 1)) by exact N1.
    rewrite (filter_cons_False (fun r => strategy (their_decision r) = 0)) by exact N0.
    cbn [length]. lia.
Qed.

(** C6.  An Expected-Utility agent created with the default priors (1, 1),
    to which results have been reported whose opponent strategies are 0 or
    1, [k] of them 1 and [m] of them 0 (fewer than 2^63 in all, the range of
    the int64 counts): every report returned, and the collaboration
    probability its next [get_decision] uses is the binary64 quotient
    [(k + 1) / (k + m + 2)]. *)
Theorem EU_posterior_after_reports game name risk_aversion (rs : list (Result float)) :
  Forall (fun r => strategy (their_decision r) = 0 \/ strategy (their_decision r) = 1) rs ->
  Z.of_nat (length rs) + 2 < 2 ^ 63 ->
  let k := collaborations rs in
  let m := defections rs in
  let agent := RiskAwareEUplayer exp game name risk_aversion 1 1 in
  (forall self r, In r rs -> snd (EU_report_result self r) = Ok tt) /\
  k + m = Z.of_nat (length rs) /\
  p_collab (EU_after (state agent) rs) =
    (float_of_Z (k + 1) / float_of_Z (k + m + 2))%float.
Proof.
  intros Hrs Hlen. cbn zeta.
  destruct (counts_bounded rs) as (Hk & Hm & Hkm).
  split; [|split].
  - intros [g l [a b]] r Hin.
    destruct (proj1 (List.Forall_forall _ _) Hrs r Hin) as [Hr|Hr].
    + rewrite (EU_report_result_defection _ _ _ _ _ Hr). reflexivity.
    + rewrite (EU_report_result_collaboration _ _ _ _ _ Hr). reflexivity.
  - clear Hlen Hk Hm Hkm. unfold collaborations, defections.
    induction Hrs as [|r rs Hr Hrs IH]; [reflexivity|].
    destruct Hr as [Hr|Hr].
    + rewrite (filter_cons_True (fun r => strategy (their_decision r) = 0)) by exact Hr.
      rewrite (filter_cons_False (fun r => strategy (their_decision r) = 1))
        by (rewrite Hr; discriminate).
      cbn [length]. lia.
    + rewrite (filter_cons_True (fun r => strategy (their_decision r) = 1)) by exact Hr.
      rewrite (filter_cons_False (fun r => strategy (their_decision r) = 0))
        by (rewrite Hr; discriminate).
      cbn [length]. lia.
  - change (state (RiskAwareEUplayer exp game name risk_aversion 1 1))
      with (mkEU game risk_aversion (1, 1)).
    rewrite EU_after_counts by (try assumption; lia).
    unfold p_collab, beta_mean. cbn [strategy_prior fst snd].
    replace ((0 <? 1 + collaborations rs) && (0 <? 1 + defections rs)) with true.
    2: { symmetry. apply andb_true_iff. split; apply Z.ltb_lt; lia. }
    rewrite wrap64_small by lia.
    replace (1 + collaborations rs) with (collaborations rs + 1) by lia.
    replace (collaborations rs + 1 + (1 + defections rs))
      with (collaborations rs + defections rs + 2) by lia.
    reflexivity.
Qed.

(** ** The Expected-Utility decision *)

Lemma argmax_scan_bound (l : list float) mp (best i : nat) :
  (best < i)%nat -> (argmax_scan mp best i l < i + length l)%nat.
Proof.
  revert mp best i. induction l as [|x l IH]; intros mp best i Hb; cbn [argmax_scan length].
  - lia.
  - destruct (negb (x <=? mp)%float).
    + destruct (is_nan x); [lia|]. specialize (IH x i (S i)). lia.
    + specialize (IH mp best (S i)). lia.
Qed.

Lemma argmax_in_range (l : list float) :
  l <> [] -> exists c, argmax l = Ok c /\ (c < length l)%nat.
Proof.
  destruct l as [|x l]; [congruence|]. intros _. cbn [argmax length].
  eexists. split; [reflexivity|].
  destruct (is_nan x); [lia|]. pose proof (argmax_scan_bound l x 0 1). lia.
Qed.

Lemma nanargmax_in_range (l : list float) :
  forallb is_nan l = false -> exists i, nanargmax l = Ok i /\ (i < length l)%nat.
Proof.
  intros Hnan. unfold nanargmax. rewrite Hnan.
  destruct (argmax_in_range (map (fun x => if is_nan x then neg_infinity else x) l))
    as (i & Hi & Hlt).
  - destruct l; [discriminate|]. discriminate.
  - exists i. split; [exact Hi|]. rewrite length_map in Hlt. exact Hlt.
Qed.

Lemma nanargmax_all_nan (l : list float) :
  forallb is_nan l = true -> nanargmax l = Raise ValueError.
Proof. intros Hnan. unfold nanargmax. rewrite Hnan. reflexivity. Qed.

Lemma for_designs_length {A} (f : Z -> outcome exn A) (ds : list Z) (l : list A) :
  for_designs f ds = Ok l -> length l = length ds.
Proof.
  revert l. induction ds as [|d ds IH]; intros l Hl; cbn in Hl.
  - injection Hl as <-. reflexivity.
  - destruct (f d) as [a|e]; cbn in Hl; [|discriminate].
    destruct (for_designs f ds) as [r|e]; cbn in Hl; [|discriminate].
    injection Hl as <-. cbn. f_equal. apply IH. reflexivity.
Qed.

Lemma py_index_nat {A} (l : list A) (i : nat) (x : A) :
  l !! i = Some x -> py_index l (Z.of_nat i) = Ok x.
Proof.
  intros Hx. pose proof (lookup_lt_Some _ _ _ Hx) as Hlt.
  destruct (py_index_in_range l (Z.of_nat i)) as (y & Hy & Hp); [lia|].
  rewrite Nat2Z.id in Hy. congruence.
Qed.

(** ** List comprehensions over the designs *)

Lemma range_length (n : nat) : length (range n) = n.
Proof. unfold range. rewrite length_map, length_seq. reflexivity. Qed.

Lemma range_bounds (n : nat) (d : Z) : In d (range n) -> 0 <= d < Z.of_nat n.
Proof.
  unfold range. rewrite in_map_iff. intros (k & <- & Hk).
  apply in_seq in Hk. lia.
Qed.

(** A comprehension returns when its body returns on every element, and an
    exception leaving it left the body on some element. *)
Lemma for_designs_outcome {A} (f : Z -> outcome exn A) (ds : list Z) :
  (exists l, for_designs f ds = Ok l) \/
  (exists d e, In d ds /\ f d = Raise e /\ for_designs f ds = Raise e).
Proof.
  induction ds as [|d ds IH]; cbn [for_designs].
  - left. eexists. reflexivity.
  - destruct (f d) as [a|e] eqn:Hd; cbn [outcome_bind].
    + destruct IH as [[l Hl]|(d' & e & Hin & Hf & Hr)].
      * left. rewrite Hl. eexists. reflexivity.
      * right. exists d', e. rewrite Hr. split; [right; exact Hin|]. split; [exact Hf|reflexivity].
    + right. exists d, e. split; [left; reflexivity|]. split; [exact Hd|reflexivity].
Qed.

Lemma for_designs_returns {A} (f : Z -> outcome exn A) (ds : list Z) :
  (forall d, In d ds -> exists a, f d = Ok a) -> exists l, for_designs f ds = Ok l.
Proof.
  intros Hf. destruct (for_designs_outcome f ds) as [Hl|(d & e & Hin & Hd & _)];
    [exact Hl|].
  destruct (Hf d Hin) as [a Ha]. congruence.
Qed.

Lemma expected_value_returns (self : EU_attrs) (s d : Z) :
  well_formed (eu_game self) -> s = 0 \/ s = 1 ->
  0 <= d < Z.of_nat (length (designs (eu_game self))) ->
  exists v, expected_value exp self s d = Ok v.
Proof.
  intros Hwf Hs Hd. unfold expected_value.
  assert (Hmine : valid_decision (eu_game self) (mkDecision s d)) by (split; assumption).
  assert (H1 : valid_decision (eu_game self) (mkDecision 1 0))
    by (unfold valid_decision; cbn [strategy design]; lia).
  assert (H0 : valid_decision (eu_game self) (mkDecision 0 0))
    by (unfold valid_decision; cbn [strategy design]; lia).
  destruct (get_payoff_valid _ _ _ Hwf Hmine H1) as (? & ? & v1 & _ & _ & _ & ->).
  destruct (get_payoff_valid _ _ _ Hwf Hmine H0) as (? & ? & v0 & _ & _ & _ & ->).
  cbn [outcome_bind]. eexists. reflexivity.
Qed.

(** With both lists of expected utilities computed and some independent
    one not NaN, the decision in terms of the two arg-max calls. *)
Lemma EU_get_decision_computed (self : EU_attrs) (independent collaborative : list float) :
  for_designs (expected_value exp self 0)
    (range (length (designs (eu_game self)))) = Ok independent ->
  for_designs (expected_value exp self 1)
    (range (length (designs (eu_game self)))) = Ok collaborative ->
  forallb is_nan independent = false ->
  exists (independent_design collaborative_design : nat) (best : float),
    nanargmax independent = Ok independent_design /\
    argmax collaborative = Ok collaborative_design /\
    independent !! independent_design = Some best /\
    EU_get_decision exp self =
      Ok (if forallb (fun v => (v <? best)%float) collaborative
          then mkDecision 0 (Z.of_nat independent_design)
          else mkDecision 1 (Z.of_nat collaborative_design)) /\
    (EU_get_decision exp self = Ok (mkDecision 0 (Z.of_nat independent_design)) <->
     Forall (fun v => (v <? best)%float = true) collaborative) /\
    (EU_get_decision exp self = Ok (mkDecision 1 (Z.of_nat collaborative_design)) <->
     ~ Forall (fun v => (v <? best)%float = true) collaborative).
Proof.
  intros Hi Hc Hnan.
  destruct (nanargmax_in_range independent Hnan) as (i & Hargi & Hlt).
  destruct (lookup_lt_is_Some_2 independent i Hlt) as [best Hbest].
  destruct (argmax_in_range collaborative) as (c & Hargc & _).
  { intros ->. apply for_designs_length in Hi, Hc. cbn in Hc.
    rewrite <- Hc in Hi. destruct independent; [discriminate|discriminate]. }
  assert (Hrun : EU_get_decision exp self =
    Ok (if forallb (fun v => (v <? best)%float) collaborative
        then mkDecision 0 (Z.of_nat i) else mkDecision 1 (Z.of_nat c))).
  { unfold EU_get_decision. rewrite Hi. cbn [outcome_bind]. rewrite Hargi.
    cbn [outcome_bind]. rewrite Hc. cbn [outcome_bind]. rewrite Hargc.
    cbn [outcome_bind]. rewrite (py_index_nat _ _ _ Hbest). cbn [outcome_bind].
    destruct (forallb _ collaborative); reflexivity. }
  exists i, c, best. split; [exact Hargi|]. split; [exact Hargc|].
  split; [exact Hbest|]. split; [exact Hrun|].
  rewrite Hrun.
  destruct (forallb (fun v => (v <? best)%float) collaborative) eqn:Hall.
  - assert (HF : Forall (fun v => (v <? best)%float = true) collaborative).
    { apply List.Forall_forall. apply forallb_forall. exact Hall. }
    split; split; intros; try assumption; try reflexivity; try discriminate.
    contradiction.
  - assert (HF : ~ Forall (fun v => (v <? best)%float = true) collaborative).
    { intros HF. rewrite (proj2 (forallb_forall _ _)) in Hall; [discriminate|].
      apply List.Forall_forall. exact HF. }
    split; split; intros; try assumption; try reflexivity; try discriminate.
    contradiction.
Qed.

(** C5, as the code has it.  For every state of an Expected-Utility agent
    on a payoff model of 2x2 tables, both lists of expected utilities are
    computed.  When every independent one is NaN, or the game has no
    design, [get_decision] raises [ValueError].  Otherwise
    [independent_design] is the NaN-tolerant arg-max of the independent
    ones (NaN read as [-inf]), [collaborative_design] the plain arg-max of
    the collaborative ones (the first NaN when there is one), and
    [get_decision] returns [Decision(0, independent_design)] exactly when
    every collaborative expected utility is strictly below the independent
    one at [independent_design], and [Decision(1, collaborative_design)]
    otherwise. *)
Theorem EU_get_decision_rule (self : EU_attrs) :
  well_formed (eu_game self) ->
  exists independent collaborative : list float,
    for_designs (expected_value exp self 0)
      (range (length (designs (eu_game self)))) = Ok independent /\
    for_designs (expected_value exp self 1)
      (range (length (designs (eu_game self)))) = Ok collaborative /\
    (forallb is_nan independent = true ->
     EU_get_decision exp self = Raise ValueError) /\
    (forallb is_nan independent = false ->
     exists (independent_design collaborative_design : nat) (best : float),
       nan_tolerant_argmax independent independent_design /\
       plain_argmax collaborative collaborative_design /\
       independent !! independent_design = Some best /\
       EU_get_decision exp self =
         Ok (if forallb (fun v => (v <? best)%float) collaborative
             then mkDecision 0 (Z.of_nat independent_design)
             else mkDecision 1 (Z.of_nat collaborative_design)) /\
       (EU_get_decision exp self = Ok (mkDecision 0 (Z.of_nat independent_design)) <->
        Forall (fun v => (v <? best)%float = true) collaborative) /\
       (EU_get_decision exp self = Ok (mkDecision 1 (Z.of_nat collaborative_design)) <->
        ~ Forall (fun v => (v <? best)%float = true) collaborative)).
Proof.
  intros Hwf.
  destruct (for_designs_returns (expected_value exp self 0)
              (range (length (designs (eu_game self))))) as [iv Hiv].
  { intros d Hd. apply range_bounds in Hd.
    apply expected_value_returns; [exact Hwf|left; reflexivity|exact Hd]. }
  destruct (for_designs_returns (expected_value exp self 1)
              (range (length (designs (eu_game self))))) as [cv Hcv].
  { intros d Hd. apply range_bounds in Hd.
    apply expected_value_returns; [exact Hwf|right; reflexivity|exact Hd]. }
  exists iv, cv. split; [exact Hiv|]. split; [exact Hcv|]. split.
  - intros Hnan. unfold EU_get_decision. rewrite Hiv. cbn [outcome_bind].
    rewrite (nanargmax_all_nan _ Hnan). reflexivity.
  - intros Hnan.
    destruct (EU_get_decision_computed self iv cv Hiv Hcv Hnan)
      as (i & c & best & Hi & Hc & Hbest & Hrun & Hzero & Hone).
    exists i, c, best.
    split; [exact (proj1 (nanargmax_selects iv i Hi))|].
    split; [exact (argmax_selects cv c Hc)|].
    split; [exact Hbest|]. split; [exact Hrun|]. split; [exact Hzero|exact Hone].
Qed.

(** When every independent expected utility is NaN, or there is no design,
    [np.nanargmax] raises and so does [get_decision]. *)
Lemma EU_get_decision_all_nan (self : EU_attrs) (independent : list float) :
  for_designs (expected_value exp self 0)
    (range (length (designs (eu_game self)))) = Ok independent ->
  forallb is_nan independent = true ->
  EU_get_decision exp self = Raise ValueError.
Proof.
  intros Hi Hnan. unfold EU_get_decision. rewrite Hi. cbn [outcome_bind].
  rewrite (nanargmax_all_nan _ Hnan). reflexivity.
Qed.

(** ** The Risk-Dominance decision *)

(** Two designs with negative payoffs.  Independent play is best on design
    0; with [ln 0 = -inf] and [ln 1 = 0] design 0 has risk-dominance index
    [-inf] and design 1 has index 0. *)
Definition negative_payoffs : DesignGame float :=
  mkDesignGame [[[-2; -3]; [-2; -1]]; [[-5; 0]; [-4; -1]]]%float.

(** C4, at [negative_payoffs] with risk aversion 0 and no result reported
    yet.  Only design 0 has a negative risk-dominance index, so the arg-max
    of the collaborative utilities restricted to such designs is 0; the code
    multiplies the utilities [-1, -1] by the mask and takes the arg-max of
    [-1, -0.0], which is 1, and returns [Decision(1, 1)]. *)
Theorem RD_masked_argmax_prefers_masked_design :
  ln 0%float = neg_infinity -> ln 1%float = 0%float ->
  get_risk_dominance exp ln (mkRD negative_payoffs 0 None) 0 0 = Ok neg_infinity /\
  get_risk_dominance exp ln (mkRD negative_payoffs 0 None) 1 0 = Ok 0%float /\
  restricted_argmax [-1; -1]%float [neg_infinity; 0%float] = 0%nat /\
  times_mask [-1; -1]%float (map (fun r => (r <? 0)%float) [neg_infinity; 0%float]) =
    [-1; -0]%float /\
  RD_get_decision exp ln (mkRD negative_payoffs 0 None) = Ok (mkDecision 1 1).
Proof.
  intros Hzero Hone.
  assert (R0 : get_risk_dominance exp ln (mkRD negative_payoffs 0 None) 0 0 =
               Ok neg_infinity).
  { unfold get_risk_dominance, log_ratio. vm_compute. rewrite Hzero. reflexivity. }
  assert (R1 : get_risk_dominance exp ln (mkRD negative_payoffs 0 None) 1 0 = Ok 0%float).
  { unfold get_risk_dominance, log_ratio. vm_compute. rewrite Hone. reflexivity. }
  split; [exact R0|]. split; [exact R1|].
  split; [reflexivity|]. split; [reflexivity|].
  unfold RD_get_decision, get_risk_dominance, log_ratio. vm_compute.
  rewrite Hzero. vm_compute. rewrite Hone. vm_compute. reflexivity.
Qed.

(** X3.  The Risk-Dominance decision as the code takes it.  Whenever
    [get_decision] returns: [independent_design] is the NaN-tolerant
    arg-max of the independent utilities; [collaborative_design] is the
    plain arg-max, over all designs, of the products of each collaborative
    utility with 1 when the design's risk-dominance index is negative and
    with 0 when it is not; and the decision is
    [Decision(1, collaborative_design)] when some design has a negative
    index and [Decision(0, independent_design)] when none has. *)
Theorem RD_get_decision_rule (self : RD_attrs) (d : Decision) :
  RD_get_decision exp ln self = Ok d ->
  exists (independent_value risk_dominance collaborative_value masked : list float)
         (independent_design collaborative_design : nat),
    for_designs
      (fun design =>
         outcome_bind (get_payoff (rd_game self) (mkDecision 0 design) (mkDecision 0 0))
           (fun v => Ok (get_utility exp (rd_risk_aversion self) v)))
      (range (length (designs (rd_game self)))) = Ok independent_value /\
    nan_tolerant_argmax independent_value independent_design /\
    for_designs
      (fun design => get_risk_dominance exp ln self design (Z.of_nat independent_design))
      (range (length (designs (rd_game self)))) = Ok risk_dominance /\
    for_designs
      (fun design =>
         outcome_bind (get_payoff (rd_game self) (mkDecision 1 design) (mkDecision 1 0))
           (fun v => Ok (get_utility exp (rd_risk_aversion self) v)))
      (range (length (designs (rd_game self)))) = Ok collaborative_value /\
    length masked = length (designs (rd_game self)) /\
    (forall k v r,
       collaborative_value !! k = Some v -> risk_dominance !! k = Some r ->
       masked !! k = Some (v * (if r <? 0 then 1 else 0))%float) /\
    plain_argmax masked collaborative_design /\
    d = if existsb (fun r => (r <? 0)%float) risk_dominance
        then mkDecision 1 (Z.of_nat collaborative_design)
        else mkDecision 0 (Z.of_nat independent_design).
Proof.
  intros Hd. unfold RD_get_decision in Hd.
  destruct (for_designs _ _) as [iv|] eqn:Hiv in Hd; [|discriminate].
  cbn [outcome_bind] in Hd.
  destruct (nanargmax iv) as [i|] eqn:Hi; [|discriminate]. cbn [outcome_bind] in Hd.
  destruct (for_designs _ _) as [rd|] eqn:Hrd in Hd; [|discriminate].
  cbn [outcome_bind] in Hd.
  destruct (for_designs _ _) as [cv|] eqn:Hcv in Hd; [|discriminate].
  cbn [outcome_bind] in Hd.
  destruct (argmax _) as [c|] eqn:Hc in Hd; [|discriminate]. cbn [outcome_bind] in Hd.
  destruct (nanmin rd) as [lowest|] eqn:Hlow; [|discriminate]. cbn [outcome_bind] in Hd.
  exists iv, rd, cv, (times_mask cv (map (fun r => (r <? 0)%float) rd)), i, c.
  split; [exact Hiv|]. split; [exact (proj1 (nanargmax_selects iv i Hi))|].
  split; [exact Hrd|]. split; [exact Hcv|].
  pose proof (for_designs_length _ _ _ Hrd) as Lrd.
  pose proof (for_designs_length _ _ _ Hcv) as Lcv.
  rewrite range_length in Lrd, Lcv.
  split.
  { unfold times_mask. rewrite length_zip_with, length_map. lia. }
  split.
  { intros k v r Hv Hr. unfold times_mask.
    rewrite lookup_zip_with, Hv, list_lookup_fmap, Hr. reflexivity. }
  split; [exact (argmax_selects _ c Hc)|].
  rewrite <- (nanmin_negative rd lowest Hlow).
  destruct (lowest <? 0)%float; congruence.
Qed.

End PlayerFacts.

(** ** The properties on concrete agents

    [exp] and [ln] are taken at their special values only ([exp_special],
    [ln_special]): the agents below have risk aversion 0, so [exp] is never
    called, and the logarithms taken are those of 0 and 1. *)

Import Game PlayersNew.

(** An Expected-Utility agent on [two_designs], risk neutral, default
    priors: belief 1/2, expected utilities [1.5, 1] for playing
    independently and [3, 5.5] for collaborating. *)
Definition neutral_EU : EU_attrs := mkEU two_designs 0 (1%Z, 1%Z).

Lemma EU_get_decision_rule_witness :
  exists independent collaborative : list float,
    for_designs (expected_value exp_special neutral_EU 0)
      (range (length (designs (eu_game neutral_EU)))) = Ok independent /\
    for_designs (expected_value exp_special neutral_EU 1)
      (range (length (designs (eu_game neutral_EU)))) = Ok collaborative /\
    (forallb is_nan independent = true ->
     EU_get_decision exp_special neutral_EU = Raise ValueError) /\
    (forallb is_nan independent = false ->
     exists (independent_design collaborative_design : nat) (best : float),
       nan_tolerant_argmax independent independent_design /\
       plain_argmax collaborative collaborative_design /\
       independent !! independent_design = Some best /\
       EU_get_decision exp_special neutral_EU =
         Ok (if forallb (fun v => (v <? best)%float) collaborative
             then mkDecision 0 (Z.of_nat independent_design)
             else mkDecision 1 (Z.of_nat collaborative_design)) /\
       (EU_get_decision exp_special neutral_EU =
          Ok (mkDecision 0 (Z.of_nat independent_design)) <->
        Forall (fun v => (v <? best)%float = true) collaborative) /\
       (EU_get_decision exp_special neutral_EU =
          Ok (mkDecision 1 (Z.of_nat collaborative_design)) <->
        ~ Forall (fun v => (v <? best)%float = true) collaborative)).
Proof.
  apply (EU_get_decision_rule exp_special neutral_EU).
  exact two_designs_well_formed.
Defined.

(** An agent created with [prior_collab=0]: the Beta mean is NaN and so is
    every expected utility.  And an agent on a game without designs. *)
Definition doubtful_EU : EU_attrs := mkEU two_designs 0 (1%Z, 0%Z).

Definition idle_EU : EU_attrs := mkEU (mkDesignGame []) 0 (1%Z, 1%Z).

Lemma EU_get_decision_raises :
  is_nan (p_collab doubtful_EU) = true /\
  for_designs (expected_value exp_special doubtful_EU 0)
    (range (length (designs (eu_game doubtful_EU)))) = Ok [nan; nan]%float /\
  EU_get_decision exp_special doubtful_EU = Raise ValueError /\
  EU_get_decision exp_special idle_EU = Raise ValueError.
Proof. repeat split; vm_compute; reflexivity. Qed.

(** Three results seen by an agent: the opponent collaborated, did not,
    collaborated. *)
Definition seen (their_strategy : Z) : Result float :=
  mkResult (mkDecision 0 0) 0%float (mkDecision their_strategy 0) 0%float.

Definition three_results : list (Result float) := [seen 1; seen 0; seen 1].

Lemma EU_posterior_after_reports_witness :
  collaborations three_results = 2%Z /\
  defections three_results = 1%Z /\
  p_collab (EU_after neutral_EU three_results) = 0x1.3333333333333p-1%float.
Proof.
  split; [reflexivity|]. split; [reflexivity|].
  assert (Hrs : Forall (fun r : Result float =>
                          strategy (their_decision r) = 0%Z \/
                          strategy (their_decision r) = 1%Z) three_results).
  { unfold three_results.
    constructor; [right; reflexivity|].
    constructor; [left; reflexivity|].
    constructor; [right; reflexivity|]. constructor. }
  assert (Hlen : (Z.of_nat (length three_results) + 2 < 2 ^ 63)%Z).
  { cbn. lia. }
  refine (eq_trans (proj2 (proj2 (EU_posterior_after_reports exp_special two_designs
                                    "EU_neutral" 0%float three_results Hrs Hlen))) _).
  vm_compute. reflexivity.
Defined.

(** The Risk-Dominance agent on [negative_payoffs], risk neutral and before
    any result: the decision is [Decision(1, 1)], the design whose index is
    not negative. *)
Definition neutral_RD : RD_attrs := mkRD negative_payoffs 0 None.

Lemma RD_masked_argmax_prefers_masked_design_witness :
  ln_special 0%float = neg_infinity /\
  ln_special 1%float = 0%float /\
  get_risk_dominance exp_special ln_special neutral_RD 0 0 = Ok neg_infinity /\
  get_risk_dominance exp_special ln_special neutral_RD 1 0 = Ok 0%float /\
  restricted_argmax [-1; -1]%float [neg_infinity; 0%float] = 0%nat /\
  times_mask [-1; -1]%float (map (fun r => (r <? 0)%float) [neg_infinity; 0%float]) =
    [-1; -0]%float /\
  RD_get_decision exp_special ln_special neutral_RD = Ok (mkDecision 1 1).
Proof.
  split; [reflexivity|]. split; [reflexivity|].
  apply (RD_masked_argmax_prefers_masked_design exp_special ln_special);
    reflexivity.
Defined.

Lemma RD_get_decision_rule_witness :
  exists (independent_value risk_dominance collaborative_value masked : list float)
         (independent_design collaborative_design : nat),
    for_designs
      (fun design =>
         outcome_bind (get_payoff (rd_game neutral_RD) (mkDecision 0 design) (mkDecision 0 0))
           (fun v => Ok (get_utility exp_special (rd_risk_aversion neutral_RD) v)))
      (range (length (designs (rd_game neutral_RD)))) = Ok independent_value /\
    nan_tolerant_argmax independent_value independent_design /\
    for_designs
      (fun design =>
         get_risk_dominance exp_special ln_special neutral_RD design
           (Z.of_nat independent_design))
      (range (length (designs (rd_game neutral_RD)))) = Ok risk_dominance /\
    for_designs
      (fun design =>
         outcome_bind (get_payoff (rd_game neutral_RD) (mkDecision 1 design) (mkDecision 1 0))
           (fun v => Ok (get_utility exp_special (rd_risk_aversion neutral_RD) v)))
      (range (length (designs (rd_game neutral_RD)))) = Ok collaborative_value /\
    length masked = length (designs (rd_game neutral_RD)) /\
    (forall k v r,
       collaborative_value !! k = Some v -> risk_dominance !! k = Some r ->
       masked !! k = Some (v * (if r <? 0 then 1 else 0))%float) /\
    plain_argmax masked collaborative_design /\
    mkDecision 1 1 =
      if existsb (fun r => (r <? 0)%float) risk_dominance
      then mkDecision 1 (Z.of_nat collaborative_design)
      else mkDecision 0 (Z.of_nat independent_design).
Proof.
  apply (RD_get_decision_rule exp_special ln_special neutral_RD (mkDecision 1 1)).
  vm_compute. reflexivity.
Defined.

(** A game of one design, played by an Expected-Utility agent that was
    built for [two_designs] and by a Risk-Dominance agent: the first returns
    [Decision(1, 1)], a design the game does not have. *)
Definition one_design : DesignGame float := mkDesignGame [[[3; 0]; [5; 1]]]%float.

Definition first_EU : Player float := EU_object exp_special "EU_neutral" neutral_EU.

Definition second_RD : Player float :=
  RD_object exp_special ln_special "RD_neutral" (mkRD one_design 0 None).

Lemma neutral_EU_decision :
  EU_get_decision exp_special neutral_EU = Ok (mkDecision 1 1).
Proof. vm_compute. reflexivity. Qed.

Lemma first_EU_get_decision :
  get_decision first_EU = (first_EU, Ok (mkDecision 1 1)).
Proof.
  change (get_decision first_EU)
    with (first_EU, EU_get_decision exp_special neutral_EU).
  rewrite neutral_EU_decision. reflexivity.
Qed.

Lemma play_valid_decisions_witness :
  exists payoff_1 payoff_2 : float,
    get_payoff two_designs (mkDecision 1 1) Decision_default = Ok payoff_1 /\
    get_payoff two_designs Decision_default (mkDecision 1 1) = Ok payoff_2 /\
    let result_1 := mkResult (mkDecision 1 1) payoff_1 Decision_default payoff_2 in
    let result_2 := mkResult Decision_default payoff_2 (mkDecision 1 1) payoff_1 in
    play two_designs first_EU (Player_init two_designs "null") =
      match report_result first_EU result_1 with
      | (p1b, Raise e) =>
          (mkWorld p1b (Player_init two_designs "null")
             [G1; G2; CallReportResult First result_1],
           Raise (Exception e))
      | (p1b, Ok _) =>
          match report_result (Player_init two_designs "null") result_2 with
          | (p2b, Raise e) =>
              (mkWorld p1b p2b
                 [G1; G2; CallReportResult First result_1;
                  CallReportResult Second result_2],
               Raise (Exception e))
          | (p2b, Ok _) =>
              (mkWorld p1b p2b
                 [G1; G2; CallReportResult First result_1;
                  CallReportResult Second result_2],
               Ok result_1)
          end
      end.
Proof.
  apply (play_valid_decisions two_designs first_EU (Player_init two_designs "null")
           first_EU (Player_init two_designs "null") (mkDecision 1 1) Decision_default).
  - exact two_designs_well_formed.
  - exact first_EU_get_decision.
  - reflexivity.
  - unfold valid_decision; cbn; lia.
  - unfold valid_decision; cbn; lia.
Defined.

Lemma play_failure_keeps_learning_state_witness :
  play one_design first_EU second_RD =
    (mkWorld first_EU second_RD [G1],
     Raise (InvalidDecisionError first_EU (mkDecision 1 1))) /\
  existsb is_report (calls (mkWorld first_EU second_RD [G1])) = false /\
  player_1 (mkWorld first_EU second_RD [G1]) = first_EU /\
  player_2 (mkWorld first_EU second_RD [G1]) = second_RD.
Proof.
  assert (Hplay : play one_design first_EU second_RD =
                  (mkWorld first_EU second_RD [G1],
                   Raise (InvalidDecisionError first_EU (mkDecision 1 1)))).
  { apply (proj1 (play_failure_keeps_learning_state exp_special ln_special
                    one_design first_EU second_RD)).
    - exact first_EU_get_decision.
    - unfold valid_decision. cbn. lia. }
  destruct (proj2 (play_failure_keeps_learning_state exp_special ln_special
                     one_design first_EU second_RD) _ _ _ Hplay) as (K0 & K1 & K2).
  split; [exact Hplay|]. split; [exact K0|].
  split; [apply K1; apply learning_EU|apply K2; apply learning_RD].
Defined.

(** * More properties of hunt/game.py *)

Open Scope Z_scope.

(** A result seen from the other seat. *)
Definition seen_by_other {R} (r : Game.Result R) : Game.Result R :=
  Game.mkResult (Game.their_decision r) (Game.their_payoff r)
    (Game.my_decision r) (Game.my_payoff r).

Section GameEdges.
Import Game.
Context {R : Type}.
Implicit Types (self : DesignGame R) (p : Player R) (d : Decision).

(** Python indexing: an index in [-len, len) reads the element at
    [index mod len]; any other raises [IndexError]. *)
Lemma py_index_wraps {A} (l : list A) (i : Z) :
  - Z.of_nat (length l) <= i < Z.of_nat (length l) ->
  exists x, l !! Z.to_nat (i mod Z.of_nat (length l)) = Some x /\
            py_index l i = Ok x /\
            py_index l (i mod Z.of_nat (length l)) = Ok x.
Proof.
  intros Hi.
  assert (Hm : 0 <= i mod Z.of_nat (length l) < Z.of_nat (length l))
    by (apply Z.mod_pos_bound; lia).
  destruct (py_index_in_range l _ Hm) as (x & Hx & Hp).
  exists x. split; [exact Hx|]. split; [|exact Hp].
  destruct (Z.ltb_spec i 0) as [Hneg|Hpos].
  - assert (Hk : i mod Z.of_nat (length l) = Z.of_nat (length l) + i).
    { symmetry. apply (Z.mod_unique_pos _ _ (-1)); lia. }
    rewrite Hk in Hx, Hm. unfold py_index. cbn zeta.
    destruct (i <? 0) eqn:E; [|apply Z.ltb_ge in E; lia].
    rewrite Hx.
    destruct (Z.leb_spec 0 (Z.of_nat (length l) + i)); [|lia].
    destruct (Z.ltb_spec (Z.of_nat (length l) + i) (Z.of_nat (length l))); [|lia].
    reflexivity.
  - rewrite Z.mod_small in Hp by lia. exact Hp.
Qed.

Lemma py_index_outside {A} (l : list A) (i : Z) :
  ~ (- Z.of_nat (length l) <= i < Z.of_nat (length l)) ->
  py_index l i = Raise IndexError.
Proof.
  intros Hi. unfold py_index. cbn zeta.
  destruct (Z.ltb_spec i 0).
  - destruct (Z.leb_spec 0 (Z.of_nat (length l) + i)); [lia|reflexivity].
  - destruct (Z.leb_spec 0 i); [|lia].
    destruct (Z.ltb_spec i (Z.of_nat (length l))); [lia|reflexivity].
Qed.

(** X4.  Which decisions [get_payoff] accepts, on a payoff model of 2x2
    tables with [n] designs.  It makes no validity test of its own: it
    returns a payoff exactly when the focal design is in [-n, n) and both
    strategies are in [-2, 2), a negative index counting from the end as in
    any Python list, and raises [IndexError] otherwise. *)
Theorem get_payoff_index_error self mine theirs :
  well_formed self ->
  let n := Z.of_nat (length (designs self)) in
  let in_range :=
    - n <= design mine < n /\ -2 <= strategy mine < 2 /\ -2 <= strategy theirs < 2 in
  (in_range ->
   exists v,
     get_payoff self mine theirs = Ok v /\
     get_payoff self (mkDecision (strategy mine mod 2) (design mine mod n))
       (mkDecision (strategy theirs mod 2) 0) = Ok v) /\
  (~ in_range -> get_payoff self mine theirs = Raise IndexError).
Proof.
  intros Hwf n in_range. subst in_range n. split.
  - intros (Hd & Hs & Ht).
    destruct (py_index_wraps (designs self) (design mine) Hd) as (matrix & Hm & P1 & P1').
    assert (Hmwf : length matrix = 2%nat /\
                   Forall (fun row : list R => length row = 2%nat) matrix).
    { eapply (proj1 (Forall_lookup _ _) Hwf); exact Hm. }
    destruct Hmwf as [Hlen Hrows].
    destruct (py_index_wraps matrix (strategy mine)) as (row & Hr & P2 & P2');
      [rewrite Hlen; lia|].
    assert (Hrl : length row = 2%nat).
    { eapply (proj1 (Forall_lookup _ _) Hrows); exact Hr. }
    destruct (py_index_wraps row (strategy theirs)) as (v & Hv & P3 & P3');
      [rewrite Hrl; lia|].
    rewrite Hlen in P2'. rewrite Hrl in P3'.
    change (Z.of_nat 2) with 2 in P2', P3'.
    exists v. unfold get_payoff. cbn [design strategy].
    rewrite P1, P1'. cbn [outcome_bind]. rewrite P2, P2'. cbn [outcome_bind].
    rewrite P3, P3'. split; reflexivity.
  - intros Hout. unfold get_payoff.
    destruct (Z_le_dec (- Z.of_nat (length (designs self))) (design mine)) as [H1|H1];
      [destruct (Z_lt_dec (design mine) (Z.of_nat (length (designs self)))) as [H2|H2]|];
      try (rewrite (py_index_outside (designs self) (design mine)) by lia; reflexivity).
    destruct (py_index_wraps (designs self) (design mine) (conj H1 H2))
      as (matrix & Hm & P1 & _).
    assert (Hmwf : length matrix = 2%nat /\
                   Forall (fun row : list R => length row = 2%nat) matrix).
    { eapply (proj1 (Forall_lookup _ _) Hwf); exact Hm. }
    destruct Hmwf as [Hlen Hrows].
    rewrite P1. cbn [outcome_bind].
    destruct (Z_le_dec (-2) (strategy mine)) as [H3|H3];
      [destruct (Z_lt_dec (strategy mine) 2) as [H4|H4]|];
      try (rewrite (py_index_outside matrix (strategy mine)) by (rewrite Hlen; lia);
           reflexivity).
    destruct (py_index_wraps matrix (strategy mine)) as (row & Hr & P2 & _);
      [rewrite Hlen; lia|].
    assert (Hrl : length row = 2%nat).
    { eapply (proj1 (Forall_lookup _ _) Hrows); exact Hr. }
    rewrite P2. cbn [outcome_bind].
    apply py_index_outside. rewrite Hrl. lia.
Qed.

(** X5.  On a game without designs no decision is valid: [play] stops after
    the first agent's [get_decision], with [InvalidDecisionError] for that
    agent when the call returned and with the agent's own exception when it
    raised.  The second agent is not called and nothing is reported. *)
Theorem play_without_designs self p1 p2 :
  designs self = [] ->
  play self p1 p2 =
    (mkWorld (fst (get_decision p1)) p2 [G1],
     match snd (get_decision p1) with
     | Ok d1 => Raise (InvalidDecisionError (fst (get_decision p1)) d1)
     | Raise e => Raise (Exception e)
     end).
Proof.
  intros Hnone.
  destruct (get_decision p1) as [p1a [d1|e]] eqn:H1; cbn [fst snd].
  - apply play_first_invalid; [exact H1|].
    apply invalid_decision_true. intros [_ Hd]. rewrite Hnone in Hd. cbn in Hd. lia.
  - apply play_first_raises. exact H1.
Qed.

(** X6.  The game is symmetric in its seats.  When [play] returns with the
    agents seated one way, it returns with them seated the other way too:
    the same decisions and payoffs, the result seen from the other seat, and
    each agent left as in the first seating. *)
Theorem play_seats_swapped self p1 p2 w res :
  play self p1 p2 = (w, Ok res) ->
  play self p2 p1 =
    (mkWorld (player_2 w) (player_1 w)
       [G1; G2; CallReportResult First (seen_by_other res);
        CallReportResult Second res],
     Ok (seen_by_other res)).
Proof.
  intros Hplay.
  destruct (play_runs self p1 p2); try discriminate.
  injection Hplay as <- <-. cbn [player_1 player_2].
  apply (play_both_reported self p2 p1 p2a d2 p1a d1 v2 v1 p2b p1b); assumption.
Qed.

End GameEdges.

Lemma get_payoff_index_error_witness :
  exists v,
    Game.get_payoff two_designs (Game.mkDecision (-1) (-1)) (Game.mkDecision (-2) 7) = Ok v /\
    Game.get_payoff two_designs (Game.mkDecision ((-1) mod 2) ((-1) mod 2))
      (Game.mkDecision ((-2) mod 2) 0) = Ok v.
Proof.
  apply (get_payoff_index_error two_designs (Game.mkDecision (-1) (-1))
           (Game.mkDecision (-2) 7) two_designs_well_formed).
  cbn. lia.
Defined.

Lemma play_without_designs_witness :
  Game.play (Game.mkDesignGame []) (Game.Player_init two_designs "null")
    (Game.Player_init two_designs "null") =
    (Game.mkWorld (Game.Player_init two_designs "null")
       (Game.Player_init two_designs "null") [Game.G1],
     Raise (Game.InvalidDecisionError (Game.Player_init two_designs "null")
              Game.Decision_default)).
Proof.
  apply (play_without_designs (Game.mkDesignGame []) (Game.Player_init two_designs "null")
           (Game.Player_init two_designs "null")).
  reflexivity.
Defined.

(** A null agent and an agent that always collaborates on design 0. *)
Definition null_seat : Game.Player float := Game.Player_init two_designs "null".

Definition collaborator_seat : Game.Player float :=
  Tournament.constant_player (Game.mkDecision 1 0) "collaborator" two_designs.

Lemma play_seats_swapped_witness :
  Game.play two_designs collaborator_seat null_seat =
    (Game.mkWorld collaborator_seat null_seat
       [Game.G1; Game.G2;
        Game.CallReportResult Game.First
          (Game.mkResult (Game.mkDecision 1 0) 5%float (Game.mkDecision 0 0) 0%float);
        Game.CallReportResult Game.Second
          (Game.mkResult (Game.mkDecision 0 0) 0%float (Game.mkDecision 1 0) 5%float)],
     Ok (Game.mkResult (Game.mkDecision 1 0) 5%float (Game.mkDecision 0 0) 0%float)).
Proof.
  apply (play_seats_swapped two_designs null_seat collaborator_seat
           (Game.mkWorld null_seat collaborator_seat
              [Game.G1; Game.G2;
               Game.CallReportResult Game.First
                 (Game.mkResult (Game.mkDecision 0 0) 0%float (Game.mkDecision 1 0) 5%float);
               Game.CallReportResult Game.Second
                 (Game.mkResult (Game.mkDecision 1 0) 5%float (Game.mkDecision 0 0) 0%float)])
           (Game.mkResult (Game.mkDecision 0 0) 0%float (Game.mkDecision 1 0) 5%float)).
  reflexivity.
Defined.

(** * Properties of hunt/player.py *)

Section PlayerFacts2.
Import Game Players.
Context {R : Type}.
Implicit Types (game : DesignGame R) (d : Decision).

(** ** Random decisions *)

(** How many draws a random decision takes: one for the strategy, one more
    for the design when there are at least two designs. *)
Definition draws_per_decision (game : DesignGame R) : nat :=
  if 1 <? Z.of_nat (length (designs game)) then 2%nat else 1%nat.

Lemma random_decision_valid game rng :
  in_bounds rng -> designs game <> [] ->
  valid_decision game (snd (random_decision game rng)) /\
  draw (fst (random_decision game rng)) = draw rng /\
  drawn (fst (random_decision game rng)) = (drawn rng + draws_per_decision game)%nat.
Proof.
  intros Hb Hne. unfold random_decision, draws_per_decision, integers. cbn zeta.
  assert (Hlen : 0 < Z.of_nat (length (designs game))).
  { destruct (designs game); [congruence|cbn; lia]. }
  pose proof (Hb (drawn rng) 0 2 ltac:(lia)) as Hs.
  destruct (Z.ltb_spec 1 (Z.of_nat (length (designs game)))) as [Hmany|Hone];
    cbn [fst snd draw drawn].
  - pose proof (Hb (S (drawn rng)) 0 (Z.of_nat (length (designs game))) ltac:(lia)) as Hd.
    split; [|split; [reflexivity|lia]].
    unfold valid_decision. cbn [strategy design]. lia.
  - split; [|split; [reflexivity|lia]].
    unfold valid_decision. cbn [strategy design]. lia.
Qed.

(** X7.  A [RandomPlayer] whose game has at least one design and whose
    generator keeps numpy's bounds: [get_decision] returns, with a decision
    that is valid for that game, after one draw for the strategy and, when
    there are two designs or more, one for the design.  The game is kept and
    the generator is the same one, further along, so the same holds of every
    later call. *)
Theorem RandomPlayer_decision_valid (name : string) (self : Random_attrs R) :
  in_bounds (random_rng self) -> designs (random_game self) <> [] ->
  exists self' d,
    get_decision (Random_object name self) = (Random_object name self', Ok d) /\
    valid_decision (random_game self) d /\
    random_game self' = random_game self /\
    in_bounds (random_rng self') /\
    drawn (random_rng self') =
      (drawn (random_rng self) + draws_per_decision (random_game self))%nat.
Proof.
  intros Hb Hne.
  destruct (random_decision_valid (random_game self) (random_rng self) Hb Hne)
    as (Hv & Hdraw & Hn).
  exists (fst (Random_get_decision self)), (snd (Random_get_decision self)).
  unfold get_decision, Random_object, with_state. cbn [get_decision_method state Game.name].
  unfold Random_get_decision.
  destruct (random_decision (random_game self) (random_rng self)) as [rng d] eqn:E.
  cbn [fst snd random_game random_rng] in *.
  split; [reflexivity|]. split; [exact Hv|]. split; [reflexivity|].
  split; [|exact Hn].
  intros k low high Hlh. rewrite Hdraw. apply Hb. exact Hlh.
Qed.

(** X8.  A [MirrorPlayer] built on a game with at least one design, from a
    generator that keeps numpy's bounds, starts with a valid decision. *)
Theorem MirrorPlayer_first_decision_valid (rng : Generator) game (name : string) :
  in_bounds rng -> designs game <> [] ->
  exists m,
    MirrorPlayer rng game name = Mirror_object name m /\
    mirror_game m = game /\
    valid_decision game (next_decision m) /\
    get_decision (MirrorPlayer rng game name) =
      (MirrorPlayer rng game name, Ok (next_decision m)).
Proof.
  intros Hb Hne.
  destruct (random_decision_valid game rng Hb Hne) as (Hv & _ & _).
  unfold MirrorPlayer.
  destruct (random_decision game rng) as [rng' d] eqn:E. cbn [snd] in Hv.
  exists (mkMirror game rng' d).
  split; [reflexivity|]. split; [reflexivity|]. split; [exact Hv|reflexivity].
Qed.

(** ** The mirror in play *)

Lemma Mirror_get_decision (name : string) (m : Mirror_attrs R) :
  get_decision (Mirror_object name m) = (Mirror_object name m, Ok (next_decision m)).
Proof. reflexivity. Qed.

Lemma Mirror_report (name : string) (m : Mirror_attrs R) (r : Result R) :
  report_result (Mirror_object name m) r =
    (Mirror_object name (Mirror_report_result m r), Ok tt).
Proof. reflexivity. Qed.

(** X9.  A mirror holding a valid decision, on either seat and against any
    agent: after [play], however it ended, the mirror again holds a valid
    decision; when [play] raised [InvalidDecisionError] the offender is the
    other agent and the mirror is unchanged; when [play] returned, the mirror
    played the decision it held and now holds the opponent's. *)
Theorem mirror_keeps_valid_decision (self : DesignGame R) (name : string) (m : Mirror_attrs R)
  (p : Player R) :
  valid_decision self (next_decision m) ->
  (exists m',
     player_1 (fst (play self (Mirror_object name m) p)) = Mirror_object name m' /\
     valid_decision self (next_decision m') /\
     (forall player d,
        snd (play self (Mirror_object name m) p) = Raise (InvalidDecisionError player d) ->
        player = player_2 (fst (play self (Mirror_object name m) p)) /\ m' = m) /\
     (forall res,
        snd (play self (Mirror_object name m) p) = Ok res ->
        my_decision res = next_decision m /\ next_decision m' = their_decision res)) /\
  (exists m',
     player_2 (fst (play self p (Mirror_object name m))) = Mirror_object name m' /\
     valid_decision self (next_decision m') /\
     (forall player d,
        snd (play self p (Mirror_object name m)) = Raise (InvalidDecisionError player d) ->
        player = player_1 (fst (play self p (Mirror_object name m))) /\ m' = m) /\
     (forall res,
        snd (play self p (Mirror_object name m)) = Ok res ->
        their_decision res = next_decision m /\ next_decision m' = my_decision res)).
Proof.
  intros Hv. pose proof (proj2 (invalid_decision_false self _) Hv) as Hok.
  assert (Hvalid : forall d, invalid_decision self d = false -> valid_decision self d)
    by (intros d; apply invalid_decision_false).
  split.
  - destruct (play_runs self (Mirror_object name m) p);
      repeat match goal with
        | H : get_decision (Mirror_object _ _) = _ |- _ =>
            rewrite Mirror_get_decision in H; inversion H; subst; clear H
        | H : report_result (Mirror_object _ _) _ = _ |- _ =>
            rewrite Mirror_report in H; inversion H; subst; clear H
        end; try congruence; cbn [fst snd player_1 player_2];
      (eexists; split; [reflexivity|];
       split; [first [exact Hv | apply Hvalid; assumption]|];
       split;
       [intros ? ? E; try discriminate E; injection E as <- <-; split; reflexivity
       |intros ? E; try discriminate E; injection E as <-; split; reflexivity]).
  - destruct (play_runs self p (Mirror_object name m));
      repeat match goal with
        | H : get_decision (Mirror_object _ _) = _ |- _ =>
            rewrite Mirror_get_decision in H; inversion H; subst; clear H
        | H : report_result (Mirror_object _ _) _ = _ |- _ =>
            rewrite Mirror_report in H; inversion H; subst; clear H
        end; try congruence; cbn [fst snd player_1 player_2];
      (eexists; split; [reflexivity|];
       split; [first [exact Hv | apply Hvalid; assumption]|];
       split;
       [intros ? ? E; try discriminate E; injection E as <- <-; split; reflexivity
       |intros ? E; try discriminate E; injection E as <-; split; reflexivity]).
Qed.

(** X10.  Two mirrors holding valid decisions [d1] and [d2], on a payoff
    model of 2x2 tables: [play] returns, each mirror plays what it held and
    then holds what the other played; a second [play] returns the first
    result seen from the other seat and leaves both mirrors as they were at
    the start. *)
Theorem mirrors_exchange_decisions (self : DesignGame R) (name_1 name_2 : string)
  (m1 m2 : Mirror_attrs R) :
  well_formed self ->
  valid_decision self (next_decision m1) -> valid_decision self (next_decision m2) ->
  exists (v1 v2 : R) (m1' m2' : Mirror_attrs R),
    let d1 := next_decision m1 in
    let d2 := next_decision m2 in
    get_payoff self d1 d2 = Ok v1 /\
    get_payoff self d2 d1 = Ok v2 /\
    next_decision m1' = d2 /\ next_decision m2' = d1 /\
    play self (Mirror_object name_1 m1) (Mirror_object name_2 m2) =
      (mkWorld (Mirror_object name_1 m1') (Mirror_object name_2 m2')
         [G1; G2; CallReportResult First (mkResult d1 v1 d2 v2);
          CallReportResult Second (mkResult d2 v2 d1 v1)],
       Ok (mkResult d1 v1 d2 v2)) /\
    play self (Mirror_object name_1 m1') (Mirror_object name_2 m2') =
      (mkWorld (Mirror_object name_1 m1) (Mirror_object name_2 m2)
         [G1; G2; CallReportResult First (mkResult d2 v2 d1 v1);
          CallReportResult Second (mkResult d1 v1 d2 v2)],
       Ok (mkResult d2 v2 d1 v1)).
Proof.
  intros Hwf Hv1 Hv2.
  destruct (get_payoff_valid self _ _ Hwf Hv1 Hv2) as (? & ? & v1 & _ & _ & _ & Hp1).
  destruct (get_payoff_valid self _ _ Hwf Hv2 Hv1) as (? & ? & v2 & _ & _ & _ & Hp2).
  apply invalid_decision_false in Hv1, Hv2.
  destruct m1 as [g1 rng1 d1], m2 as [g2 rng2 d2]. cbn [next_decision] in *.
  exists v1, v2, (mkMirror g1 rng1 d2), (mkMirror g2 rng2 d1). cbn zeta.
  cbn [next_decision].
  split; [exact Hp1|]. split; [exact Hp2|]. split; [reflexivity|]. split; [reflexivity|].
  split.
  - apply (play_both_reported self _ _ (Mirror_object name_1 (mkMirror g1 rng1 d1)) d1
             (Mirror_object name_2 (mkMirror g2 rng2 d2)) d2 v1 v2);
      first [reflexivity | assumption].
  - apply (play_both_reported self _ _ (Mirror_object name_1 (mkMirror g1 rng1 d2)) d2
             (Mirror_object name_2 (mkMirror g2 rng2 d1)) d1 v2 v1);
      first [reflexivity | assumption].
Qed.

End PlayerFacts2.

(** ** On concrete agents *)

Lemma lowest_draws_in_bounds : Players.in_bounds Players.lowest_draws.
Proof. intros k low high Hlh. cbn. lia. Qed.

Lemma two_designs_not_empty : Game.designs two_designs <> [].
Proof. discriminate. Qed.

Lemma RandomPlayer_decision_valid_witness :
  exists self' d,
    Game.get_decision
      (Players.Random_object "random" (Players.mkRandom two_designs Players.lowest_draws)) =
      (Players.Random_object "random" self', Ok d) /\
    Game.valid_decision two_designs d /\
    Players.random_game self' = two_designs /\
    Players.in_bounds (Players.random_rng self') /\
    Players.drawn (Players.random_rng self') = 2%nat.
Proof.
  apply (RandomPlayer_decision_valid "random"
           (Players.mkRandom two_designs Players.lowest_draws)).
  - exact lowest_draws_in_bounds.
  - exact two_designs_not_empty.
Defined.

Lemma MirrorPlayer_first_decision_valid_witness :
  exists m,
    Players.MirrorPlayer Players.lowest_draws two_designs "mirror" =
      Players.Mirror_object "mirror" m /\
    Players.mirror_game m = two_designs /\
    Game.valid_decision two_designs (Players.next_decision m) /\
    Game.get_decision (Players.MirrorPlayer Players.lowest_draws two_designs "mirror") =
      (Players.MirrorPlayer Players.lowest_draws two_designs "mirror",
       Ok (Players.next_decision m)).
Proof.
  apply (MirrorPlayer_first_decision_valid Players.lowest_draws two_designs "mirror").
  - exact lowest_draws_in_bounds.
  - exact two_designs_not_empty.
Defined.

(** A mirror about to collaborate on design 1, and one about to play
    [Decision()]. *)
Definition eager_mirror : Players.Mirror_attrs float :=
  Players.mkMirror two_designs Players.lowest_draws (Game.mkDecision 1 1).

Definition wary_mirror : Players.Mirror_attrs float :=
  Players.mkMirror two_designs Players.lowest_draws (Game.mkDecision 0 0).

Lemma eager_mirror_valid :
  Game.valid_decision two_designs (Players.next_decision eager_mirror).
Proof. unfold Game.valid_decision. cbn. lia. Qed.

Lemma wary_mirror_valid :
  Game.valid_decision two_designs (Players.next_decision wary_mirror).
Proof. unfold Game.valid_decision. cbn. lia. Qed.

Lemma mirror_keeps_valid_decision_witness :
  exists m',
    Game.player_1
      (fst (Game.play two_designs (Players.Mirror_object "mirror" eager_mirror) null_seat)) =
      Players.Mirror_object "mirror" m' /\
    Game.valid_decision two_designs (Players.next_decision m').
Proof.
  destruct (proj1 (mirror_keeps_valid_decision two_designs "mirror" eager_mirror null_seat
                     eager_mirror_valid)) as (m' & Hm & Hv & _).
  exists m'. split; [exact Hm|exact Hv].
Defined.

Lemma mirrors_exchange_decisions_witness :
  exists (v1 v2 : float) (m1' m2' : Players.Mirror_attrs float),
    Game.get_payoff two_designs (Game.mkDecision 1 1) (Game.mkDecision 0 0) = Ok v1 /\
    Game.get_payoff two_designs (Game.mkDecision 0 0) (Game.mkDecision 1 1) = Ok v2 /\
    Players.next_decision m1' = Game.mkDecision 0 0 /\
    Players.next_decision m2' = Game.mkDecision 1 1 /\
    Game.play two_designs (Players.Mirror_object "a" eager_mirror)
      (Players.Mirror_object "b" wary_mirror) =
      (Game.mkWorld (Players.Mirror_object "a" m1') (Players.Mirror_object "b" m2')
         [Game.G1; Game.G2;
          Game.CallReportResult Game.First
            (Game.mkResult (Game.mkDecision 1 1) v1 (Game.mkDecision 0 0) v2);
          Game.CallReportResult Game.Second
            (Game.mkResult (Game.mkDecision 0 0) v2 (Game.mkDecision 1 1) v1)],
       Ok (Game.mkResult (Game.mkDecision 1 1) v1 (Game.mkDecision 0 0) v2)) /\
    Game.play two_designs (Players.Mirror_object "a" m1') (Players.Mirror_object "b" m2') =
      (Game.mkWorld (Players.Mirror_object "a" eager_mirror)
         (Players.Mirror_object "b" wary_mirror)
         [Game.G1; Game.G2;
          Game.CallReportResult Game.First
            (Game.mkResult (Game.mkDecision 0 0) v2 (Game.mkDecision 1 1) v1);
          Game.CallReportResult Game.Second
            (Game.mkResult (Game.mkDecision 1 1) v1 (Game.mkDecision 0 0) v2)],
       Ok (Game.mkResult (Game.mkDecision 0 0) v2 (Game.mkDecision 1 1) v1)).
Proof.
  apply (mirrors_exchange_decisions two_designs "a" "b" eager_mirror wary_mirror).
  - exact two_designs_well_formed.
  - exact eager_mirror_valid.
  - exact wary_mirror_valid.
Defined.

(** * More properties of players_new.py *)

Section AgentOutcomes.
Import Game PlayersNew.
Variables exp ln : float -> float.
Local Open Scope Z_scope.

Lemma nanargmax_bound (l : list float) (i : nat) :
  nanargmax l = Ok i -> (i < length l)%nat /\ forallb is_nan l = false.
Proof.
  intros Hi. destruct (forallb is_nan l) eqn:Hnan.
  - rewrite (nanargmax_all_nan l Hnan) in Hi. discriminate.
  - destruct (nanargmax_in_range l Hnan) as (j & Hj & Hlt).
    split; [congruence|reflexivity].
Qed.

Lemma argmax_bound (l : list float) (c : nat) :
  argmax l = Ok c -> (c < length l)%nat.
Proof.
  intros Hc. destruct l as [|x l]; [discriminate|].
  destruct (argmax_in_range (x :: l)) as (j & Hj & Hlt); [discriminate|].
  congruence.
Qed.

Lemma design_valid (game : DesignGame float) (s : Z) (i : nat) :
  s = 0 \/ s = 1 -> (i < length (designs game))%nat ->
  valid_decision game (mkDecision s (Z.of_nat i)).
Proof. intros Hs Hi. unfold valid_decision. cbn [strategy design]. lia. Qed.

(** ** Decisions are valid for the agent's own game *)

Lemma EU_decision_in_range (self : EU_attrs) (d : Decision) :
  EU_get_decision exp self = Ok d -> valid_decision (eu_game self) d.
Proof.
  intros Hd. unfold EU_get_decision in Hd.
  destruct (for_designs (expected_value exp self 0) _) as [iv|] eqn:Hiv; [|discriminate].
  cbn [outcome_bind] in Hd.
  destruct (nanargmax iv) as [i|] eqn:Hi; [|discriminate]. cbn [outcome_bind] in Hd.
  destruct (for_designs (expected_value exp self 1) _) as [cv|] eqn:Hcv; [|discriminate].
  cbn [outcome_bind] in Hd.
  destruct (argmax cv) as [c|] eqn:Hc; [|discriminate]. cbn [outcome_bind] in Hd.
  destruct (py_index iv (Z.of_nat i)) as [best|]; [|discriminate].
  cbn [outcome_bind] in Hd.
  apply for_designs_length in Hiv, Hcv. rewrite range_length in Hiv, Hcv.
  apply nanargmax_bound in Hi. apply argmax_bound in Hc.
  destruct (forallb _ cv); injection Hd as <-; apply design_valid; auto; lia.
Qed.

Lemma RD_decision_in_range (self : RD_attrs) (d : Decision) :
  RD_get_decision exp ln self = Ok d -> valid_decision (rd_game self) d.
Proof.
  intros Hd. unfold RD_get_decision in Hd.
  destruct (for_designs _ _) as [iv|] eqn:Hiv in Hd; [|discriminate].
  cbn [outcome_bind] in Hd.
  destruct (nanargmax iv) as [i|] eqn:Hi; [|discriminate]. cbn [outcome_bind] in Hd.
  destruct (for_designs _ _) as [rd|] eqn:Hrd in Hd; [|discriminate].
  cbn [outcome_bind] in Hd.
  destruct (for_designs _ _) as [cv|] eqn:Hcv in Hd; [|discriminate].
  cbn [outcome_bind] in Hd.
  destruct (argmax _) as [c|] eqn:Hc in Hd; [|discriminate]. cbn [outcome_bind] in Hd.
  destruct (nanmin rd) as [lowest|]; [|discriminate]. cbn [outcome_bind] in Hd.
  apply for_designs_length in Hiv, Hcv. rewrite range_length in Hiv, Hcv.
  apply nanargmax_bound in Hi. apply argmax_bound in Hc.
  unfold times_mask in Hc. rewrite length_zip_with in Hc.
  destruct (lowest <? 0)%float; injection Hd as <-; apply design_valid; auto; lia.
Qed.

(** A decision valid for a game is accepted by [play] on any game with as
    many designs. *)
Lemma valid_for_same_size (game game' : DesignGame float) (d : Decision) :
  length (designs game) = length (designs game') ->
  valid_decision game' d -> invalid_decision game d = false.
Proof.
  intros Hsame Hv. apply invalid_decision_false.
  unfold valid_decision in *. rewrite Hsame. exact Hv.
Qed.

(** X11.  Whatever decision [RiskAwareEUplayer.get_decision] returns is
    valid for the game the agent holds: strategy 0 or 1 and a design the
    game has.  So is it for any game with as many designs, as the copy the
    tournament plays. *)
Theorem EU_decision_valid_for_own_game (self : EU_attrs) (d : Decision)
  (game : DesignGame float) :
  EU_get_decision exp self = Ok d ->
  length (designs game) = length (designs (eu_game self)) ->
  valid_decision (eu_game self) d /\ invalid_decision game d = false.
Proof.
  intros Hd Hsame. pose proof (EU_decision_in_range self d Hd) as Hv.
  split; [exact Hv|]. exact (valid_for_same_size game _ d Hsame Hv).
Qed.

(** X12.  Whatever decision [RiskAwareRDplayer.get_decision] returns is
    valid for the game the agent holds, whatever opponent decision it
    remembers: strategy 0 or 1 and a design the game has.  So is it for any
    game with as many designs. *)
Theorem RD_decision_valid_for_own_game (self : RD_attrs) (d : Decision)
  (game : DesignGame float) :
  RD_get_decision exp ln self = Ok d ->
  length (designs game) = length (designs (rd_game self)) ->
  valid_decision (rd_game self) d /\ invalid_decision game d = false.
Proof.
  intros Hd Hsame. pose proof (RD_decision_in_range self d Hd) as Hv.
  split; [exact Hv|]. exact (valid_for_same_size game _ d Hsame Hv).
Qed.

(** ** Which exceptions leave [get_decision] *)

(** X13.  On a payoff model of 2x2 tables the expected utilities are always
    computed, and [RiskAwareEUplayer.get_decision] raises in one case only:
    [ValueError], from [np.nanargmax], when every independent expected
    utility is NaN or the game has no design.  Otherwise it returns. *)
Theorem EU_get_decision_outcomes (self : EU_attrs) :
  well_formed (eu_game self) ->
  exists independent,
    for_designs (expected_value exp self 0)
      (range (length (designs (eu_game self)))) = Ok independent /\
    length independent = length (designs (eu_game self)) /\
    (forallb is_nan independent = true -> EU_get_decision exp self = Raise ValueError) /\
    (forallb is_nan independent = false -> exists d, EU_get_decision exp self = Ok d).
Proof.
  intros Hwf.
  destruct (for_designs_returns (expected_value exp self 0)
              (range (length (designs (eu_game self))))) as [iv Hiv].
  { intros d Hd. apply range_bounds in Hd.
    apply expected_value_returns; [exact Hwf|left; reflexivity|exact Hd]. }
  destruct (for_designs_returns (expected_value exp self 1)
              (range (length (designs (eu_game self))))) as [cv Hcv].
  { intros d Hd. apply range_bounds in Hd.
    apply expected_value_returns; [exact Hwf|right; reflexivity|exact Hd]. }
  pose proof (for_designs_length _ _ _ Hiv) as Liv.
  pose proof (for_designs_length _ _ _ Hcv) as Lcv.
  rewrite range_length in Liv, Lcv.
  exists iv. split; [exact Hiv|]. split; [exact Liv|]. split.
  - intros Hnan. unfold EU_get_decision. rewrite Hiv. cbn [outcome_bind].
    rewrite (nanargmax_all_nan _ Hnan). reflexivity.
  - intros Hnan.
    destruct (nanargmax_in_range iv Hnan) as (i & Hi & Hlt).
    destruct (lookup_lt_is_Some_2 iv i Hlt) as [best Hbest].
    destruct (argmax_in_range cv) as (c & Hc & _).
    { intros ->. cbn in Lcv. lia. }
    unfold EU_get_decision. rewrite Hiv. cbn [outcome_bind]. rewrite Hi.
    cbn [outcome_bind]. rewrite Hcv. cbn [outcome_bind]. rewrite Hc.
    cbn [outcome_bind]. rewrite (py_index_nat _ _ _ Hbest). cbn [outcome_bind].
    destruct (forallb _ cv); eexists; reflexivity.
Qed.

(** The opponent decision a Risk-Dominance agent remembers names a design
    of its game (or none is remembered yet). *)
Definition prior_in_range (self : RD_attrs) : Prop :=
  match their_prior_decision self with
  | None => True
  | Some d => 0 <= design d < Z.of_nat (length (designs (rd_game self)))
  end.

Lemma payoff_returns (game : DesignGame float) (s t d : Z) :
  well_formed game -> s = 0 \/ s = 1 -> t = 0 \/ t = 1 ->
  0 <= d < Z.of_nat (length (designs game)) ->
  exists v, get_payoff game (mkDecision s d) (mkDecision t 0) = Ok v.
Proof.
  intros Hwf Hs Ht Hd.
  assert (Hmine : valid_decision game (mkDecision s d)) by (split; assumption).
  assert (Htheirs : valid_decision game (mkDecision t 0))
    by (unfold valid_decision; cbn [strategy design]; lia).
  destruct (get_payoff_valid _ _ _ Hwf Hmine Htheirs) as (? & ? & v & _ & _ & _ & Hv).
  exists v. exact Hv.
Qed.

Lemma log_ratio_outcome (self : RD_attrs) (their_design independent_design : Z) :
  well_formed (rd_game self) ->
  0 <= their_design < Z.of_nat (length (designs (rd_game self))) ->
  0 <= independent_design < Z.of_nat (length (designs (rd_game self))) ->
  (exists v, log_ratio exp ln self their_design independent_design = Ok v) \/
  (log_ratio exp ln self their_design independent_design = Raise ZeroDivisionError /\
   (rd_risk_aversion self =? 0)%float = true).
Proof.
  intros Hwf Ht Hi. unfold log_ratio.
  destruct (payoff_returns (rd_game self) 0 0 independent_design Hwf) as [i0 ->]; auto.
  destruct (payoff_returns (rd_game self) 1 0 their_design Hwf) as [c0 ->]; auto.
  destruct (payoff_returns (rd_game self) 1 1 their_design Hwf) as [c1 ->]; auto.
  destruct (payoff_returns (rd_game self) 0 1 independent_design Hwf) as [i1 ->]; auto.
  cbn [outcome_bind]. unfold utility_div.
  destruct (rd_risk_aversion self =? 0)%float; cbn [andb].
  - destruct (_ =? 0)%float; cbn [outcome_bind].
    + right. split; reflexivity.
    + left. eexists. reflexivity.
  - left. eexists. reflexivity.
Qed.

Lemma get_risk_dominance_outcome (self : RD_attrs) (design independent_design : Z) :
  well_formed (rd_game self) -> prior_in_range self ->
  0 <= design < Z.of_nat (length (designs (rd_game self))) ->
  0 <= independent_design < Z.of_nat (length (designs (rd_game self))) ->
  (exists v, get_risk_dominance exp ln self design independent_design = Ok v) \/
  (get_risk_dominance exp ln self design independent_design = Raise ZeroDivisionError /\
   (rd_risk_aversion self =? 0)%float = true).
Proof.
  intros Hwf Hprior Hd Hi. unfold get_risk_dominance.
  destruct (log_ratio_outcome self design independent_design Hwf Hd Hi)
    as [[a ->]|[-> Hz]]; cbn [outcome_bind]; [|right; split; [reflexivity|exact Hz]].
  assert (Hp : 0 <= match their_prior_decision self with
                    | Some d => Game.design d
                    | None => design
                    end < Z.of_nat (length (designs (rd_game self)))).
  { unfold prior_in_range in Hprior. destruct (their_prior_decision self); assumption. }
  destruct (log_ratio_outcome self _ independent_design Hwf Hp Hi)
    as [[b ->]|[-> Hz]]; cbn [outcome_bind].
  - left. eexists. reflexivity.
  - right. split; [reflexivity|exact Hz].
Qed.

(** X14.  On a payoff model of 2x2 tables, with the remembered opponent
    design in range, [RiskAwareRDplayer.get_decision] can raise two
    exceptions only: [ValueError] when every independent utility is NaN or
    the game has no design, and [ZeroDivisionError], which only a
    risk-neutral agent ([risk_aversion == 0]) can raise, from a zero
    denominator of a risk-dominance ratio.  An agent with non-zero risk
    aversion and some independent utility that is not NaN always returns. *)
Theorem RD_get_decision_outcomes (self : RD_attrs) :
  well_formed (rd_game self) -> prior_in_range self ->
  exists independent_value,
    for_designs
      (fun design =>
         outcome_bind (get_payoff (rd_game self) (mkDecision 0 design) (mkDecision 0 0))
           (fun v => Ok (get_utility exp (rd_risk_aversion self) v)))
      (range (length (designs (rd_game self)))) = Ok independent_value /\
    (forallb is_nan independent_value = true ->
     RD_get_decision exp ln self = Raise ValueError) /\
    (forallb is_nan independent_value = false ->
     (exists d, RD_get_decision exp ln self = Ok d) \/
     (RD_get_decision exp ln self = Raise ZeroDivisionError /\
      (rd_risk_aversion self =? 0)%float = true)).
Proof.
  intros Hwf Hprior.
  set (ds := range (length (designs (rd_game self)))).
  destruct (for_designs_returns
              (fun design =>
                 outcome_bind (get_payoff (rd_game self) (mkDecision 0 design) (mkDecision 0 0))
                   (fun v => Ok (get_utility exp (rd_risk_aversion self) v))) ds)
    as [iv Hiv].
  { intros d Hd. apply range_bounds in Hd.
    destruct (payoff_returns (rd_game self) 0 0 d Hwf) as [v ->]; auto.
    cbn [outcome_bind]. eexists. reflexivity. }
  destruct (for_designs_returns
              (fun design =>
                 outcome_bind (get_payoff (rd_game self) (mkDecision 1 design) (mkDecision 1 0))
                   (fun v => Ok (get_utility exp (rd_risk_aversion self) v))) ds)
    as [cv Hcv].
  { intros d Hd. apply range_bounds in Hd.
    destruct (payoff_returns (rd_game self) 1 1 d Hwf) as [v ->]; auto.
    cbn [outcome_bind]. eexists. reflexivity. }
  pose proof (for_designs_length _ _ _ Hiv) as Liv.
  pose proof (for_designs_length _ _ _ Hcv) as Lcv.
  unfold ds in Liv, Lcv. rewrite range_length in Liv, Lcv.
  exists iv. split; [exact Hiv|]. split.
  - intros Hnan. unfold RD_get_decision. fold ds. rewrite Hiv. cbn [outcome_bind].
    rewrite (nanargmax_all_nan _ Hnan). reflexivity.
  - intros Hnan.
    destruct (nanargmax_in_range iv Hnan) as (i & Hi & Hlt).
    unfold RD_get_decision. fold ds. rewrite Hiv. cbn [outcome_bind]. rewrite Hi.
    cbn [outcome_bind].
    destruct (for_designs_outcome
                (fun design => get_risk_dominance exp ln self design (Z.of_nat i)) ds)
      as [[rd Hrd]|(d & e & Hin & Hd & Hr)].
    + rewrite Hrd. cbn [outcome_bind]. rewrite Hcv. cbn [outcome_bind].
      pose proof (for_designs_length _ _ _ Hrd) as Lrd.
      unfold ds in Lrd. rewrite range_length in Lrd.
      destruct cv as [|c cs]; [cbn in Lcv; lia|].
      destruct rd as [|r rs]; [cbn in Lrd; lia|].
      destruct (argmax_in_range
                  (times_mask (c :: cs) (map (fun r => (r <? 0)%float) (r :: rs))))
        as (k & Hk & _); [discriminate|].
      rewrite Hk. cbn [outcome_bind nanmin].
      left. destruct (_ <? 0)%float; eexists; reflexivity.
    + rewrite Hr. cbn [outcome_bind]. right.
      apply range_bounds in Hin.
      destruct (get_risk_dominance_outcome self d (Z.of_nat i) Hwf Hprior Hin)
        as [[v Hv]|[Hz Hrisk]]; [lia|congruence|].
      split; [congruence|exact Hrisk].
Qed.

End AgentOutcomes.

(** ** On concrete agents *)

Lemma neutral_RD_decision :
  PlayersNew.RD_get_decision PlayersNew.exp_special PlayersNew.ln_special neutral_RD =
    Ok (Game.mkDecision 1 1).
Proof. vm_compute. reflexivity. Qed.

Lemma negative_payoffs_well_formed : Game.well_formed negative_payoffs.
Proof. repeat constructor. Qed.

Lemma EU_decision_valid_for_own_game_witness :
  Game.valid_decision (PlayersNew.eu_game neutral_EU) (Game.mkDecision 1 1) /\
  Game.invalid_decision negative_payoffs (Game.mkDecision 1 1) = false.
Proof.
  apply (EU_decision_valid_for_own_game PlayersNew.exp_special neutral_EU
           (Game.mkDecision 1 1) negative_payoffs).
  - exact neutral_EU_decision.
  - reflexivity.
Defined.

Lemma RD_decision_valid_for_own_game_witness :
  Game.valid_decision (PlayersNew.rd_game neutral_RD) (Game.mkDecision 1 1) /\
  Game.invalid_decision two_designs (Game.mkDecision 1 1) = false.
Proof.
  apply (RD_decision_valid_for_own_game PlayersNew.exp_special PlayersNew.ln_special
           neutral_RD (Game.mkDecision 1 1) two_designs).
  - exact neutral_RD_decision.
  - reflexivity.
Defined.

Lemma EU_get_decision_outcomes_witness :
  exists independent,
    PlayersNew.for_designs (PlayersNew.expected_value PlayersNew.exp_special neutral_EU 0)
      (PlayersNew.range (length (Game.designs (PlayersNew.eu_game neutral_EU)))) =
      Ok independent /\
    length independent = length (Game.designs (PlayersNew.eu_game neutral_EU)) /\
    (forallb PlayersNew.is_nan independent = true ->
     PlayersNew.EU_get_decision PlayersNew.exp_special neutral_EU = Raise ValueError) /\
    (forallb PlayersNew.is_nan independent = false ->
     exists d, PlayersNew.EU_get_decision PlayersNew.exp_special neutral_EU = Ok d).
Proof.
  apply (EU_get_decision_outcomes PlayersNew.exp_special neutral_EU).
  exact two_designs_well_formed.
Defined.

Lemma RD_get_decision_outcomes_witness :
  exists independent_value,
    PlayersNew.for_designs
      (fun design =>
         outcome_bind
           (Game.get_payoff (PlayersNew.rd_game neutral_RD) (Game.mkDecision 0 design)
              (Game.mkDecision 0 0))
           (fun v => Ok (PlayersNew.get_utility PlayersNew.exp_special
                           (PlayersNew.rd_risk_aversion neutral_RD) v)))
      (PlayersNew.range (length (Game.designs (PlayersNew.rd_game neutral_RD)))) =
      Ok independent_value /\
    (forallb PlayersNew.is_nan independent_value = true ->
     PlayersNew.RD_get_decision PlayersNew.exp_special PlayersNew.ln_special neutral_RD =
       Raise ValueError) /\
    (forallb PlayersNew.is_nan independent_value = false ->
     (exists d,
        PlayersNew.RD_get_decision PlayersNew.exp_special PlayersNew.ln_special neutral_RD =
          Ok d) \/
     (PlayersNew.RD_get_decision PlayersNew.exp_special PlayersNew.ln_special neutral_RD =
        Raise ZeroDivisionError /\
      (PlayersNew.rd_risk_aversion neutral_RD =? 0)%float = true)).
Proof.
  apply (RD_get_decision_outcomes PlayersNew.exp_special PlayersNew.ln_special neutral_RD).
  - exact negative_payoffs_well_formed.
  - exact I.
Defined.

(** * More properties of hunt/tournament.py *)

Section TournamentLogs.
Import Game Tournament.
Context {R : Type} `{Number R}.
Implicit Types (self : Tournament R) (s : attrs R).

(** ** The round-robin schedule *)

Lemma combinations_with_replacement_2_length {A} (l : list A) :
  (2 * length (combinations_with_replacement_2 l) = length l * (length l + 1))%nat.
Proof.
  induction l as [|x l IH]; [reflexivity|].
  cbn [combinations_with_replacement_2]. rewrite length_app, length_map.
  cbn [length]. lia.
Qed.

Lemma combinations_with_replacement_2_members {A} (l : list A) (x y : A) :
  In (x, y) (combinations_with_replacement_2 l) -> In x l /\ In y l.
Proof.
  induction l as [|z l IH]; [intros []|].
  cbn [combinations_with_replacement_2]. intros Hin.
  apply in_app_or in Hin. destruct Hin as [Hin|Hin].
  - apply in_map_iff in Hin. destruct Hin as (w & E & Hw).
    injection E as <- <-. split; [left; reflexivity|exact Hw].
  - destruct (IH Hin). split; right; assumption.
Qed.

Lemma enumerate_length {A} (l : list A) : length (enumerate l) = length l.
Proof. unfold enumerate. rewrite length_combine, length_seq. lia. Qed.

Lemma credit_is_Some_iff n k k' score factor (r : gmap string R) :
  is_Some (credit n k score factor r !! k') <-> k = k' \/ is_Some (r !! k').
Proof.
  split; [|apply credit_is_Some].
  intros Hk. destruct (decide (k = k')) as [->|Hne]; [left; reflexivity|].
  right. rewrite credit_lookup_ne in Hk by exact Hne. exact Hk.
Qed.

(** ** Log sizes, loop by loop *)

Lemma games_loop_sizes self pair (gl : list (nat * DesignGame R)) s mv :
  replication_usable self ->
  exists s' mv',
    for_loop (run_game self pair) gl (s, mv) = ((s', mv'), Ok tt) /\
    (length (game_results s') = length (game_results s) + length gl)%nat /\
    (forall n, num_reps self = Some n ->
       (length (error_results s') + length (rep_results s') =
        length (error_results s) + length (rep_results s) + length gl * Z.to_nat n)%nat).
Proof.
  intros Hu. revert s mv. induction gl as [|[g game] gl IH]; intros s mv.
  - exists s, mv. cbn. split; [reflexivity|]. split; [lia|]. intros; lia.
  - destruct (replication_usable_drawn self s Hu) as [n0 Hn0].
    destruct (run_game_drawn self pair g game s mv n0 Hn0)
      as (errs & reps & s1 & p1 & p2 & Hg).
    cbn zeta in Hg.
    destruct Hg as (Hrun & E & P & L & G & _).
    cbn [for_loop]. rewrite Hrun.
    match goal with |- context [for_loop _ gl (s1, ?m)] =>
      destruct (IH s1 m) as (s' & mv' & Hloop & Hgames & Hreps) end.
    exists s', mv'. split; [exact Hloop|]. split.
    + rewrite Hgames, G, length_app. cbn [length]. lia.
    + intros n Hn. rewrite (Hreps n Hn), E, P, !length_app.
      assert (n0 = n) by (destruct Hn0 as [?|[? _]]; congruence). subst n0.
      cbn [length]. lia.
Qed.

Lemma run_match_sizes self pair s bound game :
  replication_usable self -> last (games self) = Some game ->
  exists s' bound',
    run_match self pair (s, bound) = ((s', bound'), Ok tt) /\
    length (match_results s') = S (length (match_results s)) /\
    (length (game_results s') = length (game_results s) + length (games self))%nat /\
    (forall n, num_reps self = Some n ->
       (length (error_results s') + length (rep_results s') =
        length (error_results s) + length (rep_results s) +
        length (games self) * Z.to_nat n)%nat) /\
    forall k,
      is_Some (results s' !! k) <->
      is_Some (results s !! k) \/
      k = name (fst pair (mkDesignGame (designs game))) \/
      k = name (snd pair (mkDesignGame (designs game))).
Proof.
  intros Hu Hlast.
  assert (Hne : games self <> []) by (intros E; rewrite E in Hlast; discriminate).
  destruct (run_match_returns self pair s bound Hu Hne)
    as (s1 & p1 & p2 & sc1 & sc2 & game' & Hlast' & Hloop & Hres & N1 & N2 & Hrun).
  assert (game' = game) by congruence. subst game'.
  destruct (games_loop_sizes self pair (enumerate (games self)) s
              (mkMatchVars bound nzero nzero) Hu)
    as (s1' & mv' & Hloop' & Hgames & Hreps).
  rewrite Hloop in Hloop'. injection Hloop' as <- _.
  rewrite enumerate_length in Hgames, Hreps.
  assert (Hmatch : match_results s1 = match_results s).
  { destruct (games_loop_returns self pair (enumerate (games self)) s
                (mkMatchVars bound nzero nzero) Hu) as (s2 & mv2 & Hloop2 & _ & Hm & _).
    rewrite Hloop in Hloop2. injection Hloop2 as <- _. exact Hm. }
  eexists _, _. split; [exact Hrun|].
  cbn [match_results game_results error_results rep_results results set_results
       append_match].
  split; [rewrite length_app, Hmatch; cbn [length]; lia|].
  split; [exact Hgames|]. split; [exact Hreps|].
  intros k. rewrite !credit_is_Some_iff, Hres, <- N1, <- N2.
  split; [intros [-> | [-> | Hk]] | intros [Hk | [-> | ->]]]; auto.
Qed.

Lemma matches_loop_sizes self
  (ml : list ((DesignGame R -> Player R) * (DesignGame R -> Player R))) s bound game :
  replication_usable self -> last (games self) = Some game ->
  exists s' bound',
    for_loop (run_match self) ml (s, bound) = ((s', bound'), Ok tt) /\
    (length (match_results s') = length (match_results s) + length ml)%nat /\
    (length (game_results s') =
     length (game_results s) + length ml * length (games self))%nat /\
    (forall n, num_reps self = Some n ->
       (length (error_results s') + length (rep_results s') =
        length (error_results s) + length (rep_results s) +
        length ml * (length (games self) * Z.to_nat n))%nat) /\
    forall k,
      is_Some (results s' !! k) <->
      is_Some (results s !! k) \/
      exists pair, In pair ml /\
        (k = name (fst pair (mkDesignGame (designs game))) \/
         k = name (snd pair (mkDesignGame (designs game)))).
Proof.
  intros Hu Hlast. revert s bound. induction ml as [|pair ml IH]; intros s bound.
  - exists s, bound. cbn [for_loop length]. split; [reflexivity|].
    split; [lia|]. split; [lia|]. split; [intros; lia|].
    intros k. split; [auto|]. intros [Hk|(? & [] & _)]. exact Hk.
  - destruct (run_match_sizes self pair s bound game Hu Hlast)
      as (s1 & b1 & Hrun & Hm1 & Hg1 & Hr1 & Hk1).
    destruct (IH s1 b1) as (s' & b' & Hloop & Hm & Hg & Hr & Hk).
    exists s', b'. cbn [for_loop]. rewrite Hrun.
    split; [exact Hloop|]. cbn [length].
    split; [lia|]. split; [lia|].
    split; [intros n Hn; specialize (Hr n Hn); specialize (Hr1 n Hn); lia|].
    intros k. rewrite Hk, Hk1. split.
    + intros [[Hs|Hp]|(pair' & Hin & Hp)]; [left; exact Hs| |].
      * right. exists pair. split; [left; reflexivity|exact Hp].
      * right. exists pair'. split; [right; exact Hin|exact Hp].
    + intros [Hs|(pair' & [<-|Hin] & Hp)]; [left; left; exact Hs| |].
      * left. right. exact Hp.
      * right. exists pair'. split; [exact Hin|exact Hp].
Qed.

(** X15.  The sizes of the logs of a run with a fixed replicate count
    [num_reps] and at least one game, for [N] players and [G] games: the
    schedule has [N (N + 1) / 2] matches; [match_results] has one entry per
    match, [game_results] one per game of each match, and [rep_results] and
    [error_results] together one per replicate, [max(num_reps, 0)] for each
    game of each match.  Nothing is left from an earlier run. *)
Theorem run_log_sizes self s (n : Z) :
  games self <> [] -> num_reps self = Some n ->
  let logs := fst (run self s) in
  let matches := length (combinations_with_replacement_2 (players self)) in
  (2 * matches = length (players self) * (length (players self) + 1) /\
   length (match_results logs) = matches /\
   length (game_results logs) = matches * length (games self) /\
   length (error_results logs) + length (rep_results logs) =
     matches * (length (games self) * Z.to_nat n))%nat.
Proof.
  intros Hne Hn. cbn zeta.
  destruct (last (games self)) as [game|] eqn:Hlast.
  2: { apply last_None in Hlast. contradiction. }
  assert (Hu : replication_usable self) by (left; eauto).
  split; [apply combinations_with_replacement_2_length|].
  unfold run.
  destruct (matches_loop_sizes self (combinations_with_replacement_2 (players self))
              (mkAttrs (rng_calls s) [] [] [] [] ∅) None game Hu Hlast)
    as (s' & b' & Hloop & Hm & Hg & Hr & _).
  rewrite Hloop. cbn [fst]. specialize (Hr n Hn).
  cbn [match_results game_results error_results rep_results length] in Hm, Hg, Hr.
  split; [exact Hm|]. split; [exact Hg|exact Hr].
Qed.

(** X16.  The keys of the map [run] returns are exactly the display names
    of the players: a name is a key when some player has it, and only
    then. *)
Theorem run_result_keys self s :
  games self <> [] -> replication_usable self ->
  exists m game,
    snd (run self s) = Ok m /\ last (games self) = Some game /\
    forall k,
      is_Some (m !! k) <->
      exists c, In c (players self) /\ k = name (c (mkDesignGame (designs game))).
Proof.
  intros Hne Hu.
  destruct (last (games self)) as [game|] eqn:Hlast.
  2: { apply last_None in Hlast. contradiction. }
  unfold run.
  destruct (matches_loop_sizes self (combinations_with_replacement_2 (players self))
              (mkAttrs (rng_calls s) [] [] [] [] ∅) None game Hu Hlast)
    as (s' & b' & Hloop & _ & _ & _ & Hk).
  rewrite Hloop. cbn [snd]. exists (results s'), game.
  split; [reflexivity|]. split; [reflexivity|].
  intros k. rewrite Hk. cbn [results]. split.
  - intros [Hs|([c1 c2] & Hin & Hp)].
    + rewrite lookup_empty in Hs. destruct Hs as [? Hs]. discriminate.
    + apply combinations_with_replacement_2_members in Hin. destruct Hin as [H1 H2].
      cbn [fst snd] in Hp. destruct Hp as [->| ->]; eauto.
  - intros (c & Hc & ->). right. exists (c, c).
    split; [apply combinations_with_replacement_2_diagonal; exact Hc|].
    left. reflexivity.
Qed.

(** X17.  The replicate count is drawn outside the [try]: when [num_reps]
    is not given and the draw raises (numpy refuses [p_rep], the default
    [None] included), the exception leaves [run] at the first game of the
    first match, before any agent is called; every log is empty and no map
    is returned. *)
Theorem run_failed_draw_raises self s (e : exn) :
  players self <> [] -> games self <> [] ->
  num_reps self = None -> geometric self (rng_calls s) = Raise e ->
  run self s = (mkAttrs (S (rng_calls s)) [] [] [] [] ∅, Raise e).
Proof.
  intros Hp Hg Hn He.
  destruct self as [ps gs nr draws]. cbn [players games num_reps geometric] in *.
  destruct ps as [|c cs]; [congruence|]. destruct gs as [|game gs]; [congruence|].
  subst nr. unfold run. cbn [players combinations_with_replacement_2 map app for_loop].
  unfold run_match at 1. cbn [games enumerate length seq combine for_loop].
  unfold run_game at 1. cbn [num_reps geometric rng_calls fst snd].
  rewrite He. reflexivity.
Qed.

End TournamentLogs.

(** ** On a concrete tournament *)

Lemma shared_name_tournament_games :
  Tournament.games shared_name_tournament <> [].
Proof. discriminate. Qed.

Lemma run_log_sizes_witness :
  (2 * 3 = 2 * (2 + 1) /\
   length (Tournament.match_results
             (fst (Tournament.run shared_name_tournament Tournament.Tournament_init))) = 3 /\
   length (Tournament.game_results
             (fst (Tournament.run shared_name_tournament Tournament.Tournament_init))) =
     3 * 1 /\
   length (Tournament.error_results
             (fst (Tournament.run shared_name_tournament Tournament.Tournament_init))) +
   length (Tournament.rep_results
             (fst (Tournament.run shared_name_tournament Tournament.Tournament_init))) =
     3 * (1 * 1))%nat.
Proof.
  exact (run_log_sizes shared_name_tournament Tournament.Tournament_init 1
           shared_name_tournament_games eq_refl).
Defined.

Lemma run_result_keys_witness :
  exists m game,
    snd (Tournament.run shared_name_tournament Tournament.Tournament_init) = Ok m /\
    last (Tournament.games shared_name_tournament) = Some game /\
    forall k,
      is_Some (m !! k) <->
      exists c, In c (Tournament.players shared_name_tournament) /\
                k = Game.name (c (Game.mkDesignGame (Game.designs game))).
Proof.
  apply (run_result_keys shared_name_tournament Tournament.Tournament_init).
  - exact shared_name_tournament_games.
  - exact shared_name_tournament_usable.
Defined.

(** The same players and game with no replicate count and no [p_rep]. *)
Definition undrawn_tournament : Tournament.Tournament float :=
  Tournament.mkTournament
    [Tournament.null_player "x";
     Tournament.constant_player (Game.mkDecision 1 0) "x"]
    [Game.mkDesignGame Tournament.designs_3051]
    None (fun _ => Raise TypeError).

Lemma run_failed_draw_raises_witness :
  Tournament.run undrawn_tournament Tournament.Tournament_init =
    (Tournament.mkAttrs 1 [] [] [] [] ∅, Raise TypeError).
Proof.
  apply (run_failed_draw_raises undrawn_tournament Tournament.Tournament_init TypeError).
  - discriminate.
  - discriminate.
  - reflexivity.
  - reflexivity.
Defined.

(** * The repository's agents in play and in a tournament *)

(** An [error_results] entry of the second shape: an exception other than
    [InvalidDecisionError]. *)
Definition is_failure_entry {R} (e : Tournament.error_entry R) : bool :=
  match e with
  | Tournament.FailureEntry _ _ _ _ _ => true
  | Tournament.InvalidEntry _ _ _ _ _ _ => false
  end.

Section OwnGame.
Import Game Tournament PlayersNew Players.
Variables exp ln : float -> float.
Local Open Scope Z_scope.

(** An agent of one of the repository's classes that was built for a game
    with as many designs as [game]: a null agent, a Risk-Dominance or
    Expected-Utility agent in any state, a random agent whose generator
    keeps numpy's bounds, a mirror holding a decision valid for [game]. *)
Inductive plays_own_game (game : DesignGame float) : Player float -> Prop :=
| own_Player g name :
    designs game <> [] -> plays_own_game game (Player_init g name)
| own_RD name self :
    length (designs game) = length (designs (rd_game self)) ->
    plays_own_game game (RD_object exp ln name self)
| own_EU name self :
    length (designs game) = length (designs (eu_game self)) ->
    plays_own_game game (EU_object exp name self)
| own_Random name self :
    in_bounds (random_rng self) -> designs game <> [] ->
    length (designs game) = length (designs (random_game self)) ->
    plays_own_game game (Random_object name self)
| own_Mirror name m :
    valid_decision game (next_decision m) ->
    plays_own_game game (Mirror_object name m).

Lemma own_get_decision (game : DesignGame float) (p : Player float) :
  plays_own_game game p ->
  plays_own_game game (fst (get_decision p)) /\
  forall d, snd (get_decision p) = Ok d -> invalid_decision game d = false.
Proof.
  intros [g name Hne|name self Hlen|name self Hlen|name self Hb Hne Hlen|name m Hv].
  - split; [exact (own_Player game g name Hne)|].
    intros d E. injection E as <-. apply invalid_decision_false.
    unfold valid_decision, Decision_default. cbn [strategy design].
    destruct (designs game); [congruence|cbn [length]; lia].
  - split; [apply own_RD; exact Hlen|].
    intros d E. apply (valid_for_same_size game (rd_game self) d Hlen).
    apply (RD_decision_in_range exp ln). exact E.
  - split; [apply own_EU; exact Hlen|].
    intros d E. apply (valid_for_same_size game (eu_game self) d Hlen).
    apply (EU_decision_in_range exp). exact E.
  - assert (Hne' : designs (random_game self) <> []).
    { intros E. rewrite E in Hlen. destruct (designs game); [congruence|discriminate]. }
    destruct (random_decision_valid (random_game self) (random_rng self) Hb Hne')
      as (Hv & Hdraw & _).
    unfold get_decision. cbn [get_decision_method state Random_object].
    unfold Random_get_decision.
    destruct (random_decision (random_game self) (random_rng self)) as [rng d].
    cbn [fst snd] in *. split.
    + apply (own_Random game name (mkRandom (random_game self) rng));
        cbn [random_rng random_game]; try assumption.
      intros k low high Hlh. rewrite Hdraw. apply Hb. exact Hlh.
    + intros d' E. injection E as <-.
      exact (valid_for_same_size game (random_game self) d Hlen Hv).
  - split; [apply own_Mirror; exact Hv|].
    intros d E. injection E as <-. apply invalid_decision_false. exact Hv.
Qed.

Lemma own_report_result (game : DesignGame float) (p : Player float) (r : Result float) :
  plays_own_game game p -> invalid_decision game (their_decision r) = false ->
  plays_own_game game (fst (report_result p r)).
Proof.
  intros [g name Hne|name self Hlen|name self Hlen|name self Hb Hne Hlen|name m Hv] Hr.
  - exact (own_Player game g name Hne).
  - apply own_RD. exact Hlen.
  - change (report_result (EU_object exp name self) r)
      with (let '(s, o) := EU_report_result self r in (EU_object exp name s, o)).
    unfold EU_report_result. destruct (strategy_prior self) as [a b].
    destruct (_ || _)%bool; [apply own_EU; exact Hlen|].
    destruct (_ || _)%bool; apply own_EU; exact Hlen.
  - apply own_Random; assumption.
  - apply own_Mirror. apply invalid_decision_false. exact Hr.
Qed.

Lemma play_among_own_game_agents_aux (game : DesignGame float) (p1 p2 : Player float) :
  plays_own_game game p1 -> plays_own_game game p2 ->
  plays_own_game game (player_1 (fst (play game p1 p2))) /\
  plays_own_game game (player_2 (fst (play game p1 p2))) /\
  forall player d, snd (play game p1 p2) <> Raise (InvalidDecisionError player d).
Proof.
  intros O1 O2.
  destruct (own_get_decision game p1 O1) as [G1 V1].
  destruct (own_get_decision game p2 O2) as [G2 V2].
  destruct (play_runs game p1 p2);
    repeat match goal with
      | H : get_decision ?p = (_, _) |- _ =>
          rewrite H in *; cbn [fst snd] in *; clear H
      end; cbn [fst snd player_1 player_2].
  - split; [exact G1|]. split; [exact O2|]. discriminate.
  - rewrite (V1 d1 eq_refl) in *. discriminate.
  - split; [exact G1|]. split; [exact G2|]. discriminate.
  - rewrite (V2 d2 eq_refl) in *. discriminate.
  - split; [exact G1|]. split; [exact G2|]. discriminate.
  - match goal with H : report_result p1a ?r = _ |- _ =>
      pose proof (own_report_result game p1a r G1 (V2 _ eq_refl)) as R1;
      rewrite H in R1 end.
    split; [exact R1|]. split; [exact G2|]. discriminate.
  - match goal with H : report_result p1a ?r = _ |- _ =>
      pose proof (own_report_result game p1a r G1 (V2 _ eq_refl)) as R1;
      rewrite H in R1 end.
    match goal with H : report_result p2a ?r = _ |- _ =>
      pose proof (own_report_result game p2a r G2 (V1 _ eq_refl)) as R2;
      rewrite H in R2 end.
    split; [exact R1|]. split; [exact R2|]. discriminate.
  - match goal with H : report_result p1a ?r = _ |- _ =>
      pose proof (own_report_result game p1a r G1 (V2 _ eq_refl)) as R1;
      rewrite H in R1 end.
    match goal with H : report_result p2a ?r = _ |- _ =>
      pose proof (own_report_result game p2a r G2 (V1 _ eq_refl)) as R2;
      rewrite H in R2 end.
    split; [exact R1|]. split; [exact R2|]. discriminate.
Qed.

(** X18.  [play] between two such agents never raises
    [InvalidDecisionError], and leaves two such agents: what either
    returns is a decision of the game, whatever results they have seen. *)
Theorem play_among_own_game_agents (game : DesignGame float) (p1 p2 : Player float) :
  plays_own_game game p1 -> plays_own_game game p2 ->
  plays_own_game game (player_1 (fst (play game p1 p2))) /\
  plays_own_game game (player_2 (fst (play game p1 p2))) /\
  forall player d, snd (play game p1 p2) <> Raise (InvalidDecisionError player d).
Proof.
  exact (play_among_own_game_agents_aux game p1 p2).
Qed.

(** ** In a tournament *)

(** What holds before a loop and is kept by its body holds after it,
    however the loop ends. *)
Lemma for_loop_invariant {S A} (P : S -> Prop)
  (body : A -> S -> S * outcome exn unit) (l : list A) (s : S) :
  P s -> (forall a s, In a l -> P s -> P (fst (body a s))) ->
  P (fst (for_loop body l s)).
Proof.
  revert s. induction l as [|a l IH]; intros s Hs Hbody; [exact Hs|].
  cbn [for_loop].
  pose proof (Hbody a s (or_introl eq_refl) Hs) as Ha.
  destruct (body a s) as [s1 [u|e]]; cbn [fst] in *; [|exact Ha].
  apply IH; [exact Ha|]. intros a' s' Hin. apply Hbody. right. exact Hin.
Qed.

Definition only_failures (s : attrs float) : Prop :=
  Forall (fun e => is_failure_entry e = true) (error_results s).

Lemma run_rep_own_game (game : DesignGame float) g n rep s v :
  only_failures s ->
  plays_own_game game (game_player_1 v) -> plays_own_game game (game_player_2 v) ->
  only_failures (fst (run_rep game g n rep (s, v))) /\
  plays_own_game game (game_player_1 (snd (run_rep game g n rep (s, v)))) /\
  plays_own_game game (game_player_2 (snd (run_rep game g n rep (s, v)))).
Proof.
  intros Hs O1 O2.
  destruct (play_among_own_game_agents_aux game _ _ O1 O2) as (P1 & P2 & Hno).
  unfold run_rep.
  destruct (play game (game_player_1 v) (game_player_2 v)) as [w [res|[player d|e]]];
    cbn [fst snd game_player_1 game_player_2] in *.
  - split; [exact Hs|]. split; assumption.
  - exfalso. exact (Hno player d eq_refl).
  - split; [|split; assumption].
    unfold only_failures. cbn [error_results append_error].
    apply Forall_app. split; [exact Hs|]. constructor; [reflexivity|constructor].
Qed.

Lemma reps_own_game (game : DesignGame float) g n (l : list nat) s v :
  only_failures s ->
  plays_own_game game (game_player_1 v) -> plays_own_game game (game_player_2 v) ->
  only_failures (fst (fold_left (fun sv rep => run_rep game g n rep sv) l (s, v))).
Proof.
  revert s v. induction l as [|rep l IH]; intros s v Hs O1 O2; [exact Hs|].
  cbn [fold_left].
  destruct (run_rep_own_game game g n rep s v Hs O1 O2) as (Hs' & O1' & O2').
  destruct (run_rep game g n rep (s, v)) as [s1 v1]. cbn [fst snd] in *.
  apply IH; assumption.
Qed.

Lemma run_game_own_game (self : Tournament float) pair g (game : DesignGame float) s mv :
  plays_own_game game (fst pair (mkDesignGame (designs game))) ->
  plays_own_game game (snd pair (mkDesignGame (designs game))) ->
  only_failures s ->
  only_failures (fst (fst (run_game self pair (g, game) (s, mv)))).
Proof.
  intros O1 O2 Hs. unfold run_game.
  assert (Hdrawn : only_failures (next_draw s)) by exact Hs.
  destruct (num_reps self) as [n|]; [|destruct (geometric self (rng_calls s)) as [n|e]];
    cbn [fst snd]; try exact Hdrawn.
  - pose proof (reps_own_game game g n (seq 0 (Z.to_nat n)) s
                  (mkGameVars (fst pair (mkDesignGame (designs game)))
                     (snd pair (mkDesignGame (designs game))) nzero nzero) Hs O1 O2) as Hr.
    destruct (fold_left _ _ _) as [s1 v1]. cbn [fst] in *. exact Hr.
  - pose proof (reps_own_game game g n (seq 0 (Z.to_nat n)) (next_draw s)
                  (mkGameVars (fst pair (mkDesignGame (designs game)))
                     (snd pair (mkDesignGame (designs game))) nzero nzero) Hdrawn O1 O2)
      as Hr.
    destruct (fold_left _ _ _) as [s1 v1]. cbn [fst] in *. exact Hr.
Qed.

Lemma in_enumerate {A} (l : list A) (g : nat) (x : A) :
  In (g, x) (enumerate l) -> In x l.
Proof. unfold enumerate. apply in_combine_r. Qed.

Lemma run_match_own_game (self : Tournament float) pair s bound :
  (forall game, In game (games self) ->
     plays_own_game game (fst pair (mkDesignGame (designs game))) /\
     plays_own_game game (snd pair (mkDesignGame (designs game)))) ->
  only_failures s ->
  only_failures (fst (fst (run_match self pair (s, bound)))).
Proof.
  intros Hown Hs. unfold run_match.
  pose proof (for_loop_invariant (fun sm => only_failures (fst sm))
                (run_game self pair) (enumerate (games self))
                (s, mkMatchVars bound nzero nzero) Hs) as Hloop.
  destruct (for_loop _ _ _) as [[s1 mv] [u|e]]; cbn [fst] in *.
  - destruct (bound_players mv) as [[q1 q2]|]; cbn [fst]; apply Hloop;
      intros [g game] [s0 mv0] Hin Hs0; apply in_enumerate in Hin;
      destruct (Hown game Hin); apply run_game_own_game; assumption.
  - apply Hloop.
    intros [g game] [s0 mv0] Hin Hs0. apply in_enumerate in Hin.
    destruct (Hown game Hin). apply run_game_own_game; assumption.
Qed.

(** X19.  A tournament whose constructors all build such agents, for every
    game of the tournament: no replicate is lost to an invalid decision.
    Whatever [run] leaves in [error_results], when it returns and when it
    raises, is an entry for another exception. *)
Theorem run_among_own_game_agents (self : Tournament float) (s : attrs float) :
  (forall c game, In c (players self) -> In game (games self) ->
     plays_own_game game (c (mkDesignGame (designs game)))) ->
  Forall (fun e => is_failure_entry e = true) (error_results (fst (run self s))).
Proof.
  intros Hown. unfold run.
  pose proof (for_loop_invariant (fun sb => only_failures (fst sb))
                (run_match self) (combinations_with_replacement_2 (players self))
                (mkAttrs (rng_calls s) [] [] [] [] ∅, None)) as Hloop.
  assert (Hend : only_failures
            (fst (fst (for_loop (run_match self)
                         (combinations_with_replacement_2 (players self))
                         (mkAttrs (rng_calls s) [] [] [] [] ∅, None))))).
  { apply Hloop; [constructor|].
    intros [c1 c2] [s0 b0] Hin Hs0.
    apply combinations_with_replacement_2_members in Hin. destruct Hin as [H1 H2].
    apply run_match_own_game; [|exact Hs0].
    intros game Hg. cbn [fst snd]. split; apply Hown; assumption. }
  destruct (for_loop _ _ _) as [[s1 b1] [u|e]]; exact Hend.
Qed.

End OwnGame.

(** ** On concrete agents *)

Lemma play_among_own_game_agents_witness :
  plays_own_game PlayersNew.exp_special PlayersNew.ln_special two_designs
    (Game.player_1
       (fst (Game.play two_designs first_EU (Players.Mirror_object "mirror" eager_mirror)))) /\
  plays_own_game PlayersNew.exp_special PlayersNew.ln_special two_designs
    (Game.player_2
       (fst (Game.play two_designs first_EU (Players.Mirror_object "mirror" eager_mirror)))) /\
  forall player d,
    snd (Game.play two_designs first_EU (Players.Mirror_object "mirror" eager_mirror)) <>
      Raise (Game.InvalidDecisionError player d).
Proof.
  apply (play_among_own_game_agents PlayersNew.exp_special PlayersNew.ln_special
           two_designs first_EU (Players.Mirror_object "mirror" eager_mirror)).
  - apply own_EU. reflexivity.
  - apply own_Mirror. exact eager_mirror_valid.
Defined.

(** A tournament among one agent of each class, on [two_designs]. *)
Definition class_tournament : Tournament.Tournament float :=
  Tournament.mkTournament
    [PlayersNew.RiskAwareRDplayer_neutral PlayersNew.exp_special PlayersNew.ln_special;
     PlayersNew.RiskAwareEUplayer_neutral PlayersNew.exp_special;
     (fun game => Players.MirrorPlayer Players.lowest_draws game "mirror");
     (fun game => Players.RandomPlayer Players.highest_draws game "random");
     Tournament.null_player "null"]
    [two_designs] (Some 2) (fun _ => Raise TypeError).

Lemma highest_draws_in_bounds : Players.in_bounds Players.highest_draws.
Proof. intros k low high Hlh. cbn. lia. Qed.

Lemma class_tournament_own_game c game :
  In c (Tournament.players class_tournament) ->
  In game (Tournament.games class_tournament) ->
  plays_own_game PlayersNew.exp_special PlayersNew.ln_special game
    (c (Game.mkDesignGame (Game.designs game))).
Proof.
  intros Hc Hg. cbn in Hg. destruct Hg as [<-|[]].
  cbn [Tournament.players class_tournament In] in Hc.
  destruct Hc as [<-|[<-|[<-|[<-|[<-|[]]]]]].
  - apply own_RD. reflexivity.
  - apply own_EU. reflexivity.
  - apply (own_Mirror _ _ two_designs "mirror"
             (Players.mkMirror two_designs
                (Players.mkGenerator (Players.draw Players.lowest_draws) 2)
                (Game.mkDecision 0 0))).
    unfold Game.valid_decision. cbn. lia.
  - apply (own_Random _ _ two_designs "random"
             (Players.mkRandom two_designs Players.highest_draws)).
    + exact highest_draws_in_bounds.
    + discriminate.
    + reflexivity.
  - apply (own_Player _ _ two_designs two_designs "null"). discriminate.
Qed.

Lemma run_among_own_game_agents_witness :
  Forall (fun e => is_failure_entry e = true)
    (Tournament.error_results
       (fst (Tournament.run class_tournament Tournament.Tournament_init))).
Proof.
  apply (run_among_own_game_agents PlayersNew.exp_special PlayersNew.ln_special
           class_tournament Tournament.Tournament_init).
  exact class_tournament_own_game.
Defined.

(** * What the learning agents take from a game that returned *)

Section Learning.
Import Game PlayersNew.
Variables exp ln : float -> float.
Local Open Scope Z_scope.

Lemma RD_object_get_decision (name : string) (self : RD_attrs) :
  get_decision (RD_object exp ln name self) =
    (RD_object exp ln name self, RD_get_decision exp ln self).
Proof. reflexivity. Qed.

Lemma RD_object_report_result (name : string) (self : RD_attrs) (r : Result float) :
  report_result (RD_object exp ln name self) r =
    (RD_object exp ln name (RD_report_result self r), Ok tt).
Proof. reflexivity. Qed.

Lemma EU_object_get_decision (name : string) (self : EU_attrs) :
  get_decision (EU_object exp name self) =
    (EU_object exp name self, EU_get_decision exp self).
Proof. reflexivity. Qed.

Lemma EU_object_report_result (name : string) (self : EU_attrs) (r : Result float) :
  report_result (EU_object exp name self) r =
    (EU_object exp name (fst (EU_report_result self r)), snd (EU_report_result self r)).
Proof.
  unfold report_result. cbn [report_result_method state EU_object].
  destruct (EU_report_result self r). reflexivity.
Qed.

(** The counts after one more observation of [their_strategy]. *)
Definition observed (their_strategy : Z) (prior : Z * Z) : Z * Z :=
  if their_strategy =? 0 then (fst prior + 1, snd prior) else (fst prior, snd prior + 1).

Lemma EU_report_result_valid (self : EU_attrs) (r : Result float) (game : DesignGame float) :
  invalid_decision game (their_decision r) = false ->
  - 2 ^ 63 <= fst (strategy_prior self) < 2 ^ 63 - 1 ->
  - 2 ^ 63 <= snd (strategy_prior self) < 2 ^ 63 - 1 ->
  EU_report_result self r =
    (mkEU (eu_game self) (eu_risk_aversion self)
       (observed (strategy (their_decision r)) (strategy_prior self)),
     Ok tt).
Proof.
  intros Hv Ha Hb. apply invalid_decision_false in Hv. destruct Hv as [Hs _].
  unfold EU_report_result, observed. destruct (strategy_prior self) as [a b].
  cbn [fst snd] in *.
  destruct Hs as [-> | ->]; cbn [Z.eqb orb]; rewrite wrap64_small by lia; reflexivity.
Qed.

(** X20.  A Risk-Dominance agent in a game that returned, on either seat:
    it played what its [get_decision] computed from the attributes it had,
    and it now remembers the opponent's decision of this game, a valid one;
    nothing else of it changed. *)
Theorem RD_learns_opponent_decision (game : DesignGame float) (name : string)
  (self : RD_attrs) (p : Player float) (w : world float) (res : Result float) :
  (play game (RD_object exp ln name self) p = (w, Ok res) ->
   RD_get_decision exp ln self = Ok (my_decision res) /\
   player_1 w =
     RD_object exp ln name
       (mkRD (rd_game self) (rd_risk_aversion self) (Some (their_decision res))) /\
   valid_decision game (their_decision res)) /\
  (play game p (RD_object exp ln name self) = (w, Ok res) ->
   RD_get_decision exp ln self = Ok (their_decision res) /\
   player_2 w =
     RD_object exp ln name
       (mkRD (rd_game self) (rd_risk_aversion self) (Some (my_decision res))) /\
   valid_decision game (my_decision res)).
Proof.
  split; intros Hplay.
  - destruct (play_runs game (RD_object exp ln name self) p); try discriminate.
    injection Hplay as <- <-.
    repeat match goal with
      | H : get_decision (RD_object _ _ _ _) = _ |- _ =>
          rewrite RD_object_get_decision in H; injection H as <- ?
      | H : report_result (RD_object _ _ _ _) _ = _ |- _ =>
          rewrite RD_object_report_result in H; injection H as <-
      end.
    cbn [my_decision their_decision player_1].
    split; [assumption|]. split; [reflexivity|].
    apply invalid_decision_false. assumption.
  - destruct (play_runs game p (RD_object exp ln name self)); try discriminate.
    injection Hplay as <- <-.
    repeat match goal with
      | H : get_decision (RD_object _ _ _ _) = _ |- _ =>
          rewrite RD_object_get_decision in H; injection H as <- ?
      | H : report_result (RD_object _ _ _ _) _ = _ |- _ =>
          rewrite RD_object_report_result in H; injection H as <-
      end.
    cbn [my_decision their_decision player_2].
    split; [assumption|]. split; [reflexivity|].
    apply invalid_decision_false. assumption.
Qed.

(** X21.  An Expected-Utility agent in a game that returned, on either
    seat, its int64 counts below the last value: it played what its
    [get_decision] computed from the counts it had, and the count of the
    opponent's strategy of this game is now one more, the other count as it
    was. *)
Theorem EU_counts_opponent_strategy (game : DesignGame float) (name : string)
  (self : EU_attrs) (p : Player float) (w : world float) (res : Result float) :
  - 2 ^ 63 <= fst (strategy_prior self) < 2 ^ 63 - 1 ->
  - 2 ^ 63 <= snd (strategy_prior self) < 2 ^ 63 - 1 ->
  (play game (EU_object exp name self) p = (w, Ok res) ->
   EU_get_decision exp self = Ok (my_decision res) /\
   player_1 w =
     EU_object exp name
       (mkEU (eu_game self) (eu_risk_aversion self)
          (observed (strategy (their_decision res)) (strategy_prior self)))) /\
  (play game p (EU_object exp name self) = (w, Ok res) ->
   EU_get_decision exp self = Ok (their_decision res) /\
   player_2 w =
     EU_object exp name
       (mkEU (eu_game self) (eu_risk_aversion self)
          (observed (strategy (my_decision res)) (strategy_prior self)))).
Proof.
  intros Ha Hb. split; intros Hplay.
  - destruct (play_runs game (EU_object exp name self) p); try discriminate.
    injection Hplay as <- <-.
    repeat match goal with
      | H : get_decision (EU_object _ _ _) = _ |- _ =>
          rewrite EU_object_get_decision in H; injection H as <- ?
      end.
    match goal with
    | H : report_result (EU_object _ _ _) ?r = _ |- _ =>
        rewrite EU_object_report_result,
          (EU_report_result_valid self r game) in H by assumption;
        injection H as <-
    end.
    cbn [my_decision their_decision player_1]. split; [assumption|reflexivity].
  - destruct (play_runs game p (EU_object exp name self)); try discriminate.
    injection Hplay as <- <-.
    repeat match goal with
      | H : get_decision (EU_object _ _ _) = _ |- _ =>
          rewrite EU_object_get_decision in H; injection H as <- ?
      end.
    match goal with
    | H : report_result (EU_object _ _ _) ?r = _ |- _ =>
        rewrite EU_object_report_result,
          (EU_report_result_valid self r game) in H by assumption;
        injection H as <-
    end.
    cbn [my_decision their_decision player_2]. split; [assumption|reflexivity].
Qed.

End Learning.

(** ** On concrete agents *)

(** The risk-neutral Risk-Dominance agent on [two_designs], before any
    result: both risk-dominance indices are NaN, it plays [Decision(0, 0)]. *)
Definition two_designs_RD : PlayersNew.RD_attrs := PlayersNew.mkRD two_designs 0 None.

Definition first_RD : Game.Player float :=
  PlayersNew.RD_object PlayersNew.exp_special PlayersNew.ln_special "RD_neutral"
    two_designs_RD.

Lemma two_designs_RD_decision :
  PlayersNew.RD_get_decision PlayersNew.exp_special PlayersNew.ln_special two_designs_RD =
    Ok (Game.mkDecision 0 0).
Proof. vm_compute. reflexivity. Qed.

Lemma first_RD_plays :
  Game.play two_designs first_RD null_seat =
    (Game.mkWorld
       (PlayersNew.RD_object PlayersNew.exp_special PlayersNew.ln_special "RD_neutral"
          (PlayersNew.mkRD two_designs 0 (Some (Game.mkDecision 0 0))))
       null_seat
       [Game.G1; Game.G2;
        Game.CallReportResult Game.First
          (Game.mkResult (Game.mkDecision 0 0) 3%float (Game.mkDecision 0 0) 3%float);
        Game.CallReportResult Game.Second
          (Game.mkResult (Game.mkDecision 0 0) 3%float (Game.mkDecision 0 0) 3%float)],
     Ok (Game.mkResult (Game.mkDecision 0 0) 3%float (Game.mkDecision 0 0) 3%float)).
Proof.
  apply (play_both_reported two_designs first_RD null_seat first_RD (Game.mkDecision 0 0)
           null_seat (Game.mkDecision 0 0)).
  - unfold first_RD. rewrite RD_object_get_decision, two_designs_RD_decision. reflexivity.
  - reflexivity.
  - reflexivity.
  - reflexivity.
  - reflexivity.
  - reflexivity.
  - reflexivity.
  - reflexivity.
Qed.

Lemma RD_learns_opponent_decision_witness :
  PlayersNew.RD_get_decision PlayersNew.exp_special PlayersNew.ln_special two_designs_RD =
    Ok (Game.mkDecision 0 0) /\
  Game.player_1 (fst (Game.play two_designs first_RD null_seat)) =
    PlayersNew.RD_object PlayersNew.exp_special PlayersNew.ln_special "RD_neutral"
      (PlayersNew.mkRD two_designs 0 (Some (Game.mkDecision 0 0))) /\
  Game.valid_decision two_designs (Game.mkDecision 0 0).
Proof.
  destruct (proj1 (RD_learns_opponent_decision PlayersNew.exp_special
                     PlayersNew.ln_special two_designs "RD_neutral" two_designs_RD
                     null_seat _ _) first_RD_plays) as (Hd & Hp & Hv).
  split; [exact Hd|]. split; [rewrite first_RD_plays; exact Hp|exact Hv].
Defined.

Lemma first_EU_plays :
  Game.play two_designs first_EU null_seat =
    (Game.mkWorld
       (PlayersNew.EU_object PlayersNew.exp_special "EU_neutral"
          (PlayersNew.mkEU two_designs 0 (2, 1)))
       null_seat
       [Game.G1; Game.G2;
        Game.CallReportResult Game.First
          (Game.mkResult (Game.mkDecision 1 1) 7%float (Game.mkDecision 0 0) 0%float);
        Game.CallReportResult Game.Second
          (Game.mkResult (Game.mkDecision 0 0) 0%float (Game.mkDecision 1 1) 7%float)],
     Ok (Game.mkResult (Game.mkDecision 1 1) 7%float (Game.mkDecision 0 0) 0%float)).
Proof.
  apply (play_both_reported two_designs first_EU null_seat first_EU (Game.mkDecision 1 1)
           null_seat (Game.mkDecision 0 0)).
  - exact first_EU_get_decision.
  - reflexivity.
  - reflexivity.
  - reflexivity.
  - reflexivity.
  - reflexivity.
  - unfold first_EU. rewrite EU_object_report_result. reflexivity.
  - reflexivity.
Qed.

Lemma neutral_EU_counts_in_range :
  - 2 ^ 63 <= fst (PlayersNew.strategy_prior neutral_EU) < 2 ^ 63 - 1 /\
  - 2 ^ 63 <= snd (PlayersNew.strategy_prior neutral_EU) < 2 ^ 63 - 1.
Proof. cbn. lia. Qed.

Lemma EU_counts_opponent_strategy_witness :
  PlayersNew.EU_get_decision PlayersNew.exp_special neutral_EU = Ok (Game.mkDecision 1 1) /\
  Game.player_1 (fst (Game.play two_designs first_EU null_seat)) =
    PlayersNew.EU_object PlayersNew.exp_special "EU_neutral"
      (PlayersNew.mkEU two_designs 0 (2, 1)).
Proof.
  destruct (proj1 (EU_counts_opponent_strategy PlayersNew.exp_special two_designs
                     "EU_neutral" neutral_EU null_seat _ _
                     (proj1 neutral_EU_counts_in_range)
                     (proj2 neutral_EU_counts_in_range)) first_EU_plays) as (Hd & Hp).
  split; [exact Hd|]. rewrite first_EU_plays. exact Hp.
Defined.
